(** * abrt-java-connector: the exception correlation and deduplication core

    A shallow embedding of the parts of [src/abrt-checker.c] that decide
    whether and how an exception is reported:

    - [format_exception_reason_message] and [format_class_name];
    - [exception_is_intended_to_be_reported];
    - the three JVMTI callbacks [callback_on_exception],
      [callback_on_exception_catch] and [callback_on_thread_end];
    - [create_exception_buf_for_thread];

    and of the helpers around them: the class name functions
    ([format_class_name_for_JNI_call], [string_replace],
    [create_updated_class_name]), the path functions ([extract_fs_path],
    [append_file_to_path], [get_main_class]), the log file
    ([get_default_log_file_name], [get_log_file]), the process data
    ([get_pid_as_string], [get_uid_as_string], [get_command],
    [get_thread_name]), the additional information
    ([collect_additional_debug_information], [find_class_in_loaded_class],
    [info_pair_vector_to_string]), [get_line_number], and the stack trace
    ([print_stack_trace_element], [print_exception_stack_trace],
    [generate_thread_stack_trace]).

    C strings are [string]s (a NUL never occurs inside one), a nullable
    pointer is an [option], [jlong] thread ids are [Z], and the calls into
    the JVM (JVMTI/JNI lookups, allocation) are results carried by the event
    that triggers the callback. Where a function writes through pointers
    into a buffer, the buffer is a list of bytes and the result is [None]
    when an access leaves it. *)

From stdpp Require Import gmap strings list.
From Stdlib Require Import Ascii ZArith Lia Sorted.

Local Open Scope Z_scope.

(** ** C string helpers *)

Module CString.

(** [strlen]. *)
Definition strlen (s : string) : nat := String.length s.

(** The first [n] bytes of [s]: what a bounded copy stores. *)
Fixpoint take (n : nat) (s : string) : string :=
  match n, s with
  | O, _ => EmptyString
  | _, EmptyString => EmptyString
  | S n', String a s' => String a (take n' s')
  end.

(** [strrchr s c] for [c <> NUL]: the suffix of [s] that starts at the last
    occurrence of [c], or [None] (NULL) when [c] does not occur. *)
Fixpoint strrchr (s : string) (c : ascii) : option string :=
  match s with
  | EmptyString => None
  | String a s' =>
      match strrchr s' c with
      | Some ptr => Some ptr
      | None => if Ascii.eqb a c then Some s else None
      end
  end.

(** [ptr + 1] on a pointer into a string. *)
Definition next (ptr : string) : string :=
  match ptr with
  | EmptyString => EmptyString
  | String _ s' => s'
  end.

(** [s[0] != 0]. *)
Definition nonempty (s : string) : bool :=
  match s with
  | EmptyString => false
  | String _ _ => true
  end.

(** The C string stored in a byte buffer: everything before the first NUL. *)
Fixpoint until_nul (s : string) : string :=
  match s with
  | EmptyString => EmptyString
  | String a s' =>
      if Ascii.eqb a Ascii.zero then EmptyString else String a (until_nul s')
  end.

(** Replace every occurrence of [old] by [new]. *)
Fixpoint replace_all (old new : ascii) (s : string) : string :=
  match s with
  | EmptyString => EmptyString
  | String a s' =>
      String (if Ascii.eqb a old then new else a) (replace_all old new s')
  end.

(** Overwrite the last byte of a non-empty string when it is [old]. *)
Fixpoint replace_last (old new : ascii) (s : string) : string :=
  match s with
  | EmptyString => EmptyString
  | String a EmptyString =>
      String (if Ascii.eqb a old then new else a) EmptyString
  | String a s' => String a (replace_last old new s')
  end.

(** Drop the last byte of a non-empty string ([s[strlen(s) - 1] = 0]). *)
Fixpoint drop_last (s : string) : string :=
  match s with
  | EmptyString => EmptyString
  | String a EmptyString => EmptyString
  | String a s' => String a (drop_last s')
  end.

End CString.

(** ** Constants of the source *)

Definition MAX_REASON_MESSAGE_STRING_LENGTH : Z := 255.
Definition REPORTED_EXCEPTION_STACK_CAPACITY : nat := 5.

(** [int] is 32 bits wide on every platform the agent is built for. *)
Definition INT_MAX : Z := 2147483647.

(** ** The reason formatter *)

(** The text the format ["%s exception %s in method %s%s%s()"] produces. *)
Definition render_reason (prefix exception_name class_name method : string)
  : string :=
  prefix +:+ " exception " +:+ exception_name +:+ " in method "
         +:+ class_name
         +:+ (if CString.nonempty class_name then "." else EmptyString)
         +:+ method +:+ "()".

(** [snprintf(buf, size, ...)] on the text [rendered]: the C string left in
    [buf] (at most [size - 1] bytes) and the returned [int], which is the
    untruncated length, or negative when that length does not fit an [int]. *)
Definition snprintf (size : Z) (rendered : string) : string * Z :=
  let len := Z.of_nat (CString.strlen rendered) in
  (CString.take (Z.to_nat (size - 1)) rendered,
   if len >? INT_MAX then -1 else len).

(** Which shortening an iteration of the loop applies. *)
Inductive T_shrink :=
| DropClassNamespace      (* class_name = strrchr(class_name, '.') + 1 *)
| DropExceptionNamespace  (* exception_name = strrchr(exception_name, '.') + 1 *)
| DropClassName.          (* class_name += strlen(class_name) *)

#[global] Instance T_shrink_eq_dec : EqDecision T_shrink.
Proof. solve_decision. Defined.

(** One pass through the body of [while (1)]: either [continue] with the new
    [exception_name] and [class_name], or [return]. *)
Inductive T_iteration :=
| Continue (how : T_shrink) (exception_name class_name : string)
| Return (message : option string).

Definition reason_iteration
  (prefix exception_name class_name method : string) : T_iteration :=
  let '(message, message_len) :=
    snprintf MAX_REASON_MESSAGE_STRING_LENGTH
      (render_reason prefix exception_name class_name method) in
  if message_len <=? 0 then Return None
  else if message_len >=? MAX_REASON_MESSAGE_STRING_LENGTH then
    match CString.strrchr class_name "."%char with
    | Some ptr => Continue DropClassNamespace exception_name (CString.next ptr)
    | None =>
        match CString.strrchr exception_name "."%char with
        | Some ptr =>
            Continue DropExceptionNamespace (CString.next ptr) class_name
        | None =>
            if CString.nonempty class_name
            then Continue DropClassName exception_name EmptyString
            else Return (Some message)
        end
    end
  else Return (Some message).

(** The loop, with a bound on the number of iterations; [None] means the bound
    was reached before a [return]. *)
Fixpoint reason_loop (fuel : nat)
  (prefix exception_name class_name method : string)
  : option (option string) :=
  match fuel with
  | O => None
  | S fuel' =>
      match reason_iteration prefix exception_name class_name method with
      | Return message => Some message
      | Continue _ exception_name' class_name' =>
          reason_loop fuel' prefix exception_name' class_name' method
      end
  end.

(** The shortenings the loop applies, in the order it applies them. *)
Fixpoint reason_shrinks (fuel : nat)
  (prefix exception_name class_name method : string) : list T_shrink :=
  match fuel with
  | O => []
  | S fuel' =>
      match reason_iteration prefix exception_name class_name method with
      | Return _ => []
      | Continue how exception_name' class_name' =>
          how :: reason_shrinks fuel' prefix exception_name' class_name' method
      end
  end.

(** Every [continue] shortens one of the two names, so their total length
    bounds the number of iterations. *)
Definition reason_fuel (exception_name class_name : string) : nat :=
  S (CString.strlen exception_name + CString.strlen class_name).

(** [caught ? "Caught" : "Uncaught"]. *)
Definition reason_prefix (caught : bool) : string :=
  if caught then "Caught" else "Uncaught".

(** [format_exception_reason_message]. [calloc_ok] tells whether the
    allocation of the message buffer succeeds; the result is the returned
    pointer. The loop is run with [reason_fuel], a bound it never reaches
    ([format_exception_reason_message_loop] below). *)
Definition format_exception_reason_message
  (calloc_ok : bool) (caught : bool)
  (exception_fqdn class_fqdn method : string) : option string :=
  let prefix := reason_prefix caught in
  if negb calloc_ok then None
  else
    match reason_loop (reason_fuel exception_fqdn class_fqdn)
            prefix exception_fqdn class_fqdn method with
    | Some message => message
    | None => None
    end.

(** The loop when [exception_name] is NULL, which is what
    [callback_on_exception] passes on when [get_exception_type_name] fails.
    The C library prints a NULL given for [%s] as ["(null)"], so the text
    is rendered with that name. When the text does not fit and the class
    name has no dot, the chain of [if]s goes on to
    [strrchr(exception_name, '.')], which reads through the NULL pointer:
    the result is [None] for that undefined behaviour, as it is when the
    bound on the iterations is reached. An iteration that continues has cut
    the class name after its last dot, so the next one returns or reaches
    [strrchr(exception_name, '.')]: the bound [reason_fuel] is never
    reached ([reason_loop_NULL_fuel] below). *)
Fixpoint reason_loop_NULL (fuel : nat) (prefix class_name method : string)
  : option (option string) :=
  match fuel with
  | O => None
  | S fuel' =>
      let '(message, message_len) :=
        snprintf MAX_REASON_MESSAGE_STRING_LENGTH
          (render_reason prefix "(null)" class_name method) in
      if message_len <=? 0 then Some None
      else if message_len >=? MAX_REASON_MESSAGE_STRING_LENGTH then
        match CString.strrchr class_name "."%char with
        | Some ptr => reason_loop_NULL fuel' prefix (CString.next ptr) method
        | None => None
        end
      else Some (Some message)
  end.

(** [format_exception_reason_message] as the callbacks call it, with an
    [exception_fqdn] that may be NULL. The outer [None] is undefined
    behaviour. *)
Definition format_exception_reason_message_of
  (calloc_ok : bool) (caught : bool) (exception_fqdn : option string)
  (class_fqdn method : string) : option (option string) :=
  match exception_fqdn with
  | Some exception_fqdn =>
      Some (format_exception_reason_message calloc_ok caught
              exception_fqdn class_fqdn method)
  | None =>
      if negb calloc_ok then Some None
      else reason_loop_NULL (reason_fuel EmptyString class_fqdn)
             (reason_prefix caught) class_fqdn method
  end.

(** [format_class_name]: the returned pointer skips a leading ['L'] of the
    signature; every ['/'] is turned into ['.'] and a final [';'] is
    overwritten with [replace_to] (which ends the string there when
    [replace_to] is NUL). *)
Definition format_class_name (class_signature : string) (replace_to : ascii)
  : string :=
  let written :=
    CString.replace_last ";"%char replace_to
      (CString.replace_all "/"%char "."%char class_signature) in
  let output :=
    match class_signature with
    | String "L"%char _ => CString.next written
    | _ => written
    end in
  CString.until_nul output.

(** ** Data model *)

(** A Java object, as the JVM identifies it: two [jobject]s are equal exactly
    when [Object.equals] and [IsSameObject] say so. *)
Definition jobject := N.
Definition jmethodID := N.

Record T_infoPair := {
  label : string;
  data : string;
}.

(** A single report of an exception. A [None] field is a NULL pointer. *)
Record T_exceptionReport := {
  message : option string;
  stacktrace : option string;
  executable : option string;
  exception_type_name : option string;
  additional_info : option (list T_infoPair);
  exception_object : jobject;
}.

(** The part of [T_configuration] the callbacks read. *)
Record T_configuration := {
  reportedCaughExceptionTypes : option (list string);
}.

(** The part of [T_processProperties] the callbacks read. *)
Record T_processProperties := {
  main_class : option string;
}.

(** ** The buffer of already reported exceptions *)

(** Modelled from the spec: [jthrowable_circular_buf.c] is not among the
    sources. The spec describes a ring of fixed capacity, set at
    construction, managed with raw indices; [push] writes the slot after the
    most recent one and so overwrites the oldest entry once the ring is
    full, and [find] is a linear membership test. *)
Record T_jthrowableCircularBuf := {
  capacity : nat;
  next_slot : nat;
  mem : list (option jobject);
}.

Definition jthrowable_circular_buf_new (alloc_ok : bool) (capacity : nat)
  : option T_jthrowableCircularBuf :=
  if alloc_ok
  then Some {| capacity := capacity; next_slot := 0%nat;
               mem := replicate capacity None |}
  else None.

Definition jthrowable_circular_buf_push
  (buffer : T_jthrowableCircularBuf) (exception : jobject)
  : T_jthrowableCircularBuf :=
  {| capacity := capacity buffer;
     next_slot := (S (next_slot buffer) mod capacity buffer)%nat;
     mem := <[next_slot buffer := Some exception]> (mem buffer) |}.

Definition jthrowable_circular_buf_find
  (buffer : T_jthrowableCircularBuf) (exception : jobject) : option jobject :=
  if bool_decide (Some exception ∈ mem buffer) then Some exception else None.

(** ** The maps keyed by thread id *)

(** Modelled from the spec: [jthread_map.c] is not among the sources. The
    spec describes a map from a 64-bit thread id to at most one item with
    [get] (peek), [pop] (removing) and [push] (stores unconditionally); the
    callbacks also ask whether a map holds no item at all. *)
Definition jthread_map_new {A} : gmap Z A := ∅.

Definition jthread_map_empty {A} (map : gmap Z A) : bool :=
  bool_decide (map = ∅).

Definition jthread_map_get {A} (map : gmap Z A) (tid : Z) : option A :=
  map !! tid.

Definition jthread_map_push {A} (map : gmap Z A) (tid : Z) (item : A)
  : gmap Z A :=
  <[tid := item]> map.

Definition jthread_map_pop {A} (map : gmap Z A) (tid : Z)
  : option A * gmap Z A :=
  (map !! tid, delete tid map).

(** ** Engine state and reports *)

(** The two global maps. [Agent_OnLoad] fails unless both are created, so in
    every state in which a callback runs neither pointer is NULL. A buffer
    is owned by its [threadMap] entry: a push through the pointer obtained
    from the map is a change of that entry. *)
Record T_state := {
  threadMap : gmap Z T_jthrowableCircularBuf;
  uncaughtExceptionMap : gmap Z T_exceptionReport;
}.

(** One call of [report_stacktrace] with its four arguments.
    [emit_exception] is not an argument: it records which exception object
    the call reports. *)
Record T_emit := {
  emit_exception : jobject;
  emit_executable : option string;
  emit_message : string;
  emit_stacktrace : option string;
  emit_additional_info : option (list T_infoPair);
}.

(** ** Events *)

(** A JVMTI [Exception] event: the arguments of [callback_on_exception] and
    the results of the calls it makes into the JVM. *)
Record T_exceptionEvent := {
  ee_tid : option Z;                       (* get_tid(thr); None: failure *)
  ee_exception_object : jobject;
  ee_catch_method : option jmethodID;      (* None: NULL *)
  ee_exception_type_name : option string;  (* get_exception_type_name *)
  ee_method_name : option string;          (* GetMethodName *)
  ee_declaring_class_ok : bool;            (* GetMethodDeclaringClass *)
  ee_class_signature : option string;      (* GetClassSignature *)
  ee_calloc_ok : bool;                     (* calloc of the reason message *)
  ee_stack_trace : option string;          (* generate_thread_stack_trace *)
  ee_executable : option string;           (* executable it leaves behind *)
  ee_additional_info : option (list T_infoPair);
  ee_malloc_ok : bool;                     (* malloc of the report *)
  ee_buf_alloc_ok : bool;                  (* jthrowable_circular_buf_new *)
}.

(** A JVMTI [ExceptionCatch] event. *)
Record T_exceptionCatchEvent := {
  ce_tid : option Z;
  ce_exception_object : jobject;
  ce_object_class_ok : bool;               (* FindClass java/lang/Object *)
  ce_equal_method_ok : bool;               (* GetMethodID equals *)
  ce_equals_call_ok : bool;                (* equals raised no exception *)
  ce_exception_type_name : option string;
  ce_method_name : option string;
  ce_declaring_class_ok : bool;
  ce_class_signature : option string;
  ce_calloc_ok : bool;
  ce_buf_alloc_ok : bool;
}.

(** A JVMTI [ThreadEnd] event. *)
Record T_threadEndEvent := {
  te_tid : option Z;
}.

Inductive T_event :=
| OnException (ev : T_exceptionEvent)
| OnExceptionCatch (ev : T_exceptionCatchEvent)
| OnThreadEnd (ev : T_threadEndEvent).

(** ** The callbacks *)

Section Callbacks.

Context (globalConfig : T_configuration).
Context (processProperties : T_processProperties).

(** [exception_is_intended_to_be_reported]: the returned flag and the new
    value of [*exception_type]. [looked_up] is what
    [get_exception_type_name] returns when it is called. *)
Definition exception_is_intended_to_be_reported
  (looked_up : option string) (exception_type : option string)
  : bool * option string :=
  match reportedCaughExceptionTypes globalConfig with
  | None => (false, exception_type)
  | Some types =>
      let exception_type :=
        match exception_type with
        | None => looked_up
        | Some _ => exception_type
        end in
      match exception_type with
      | None => (false, None)
      | Some name => (existsb (String.eqb name) types, exception_type)
      end
  end.

(** [create_exception_buf_for_thread]. *)
Definition create_exception_buf_for_thread
  (alloc_ok : bool) (tid : Z) (map : gmap Z T_jthrowableCircularBuf)
  : option T_jthrowableCircularBuf * gmap Z T_jthrowableCircularBuf :=
  match jthrowable_circular_buf_new alloc_ok
          REPORTED_EXCEPTION_STACK_CAPACITY with
  | None => (None, map)
  | Some threads_exc_buf =>
      (Some threads_exc_buf, jthread_map_push map tid threads_exc_buf)
  end.

(** [NULL == threads_exc_buf ||
     NULL == jthrowable_circular_buf_find(threads_exc_buf, object)]. *)
Definition not_yet_reported
  (threads_exc_buf : option T_jthrowableCircularBuf) (object : jobject)
  : bool :=
  match threads_exc_buf with
  | None => true
  | Some buffer =>
      bool_decide (jthrowable_circular_buf_find buffer object = None)
  end.

(** The tail shared by both reporting paths: create the thread's buffer
    when it has none, then push the object. *)
Definition remember_reported
  (alloc_ok : bool) (tid : Z)
  (threads_exc_buf : option T_jthrowableCircularBuf) (object : jobject)
  (map : gmap Z T_jthrowableCircularBuf)
  : gmap Z T_jthrowableCircularBuf :=
  let '(threads_exc_buf, map) :=
    match threads_exc_buf with
    | None => create_exception_buf_for_thread alloc_ok tid map
    | Some buffer => (Some buffer, map)
    end in
  match threads_exc_buf with
  | None => map
  | Some buffer =>
      <[tid := jthrowable_circular_buf_push buffer object]> map
  end.

(** [callback_on_exception]. The result is [None] when the source's
    behaviour is undefined: the exception's type name could not be read and
    [format_exception_reason_message] gets to search the NULL pointer for a
    dot. A type name that could not be read is otherwise stored in the
    pending report as it is, NULL. *)
Definition callback_on_exception
  (ev : T_exceptionEvent) (st : T_state)
  : option (T_state * list T_emit) :=
  let exception_object := ee_exception_object ev in
  let catch_method := ee_catch_method ev in
  if bool_decide (catch_method ≠ None)
     && bool_decide (reportedCaughExceptionTypes globalConfig = None)
  then Some (st, [])
  else
    let '(intended, exception_type_name) :=
      match catch_method with
      | None => (true, None)
      | Some _ =>
          exception_is_intended_to_be_reported
            (ee_exception_type_name ev) None
      end in
    if negb intended then Some (st, [])
    else
      let tid := default 0 (ee_tid ev) in
      let threads_exc_buf :=
        match ee_tid ev with
        | Some tid => jthread_map_get (threadMap st) tid
        | None => None
        end in
      if negb (not_yet_reported threads_exc_buf exception_object)
      then Some (st, [])
      else
        match ee_method_name ev,
              ee_declaring_class_ok ev,
              ee_class_signature ev with
        | Some method_name, true, Some class_signature =>
            let class_name :=
              CString.drop_last
                (format_class_name class_signature "."%char) in
            let exception_type_name :=
              match exception_type_name with
              | None => ee_exception_type_name ev
              | Some _ => exception_type_name
              end in
            match format_exception_reason_message_of (ee_calloc_ok ev)
                    (bool_decide (catch_method ≠ None))
                    exception_type_name class_name method_name with
            | None => None
            | Some message =>
                match catch_method with
                | None =>
                    if ee_malloc_ok ev then
                      let rpt :=
                        {| message := message;
                           exception_type_name := exception_type_name;
                           stacktrace := ee_stack_trace ev;
                           executable := ee_executable ev;
                           additional_info := ee_additional_info ev;
                           exception_object := exception_object |} in
                      Some ({| threadMap := threadMap st;
                               uncaughtExceptionMap :=
                                 jthread_map_push
                                   (uncaughtExceptionMap st) tid rpt |},
                            [])
                    else Some (st, [])
                | Some _ =>
                    let report :=
                      {| emit_exception := exception_object;
                         emit_executable :=
                           match ee_executable ev with
                           | Some exe => Some exe
                           | None => main_class processProperties
                           end;
                         emit_message :=
                           default "Caught exception" message;
                         emit_stacktrace := ee_stack_trace ev;
                         emit_additional_info := ee_additional_info ev |} in
                    Some ({| threadMap :=
                               remember_reported (ee_buf_alloc_ok ev) tid
                                 threads_exc_buf exception_object
                                 (threadMap st);
                             uncaughtExceptionMap :=
                               uncaughtExceptionMap st |},
                          [report])
                end
            end
        | _, _, _ => Some (st, [])
        end.

(** [callback_on_exception_catch]. As above, [None] stands for the
    formatter searching a NULL type name;
    [callback_on_exception_catch_defined] below shows that this never
    happens here. *)
Definition callback_on_exception_catch
  (ev : T_exceptionCatchEvent) (st : T_state)
  : option (T_state * list T_emit) :=
  if jthread_map_empty (uncaughtExceptionMap st) then Some (st, [])
  else
    match ce_tid ev with
    | None => Some (st, [])
    | Some tid =>
        match jthread_map_get (uncaughtExceptionMap st) tid with
        | None => Some (st, [])
        | Some rpt =>
            let equal_objects :=
              bool_decide (ce_exception_object ev = exception_object rpt) in
            if negb (ce_object_class_ok ev) then Some (st, [])
            else if negb (ce_equal_method_ok ev) then Some (st, [])
            else if negb (ce_equals_call_ok ev) || negb equal_objects
            then Some (st, [])
            else
              let popped := (jthread_map_pop (uncaughtExceptionMap st) tid).2 in
              let '(intended, type_name) :=
                exception_is_intended_to_be_reported
                  (ce_exception_type_name ev) (exception_type_name rpt) in
              let threads_exc_buf := jthread_map_get (threadMap st) tid in
              if negb intended
              then Some ({| threadMap := threadMap st;
                            uncaughtExceptionMap := popped |}, [])
              else if negb (not_yet_reported threads_exc_buf
                              (exception_object rpt))
              then Some ({| threadMap := threadMap st;
                            uncaughtExceptionMap := popped |}, [])
              else
                match ce_method_name ev,
                      ce_declaring_class_ok ev,
                      ce_class_signature ev with
                | Some method_name, true, Some class_signature =>
                    let class_name :=
                      format_class_name class_signature Ascii.zero in
                    match format_exception_reason_message_of
                            (ce_calloc_ok ev) true type_name class_name
                            method_name with
                    | None => None
                    | Some message =>
                        let report :=
                          {| emit_exception := exception_object rpt;
                             emit_executable :=
                               match executable rpt with
                               | Some exe => Some exe
                               | None => main_class processProperties
                               end;
                             emit_message :=
                               default "Caught exception" message;
                             emit_stacktrace := stacktrace rpt;
                             emit_additional_info := additional_info rpt |} in
                        Some ({| threadMap :=
                                   remember_reported (ce_buf_alloc_ok ev)
                                     tid threads_exc_buf
                                     (exception_object rpt) (threadMap st);
                                 uncaughtExceptionMap := popped |},
                              [report])
                    end
                | _, _, _ =>
                    Some ({| threadMap := threadMap st;
                             uncaughtExceptionMap := popped |}, [])
                end
        end
    end.

(** [callback_on_thread_end]. *)
Definition callback_on_thread_end
  (ev : T_threadEndEvent) (st : T_state) : T_state * list T_emit :=
  if negb (jthread_map_empty (threadMap st))
     || negb (jthread_map_empty (uncaughtExceptionMap st))
  then
    match te_tid ev with
    | None => (st, [])
    | Some tid =>
        let '(rpt, uncaught) :=
          jthread_map_pop (uncaughtExceptionMap st) tid in
        let '(threads_exc_buf, threads) :=
          jthread_map_pop (threadMap st) tid in
        ({| threadMap := threads; uncaughtExceptionMap := uncaught |},
         match rpt with
         | None => []
         | Some rpt =>
             if not_yet_reported threads_exc_buf (exception_object rpt)
             then
               [ {| emit_exception := exception_object rpt;
                    emit_executable :=
                      match executable rpt with
                      | Some exe => Some exe
                      | None => main_class processProperties
                      end;
                    emit_message :=
                      default "Uncaught exception" (message rpt);
                    emit_stacktrace := stacktrace rpt;
                    emit_additional_info := additional_info rpt |} ]
             else []
         end)
    end
  else (st, []).

(** The engine as a transition system: one event, under the global lock. *)
Definition step (event : T_event) (st : T_state)
  : option (T_state * list T_emit) :=
  match event with
  | OnException ev => callback_on_exception ev st
  | OnExceptionCatch ev => callback_on_exception_catch ev st
  | OnThreadEnd ev => Some (callback_on_thread_end ev st)
  end.

(** A sequence of events, with the reports in the order they are made. *)
Fixpoint run (events : list T_event) (st : T_state)
  : option (T_state * list T_emit) :=
  match events with
  | [] => Some (st, [])
  | event :: events' =>
      match step event st with
      | None => None
      | Some (st', out) =>
          match run events' st' with
          | None => None
          | Some (st'', out') => Some (st'', out ++ out')
          end
      end
  end.

End Callbacks.

(** The thread [tid] an event is delivered on, when [get_tid] succeeds. *)
Definition event_tid (event : T_event) : option Z :=
  match event with
  | OnException ev => ee_tid ev
  | OnExceptionCatch ev => ce_tid ev
  | OnThreadEnd ev => te_tid ev
  end.

(** The state right after a successful [Agent_OnLoad]. *)
Definition initial_state : T_state :=
  {| threadMap := jthread_map_new; uncaughtExceptionMap := jthread_map_new |}.

(** ** Further functions of [abrt-checker.c] *)

(** A C string: no NUL byte inside. *)
Definition nul_free (s : string) : Prop := CString.until_nul s = s.

(** The byte does not occur in the string. *)
Definition absent (c : ascii) (s : string) : Prop := CString.strrchr s c = None.

(** [string_replace]: every [old_char] becomes [new_char], in place. *)
Definition string_replace (string_to_replace : string)
  (old_char new_char : ascii) : string :=
  CString.until_nul (CString.replace_all old_char new_char string_to_replace).

(** [create_updated_class_name]: the class name with ['.'] appended, in
    newly allocated memory. *)
Definition create_updated_class_name (malloc_ok : bool) (class_name : string)
  : option string :=
  if malloc_ok then Some (class_name +:+ ".") else None.

(** [output[0] == 'L'] on a string that is not empty. *)
Definition starts_with_L (s : string) : bool :=
  match s with
  | EmptyString => false
  | String c _ => Ascii.eqb c "L"%char
  end.

(** [format_class_name_for_JNI_call]. The outer [None] is undefined
    behaviour: for the empty signature [last_char] points before the
    string. For the signature ["L"] it points at the ['L'] that was
    skipped, which is not [';']. *)
Definition format_class_name_for_JNI_call (class_signature : option string)
  : option (option string) :=
  match class_signature with
  | None => Some None
  | Some EmptyString => None
  | Some class_signature =>
      let output :=
        if starts_with_L class_signature
        then CString.next class_signature
        else class_signature in
      Some (Some (CString.replace_last ";"%char "."%char output))
  end.

(** *** Paths *)

(** [strncmp(prefix, s, strlen(prefix)) == 0]. *)
Fixpoint starts_with (prefix s : string) : bool :=
  match prefix, s with
  | EmptyString, _ => true
  | String _ _, EmptyString => false
  | String a prefix', String b s' => Ascii.eqb a b && starts_with prefix' s'
  end.

(** [strstr(haystack, needle)]: the offset of the first occurrence of
    [needle], or [None] (NULL). *)
Fixpoint strstr (haystack needle : string) : option nat :=
  if starts_with needle haystack then Some 0%nat
  else match haystack with
       | EmptyString => None
       | String _ rest => S <$> strstr rest needle
       end.

(** [s + n]. *)
Fixpoint string_drop (n : nat) (s : string) : string :=
  match n, s with
  | O, _ => s
  | S _, EmptyString => EmptyString
  | S n', String _ s' => string_drop n' s'
  end.

(** [extract_fs_path]: the URL is cut after the first [".jar"] that is
    followed by ['!'], and then a leading ["file:"] is moved out. *)
Definition extract_fs_path (url_path : string) : string :=
  let url_path :=
    match strstr url_path ".jar!" with
    | Some jar_sfx => CString.take (jar_sfx + 4) url_path
    | None => url_path
    end in
  if starts_with "file:" url_path then string_drop 5 url_path else url_path.

(** [s[strlen(s) - 1]]; [None] when [s] is empty and the index is before
    the string. *)
Fixpoint last_byte (s : string) : option ascii :=
  match s with
  | EmptyString => None
  | String a EmptyString => Some a
  | String _ s' => last_byte s'
  end.

(** [strcpy(dest, src)] where [room] bytes are left at [dest]: the string
    stored there, or [None] when the copy with its NUL does not fit. *)
Definition strcpy (room : nat) (src : string) : option string :=
  if (CString.strlen src + 1 <=? room)%nat then Some src else None.

(** [append_file_to_path]: the returned pointer and [*path] afterwards. The
    outer [None] is undefined behaviour: the byte before an empty [*path] is
    read, or a copy leaves the allocated block. *)
Definition append_file_to_path (malloc_ok : bool) (path : string)
  (file_name : option string) : option (option string * string) :=
  match file_name with
  | None => Some (None, path)
  | Some file_name =>
      let outlen := CString.strlen path in
      match last_byte path with
      | None => None
      | Some last =>
          let need_trailing := negb (Ascii.eqb last "/"%char) in
          let size :=
            (outlen + CString.strlen file_name
             + (if need_trailing then 1 else 0) + 1)%nat in
          if malloc_ok then
            match strcpy size path with
            | None => None
            | Some copied =>
                let room := (size - outlen)%nat in
                let slash := if need_trailing then "/" else EmptyString in
                match
                  strcpy (room - CString.strlen slash) file_name
                with
                | None => None
                | Some file =>
                    let result := copied +:+ slash +:+ file in
                    Some (Some result, result)
                end
            end
          else Some (None, path)
      end
  end.

(** *** Numbers printed with [%d] *)

Definition INT_MIN : Z := - 2147483648.

(** A value converted to [int]: reduced modulo [2^32] into the range of
    [int]. *)
Definition to_int (n : Z) : Z := (n + 2147483648) mod 4294967296 - 2147483648.

(** The decimal digit of [d], for [0 <= d < 10]. *)
Definition digit (d : Z) : ascii := ascii_of_nat (48 + Z.to_nat d).

(** The decimal digits of [n >= 0], most significant first; [fuel] bounds
    their number. *)
Fixpoint decimal_digits (fuel : nat) (n : Z) : string :=
  match fuel with
  | O => EmptyString
  | S fuel' =>
      (if n <? 10 then EmptyString else decimal_digits fuel' (n / 10))
      +:+ String (digit (n mod 10)) EmptyString
  end.

(** The text [%d] prints for an [int]: at most ten digits after the sign. *)
Definition sprintf_d (n : Z) : string :=
  if n <? 0 then "-" +:+ decimal_digits 10 (- n) else decimal_digits 10 n.

(** [get_pid_as_string] and [get_uid_as_string] print an [int] with
    [sprintf] into the caller's buffer of [room] bytes. [getuid()] returns an
    unsigned 32 bit value that the assignment converts to [int]. *)
Definition get_pid_as_string (room : nat) (getpid : Z) : option string :=
  strcpy room (sprintf_d getpid).

Definition get_uid_as_string (room : nat) (getuid : Z) : option string :=
  strcpy room (sprintf_d (to_int getuid)).

(** The sizes of [pidstr] in [add_process_properties_data] and of [s] in
    [register_abrt_event]. *)
Definition pidstr_size : nat := 20.
Definition uid_s_size : nat := 11.

(** *** The log file *)

(** [sizeof(DEFAULT_LOG_FILE_NAME_FORMAT) + sizeof(int) * 3]. *)
Definition _AUX_LOG_FILE_NAME_MAX_LENGTH : Z := 20 + 4 * 3.

(** [get_default_log_file_name]. [log_file_name] is the static buffer, [None]
    while [initialized] is 0. The result is the pointer returned (NULL when
    [snprintf] reports an error on the first call) and the buffer afterwards. *)
Definition get_default_log_file_name (getpid : Z)
  (log_file_name : option string) : option string * option string :=
  match log_file_name with
  | Some name => (Some name, log_file_name)
  | None =>
      let '(buffer, written) :=
        snprintf _AUX_LOG_FILE_NAME_MAX_LENGTH
          ("abrt_checker_" +:+ sprintf_d getpid +:+ ".log") in
      (if written <? 0 then None else Some buffer, Some buffer)
  end.

(** [globalConfig.outputFileName]: the marker [DISABLED_LOG_OUTPUT], or a
    file name that may be NULL. *)
Inductive T_outputFileName :=
  | DISABLED_LOG_OUTPUT
  | output_file_name (fn : option string).

(** What [stat] says about the configured name. *)
Inductive T_stat :=
  | stat_ENOENT
  | stat_failed
  | stat_directory
  | stat_not_directory.

(** The globals [fout] (the name the open stream was opened with) and
    [globalConfig.outputFileName], and the static buffer of
    [get_default_log_file_name]. *)
Record T_logState := {
  fout : option string;
  outputFileName : T_outputFileName;
  default_log_file_name : option string;
}.

(** The end of [get_log_file]: [fopen] on the name that was built. When
    [globalConfig.outputFileName] is not NULL, [fn] points to it (it is the
    configured name or the path [append_file_to_path] stored there), so after
    a failed [fopen] the message prints the block that was just freed: the
    result is [None] for that undefined behaviour. With the default name
    [free] is given NULL and [fn] is the static buffer. *)
Definition open_log_file (fopen_ok : bool) (fn : option string)
  (st : T_logState) : option (T_logState * option string) :=
  match fn with
  | None => Some (st, None)
  | Some fn =>
      if fopen_ok
      then Some ({| fout := Some fn;
                    outputFileName := outputFileName st;
                    default_log_file_name := default_log_file_name st |},
                 Some fn)
      else
        match outputFileName st with
        | output_file_name (Some _) => None
        | _ =>
            Some ({| fout := None;
                     outputFileName := DISABLED_LOG_OUTPUT;
                     default_log_file_name := default_log_file_name st |},
                  None)
        end
  end.

(** [get_log_file]: the state afterwards and the stream returned. The outer
    [None] is undefined behaviour: that of [append_file_to_path] on an empty
    path, and the use of the freed name after a failed [fopen]. *)
Definition get_log_file (getpid : Z) (stat : T_stat) (malloc_ok fopen_ok : bool)
  (st : T_logState) : option (T_logState * option string) :=
  match fout st, outputFileName st with
  | None, output_file_name (Some fn) =>
      match stat with
      | stat_failed => Some (st, None)
      | stat_directory =>
          let '(default, buffer) :=
            get_default_log_file_name getpid (default_log_file_name st) in
          '(fn, path) ← append_file_to_path malloc_ok fn default;
          open_log_file fopen_ok fn
            {| fout := None;
               outputFileName := output_file_name (Some path);
               default_log_file_name := buffer |}
      | stat_ENOENT | stat_not_directory =>
          open_log_file fopen_ok (Some fn) st
      end
  | None, output_file_name None =>
      let '(fn, buffer) :=
        get_default_log_file_name getpid (default_log_file_name st) in
      open_log_file fopen_ok fn
        {| fout := None;
           outputFileName := output_file_name None;
           default_log_file_name := buffer |}
  | _, _ => Some (st, fout st)
  end.

(** *** The thread name *)

Definition DEFAULT_THREAD_NAME : string := "DefaultThread".
Definition MAX_THREAD_NAME_LENGTH : Z := 40.

(** [get_thread_name]: the string left in [tname], a buffer of [room]
    bytes. [info_name] is the name [GetThreadInfo] stored, NULL when the
    thread has none or the call failed. *)
Definition get_thread_name (info_name : option string) (room : nat)
  (maxlen : Z) : option string :=
  tname ← strcpy room DEFAULT_THREAD_NAME;
  match info_name with
  | None => Some tname
  | Some name =>
      let len := to_int (Z.of_nat (CString.strlen name)) in
      if len <? maxlen then strcpy room name else Some tname
  end.

(** *** Blocks of bytes *)

(** Storing [bytes] at [offset] in a block of memory; [None] when they do
    not all lie inside the block. *)
Definition block_write (offset : nat) (bytes : list ascii)
  (block : list ascii) : option (list ascii) :=
  if (offset + length bytes <=? length block)%nat
  then Some (take offset block ++ bytes
             ++ drop (offset + length bytes) block)
  else None.

(** The C string at the start of a block; [None] when no NUL ends it inside
    the block. *)
Fixpoint block_string (block : list ascii) : option string :=
  match block with
  | [] => None
  | a :: rest =>
      if Ascii.eqb a Ascii.zero then Some EmptyString
      else String a <$> block_string rest
  end.

(** *** Additional information *)

(** The text the format ["%s = %s\n"] produces for a pair. *)
Definition pair_text (iter : T_infoPair) : string :=
  label iter +:+ " = " +:+ data iter +:+ String "010"%char EmptyString.

(** The second loop of [info_pair_vector_to_string]: every pair is printed
    at [pointer] with the same bound [to_write]. *)
Fixpoint write_pairs (to_write : Z) (pairs : list T_infoPair)
  (pointer : nat) (contents : list ascii) : option (list ascii) :=
  match pairs with
  | [] => Some contents
  | iter :: pairs =>
      let '(stored, written) := snprintf to_write (pair_text iter) in
      contents ←
        block_write pointer
          (String.list_ascii_of_string stored ++ [Ascii.zero]) contents;
      if written <? 0 then Some contents
      else write_pairs to_write pairs (pointer + Z.to_nat written) contents
  end.

(** The first loop of [info_pair_vector_to_string]. *)
Definition required_bytes (pairs : list T_infoPair) : nat :=
  foldl (λ required_bytes iter,
           required_bytes + (CString.strlen (label iter)
                             + CString.strlen (data iter) + 4))%nat
    0%nat pairs.

(** [info_pair_vector_to_string]. [pairs] are the entries before the empty
    one that ends the vector; [malloc] gives the block for a size, with
    whatever it holds. The outer [None] is undefined behaviour: a write
    outside the block, or a result without its NUL. *)
Definition info_pair_vector_to_string
  (malloc : nat → option (list ascii)) (pairs : option (list T_infoPair))
  : option (option string) :=
  match pairs with
  | None => Some None
  | Some pairs =>
      if (required_bytes pairs =? 0)%nat then Some None
      else
        match malloc (required_bytes pairs) with
        | None => Some None
        | Some contents =>
            contents ←
              write_pairs (Z.of_nat (required_bytes pairs)) pairs 0%nat
                contents;
            Some <$> block_string contents
        end
  end.

(** *** The command line *)

(** [get_command]. [cmdline] holds the bytes of [/proc/<pid>/cmdline]. The
    outer [None] is undefined behaviour: nothing was read and the loop runs
    over the whole address space, [strlen] leaves the bytes that were read,
    or [calloc] fails and [strcpy] writes to NULL. *)
Definition get_command (fopen_ok : bool) (cmdline : list ascii)
  (calloc_ok : bool) : option (option string) :=
  if fopen_ok then
    let buffer := take 2048 cmdline in
    match length buffer with
    | O => None
    | S last =>
        let buffer :=
          ((λ c, if Ascii.eqb c Ascii.zero then " "%char else c)
             <$> take last buffer) ++ drop last buffer in
        out ← block_string buffer;
        if calloc_ok then Some (Some out) else None
    end
  else Some None.

(** *** Line numbers *)

Record jvmtiLineNumberEntry := {
  start_location : Z;
  line_number : Z;
}.

(** The loop of [get_line_number] over neighbouring entries: the line it
    assigns before [break], if it does. *)
Fixpoint line_number_loop (location : Z)
  (location_table : list jvmtiLineNumberEntry) : option Z :=
  match location_table with
  | entry1 :: (entry2 :: _) as rest =>
      if (start_location entry1 <=? location)
         && (location <? start_location entry2)
      then Some (line_number entry1)
      else line_number_loop location rest
  | _ => None
  end.

(** [get_line_number]. [GetLineNumberTable] is the table the JVM returns,
    [None] when it returns an error. The outer [None] is undefined
    behaviour: after an error the local [location_table], which was never
    assigned, is compared with NULL and handed to [Deallocate]; with an
    empty table the entry before it is read. *)
Definition get_line_number (method : option jmethodID) (location : Z)
  (GetLineNumberTable : option (list jvmtiLineNumberEntry)) : option Z :=
  match method with
  | None => Some (-1)
  | Some _ =>
      if location =? 0 then Some (-1)
      else
        match GetLineNumberTable with
        | None => None
        | Some location_table =>
            let line := default 0 (line_number_loop location location_table) in
            entry ← last location_table;
            Some (if start_location entry <=? location
                  then line_number entry else line)
        end
  end.

(** *** Stack traces *)

Definition MAX_STACK_TRACE_STRING_LENGTH : Z := 10000.
Definition CAUSED_STACK_TRACE_HEADER : string := "Caused by: ".
Definition TO_EXTERNAL_FORM_METHOD_NAME : string := "toExternalForm".
Definition GET_PATH_METHOD_NAME : string := "getPath".

(** A value converted to [unsigned] (32 bits) and to [size_t] (64 bits). *)
Definition to_unsigned (n : Z) : Z := n mod 4294967296.
Definition to_size_t (n : Z) : Z := n mod 18446744073709551616.

Definition newline : ascii := "010"%char.

(** [snprintf(block + str, size, ...)] on the text [rendered]: the block
    afterwards and the returned [int]. Nothing is stored when [size] is 0. *)
Definition snprintf_at (block : list ascii) (str : nat) (size : Z)
  (rendered : string) : option (list ascii * Z) :=
  let '(stored, written) := snprintf size rendered in
  if size =? 0 then Some (block, written)
  else
    block ←
      block_write str (String.list_ascii_of_string stored ++ [Ascii.zero])
        block;
    Some (block, written).

(** [strlen] of the bytes of a block from its start. *)
Fixpoint block_strlen (block : list ascii) : option nat :=
  match block with
  | [] => None
  | a :: rest =>
      if Ascii.eqb a Ascii.zero then Some 0%nat else S <$> block_strlen rest
  end.

(** [strcat(block + str, src)]. *)
Definition strcat_at (block : list ascii) (str : nat) (src : string)
  : option (list ascii) :=
  len ← block_strlen (drop str block);
  block_write (str + len) (String.list_ascii_of_string src ++ [Ascii.zero])
    block.

(** What the JVM answers while one [StackTraceElement] is printed. A [None]
    is a call that raised an exception or returned NULL.
    [GetLoadedClasses] pairs every loaded class with the result of its
    [getName], and is [None] when the classes or [Class.getName] cannot be
    obtained. *)
Record T_stackFrame := {
  getClassName : option string;
  FindClass : string → option jobject;
  GetLoadedClasses : option (list (jobject * option string));
  updated_class_name_malloc_ok : bool;
  get_path_to_class : jobject → string → string → option string;
  frame_toString : option string;
}.

(** The loop of [find_class_in_loaded_class]: the first class whose name is
    the searched one. *)
Fixpoint find_loaded_class (loaded_classes : list (jobject * option string))
  (searched_class_name : string) : option jobject :=
  match loaded_classes with
  | [] => None
  | (cls, class_name) :: loaded_classes =>
      match class_name with
      | Some class_name_cstr =>
          if String.eqb searched_class_name class_name_cstr then Some cls
          else find_loaded_class loaded_classes searched_class_name
      | None => find_loaded_class loaded_classes searched_class_name
      end
  end.

Definition find_class_in_loaded_class
  (GetLoadedClasses : option (list (jobject * option string)))
  (searched_class_name : string) : option jobject :=
  loaded_classes ← GetLoadedClasses;
  find_loaded_class loaded_classes searched_class_name.

(** The first part of [print_stack_trace_element]: [class_location] and what
    [*class_fs_path] holds afterwards. [class_fs_path] is [None] for a NULL
    pointer. *)
Definition class_location_of_frame (stack_frame : T_stackFrame)
  (class_name_of_frame_method : string)
  (class_fs_path : option (option string))
  : option string * option (option string) :=
  let cls_name_str :=
    string_replace class_name_of_frame_method "."%char "/"%char in
  let '(cls_name_str, class_of_frame_method) :=
    match FindClass stack_frame cls_name_str with
    | Some cls => (cls_name_str, Some cls)
    | None =>
        let cls_name_str := string_replace cls_name_str "/"%char "."%char in
        (string_replace cls_name_str "."%char "/"%char,
         find_class_in_loaded_class (GetLoadedClasses stack_frame)
           cls_name_str)
    end in
  match class_of_frame_method with
  | None => (None, class_fs_path)
  | Some cls =>
      match
        create_updated_class_name (updated_class_name_malloc_ok stack_frame)
          cls_name_str
      with
      | None => (None, class_fs_path)
      | Some updated_cls_name_str =>
          (get_path_to_class stack_frame cls updated_cls_name_str
             TO_EXTERNAL_FORM_METHOD_NAME,
           match class_fs_path with
           | None => None
           | Some _ =>
               Some (extract_fs_path
                       <$> get_path_to_class stack_frame cls
                             updated_cls_name_str GET_PATH_METHOD_NAME)
           end)
      end
  end.

(** The text the format ["\tat %s [%s]\n"] produces. *)
Definition frame_text (str : string) (class_location : option string)
  : string :=
  String "009"%char
    ("at " +:+ str +:+ " [" +:+ default "unknown" class_location
     +:+ String "]"%char (String newline EmptyString)).

(** [wrote > 0 && stack_trace_str[wrote-1] != '\n']; [None] when the byte
    read is outside the block. *)
Definition printed_partially (block : list ascii) (stack_trace_str : nat)
  (wrote : Z) : option bool :=
  if 0 <? wrote then
    last ← block !! (stack_trace_str + Z.to_nat (wrote - 1))%nat;
    Some (negb (Ascii.eqb last newline))
  else Some false.

(** [print_stack_trace_element]: the block, the returned [int] and
    [*class_fs_path] afterwards. [stack_trace_str] is an offset into the
    block. The outer [None] is undefined behaviour: an access outside the
    block. *)
Definition print_stack_trace_element (stack_frame : T_stackFrame)
  (block : list ascii) (stack_trace_str : nat) (max_length : Z)
  (class_fs_path : option (option string))
  : option (list ascii * Z * option (option string)) :=
  match getClassName stack_frame with
  | None => Some (block, -1, class_fs_path)
  | Some class_name_of_frame_method =>
      let '(class_location, class_fs_path) :=
        class_location_of_frame stack_frame class_name_of_frame_method
          class_fs_path in
      match frame_toString stack_frame with
      | None => Some (block, -1, class_fs_path)
      | Some str =>
          '(block, wrote) ←
            snprintf_at block stack_trace_str max_length
              (frame_text str class_location);
          partially ← printed_partially block stack_trace_str wrote;
          if partially : bool then
            block ← block_write stack_trace_str [Ascii.zero] block;
            Some (block, 0, class_fs_path)
          else Some (block, wrote, class_fs_path)
      end
  end.

(** What the JVM answers about a [Throwable]. *)
Record T_throwable := {
  throwable_toString : option string;
  getStackTrace : option (list T_stackFrame);
}.

(** The loop of [print_exception_stack_trace] over the remaining frames.
    [executable] is [None] for a NULL pointer and is handed on for the last
    frame only. *)
Fixpoint print_frames (frames : list T_stackFrame) (block : list ascii)
  (stack_trace_str : nat) (max_stack_trace_lenght : Z) (wrote : Z)
  (executable : option (option string))
  : option (list ascii * Z * option (option string)) :=
  match frames with
  | [] => Some (block, wrote, executable)
  | frame_element :: frames =>
      let is_last := match frames with [] => true | _ :: _ => false end in
      '(block, frame_wrote, class_fs_path) ←
        print_stack_trace_element frame_element block
          (stack_trace_str + Z.to_nat wrote)
          (to_unsigned (to_size_t (max_stack_trace_lenght - wrote)))
          (if is_last then executable else None);
      let executable := if is_last then class_fs_path else executable in
      if frame_wrote <=? 0 then Some (block, wrote, executable)
      else
        print_frames frames block stack_trace_str max_stack_trace_lenght
          (wrote + frame_wrote) executable
  end.

(** [print_exception_stack_trace]. *)
Definition print_exception_stack_trace (exception : T_throwable)
  (block : list ascii) (stack_trace_str : nat) (max_stack_trace_lenght : Z)
  (executable : option (option string))
  : option (list ascii * Z * option (option string)) :=
  match throwable_toString exception with
  | None => Some (block, -1, executable)
  | Some str =>
      '(block, wrote) ←
        snprintf_at block stack_trace_str max_stack_trace_lenght
          (str +:+ String newline EmptyString);
      if wrote <? 0 then Some (block, -1, executable)
      else
        partially ← printed_partially block stack_trace_str wrote;
        if partially : bool then
          block ← block_write stack_trace_str [Ascii.zero] block;
          Some (block, 0, executable)
        else
          match getStackTrace exception with
          | None => Some (block, wrote, executable)
          | Some frames =>
              print_frames frames block stack_trace_str
                max_stack_trace_lenght wrote executable
          end
  end.

(** The loop of [generate_thread_stack_trace] over the causes. It ends the
    same way when [getCause] returns NULL and when it raises an exception,
    so [causes] are the causes obtained until then. *)
Fixpoint print_causes (causes : list T_throwable) (block : list ascii)
  (wrote : Z) : option (list ascii) :=
  match causes with
  | [] => Some block
  | cause :: causes =>
      if to_size_t (MAX_STACK_TRACE_STRING_LENGTH - wrote)
         <? Z.of_nat (CString.strlen CAUSED_STACK_TRACE_HEADER)
      then Some block
      else
        block ← strcat_at block (Z.to_nat wrote) CAUSED_STACK_TRACE_HEADER;
        let wrote :=
          wrote + Z.of_nat (CString.strlen CAUSED_STACK_TRACE_HEADER) in
        '(block, cause_wrote, _) ←
          print_exception_stack_trace cause block (Z.to_nat wrote)
            (to_size_t (MAX_STACK_TRACE_STRING_LENGTH - wrote)) None;
        if cause_wrote <=? 0 then Some block
        else print_causes causes block (wrote + cause_wrote)
  end.

(** The text the format ["Exception in thread \"%s\" "] produces. *)
Definition thread_text (thread_name : string) : string :=
  "Exception in thread " +:+ String "034"%char thread_name
  +:+ String "034"%char " ".

(** [generate_thread_stack_trace]: the string returned and [*executable]
    afterwards. [getCause_ok] says that the class of the exception and its
    [getCause] method can be obtained. The outer [None] is undefined
    behaviour: an access outside the block of
    [MAX_STACK_TRACE_STRING_LENGTH + 1] bytes, or a pointer formed outside
    of it. *)
Definition generate_thread_stack_trace (calloc_ok : bool)
  (thread_name : string) (exception : T_throwable) (getCause_ok : bool)
  (causes : list T_throwable) (executable : option (option string))
  : option (option string * option (option string)) :=
  if calloc_ok then
    let block :=
      replicate (Z.to_nat (MAX_STACK_TRACE_STRING_LENGTH + 1)) Ascii.zero in
    '(block, wrote) ←
      snprintf_at block 0 MAX_STACK_TRACE_STRING_LENGTH
        (thread_text thread_name);
    if (wrote <? 0) || (Z.of_nat (length block) <? wrote) then None
    else
      '(block, exception_wrote, executable) ←
        print_exception_stack_trace exception block (Z.to_nat wrote)
          (to_size_t (MAX_STACK_TRACE_STRING_LENGTH - wrote)) executable;
      if exception_wrote <=? 0 then Some (None, executable)
      else
        let wrote := wrote + exception_wrote in
        block ←
          (if getCause_ok then print_causes causes block wrote
           else Some block);
        stack_trace_str ← block_string block;
        Some (Some stack_trace_str, executable)
  else Some (None, executable).

(** *** The main class *)

Definition UNKNOWN_CLASS_NAME : string := "*unknown*".

(** [PATH_MAX] of [linux/limits.h]. *)
Definition PATH_MAX : nat := 4096.

(** [strchrnul(s, c)] followed by [*space = 0]: the bytes before the first
    [c]. *)
Fixpoint before_char (c : ascii) (s : string) : string :=
  match s with
  | EmptyString => EmptyString
  | String a s' =>
      if Ascii.eqb a c then EmptyString else String a (before_char c s')
  end.

(** [strlen(class_name) > 4] and the four bytes before [space] are
    [".jar"]. *)
Definition names_a_jar (class_name : string) : bool :=
  (4 <? CString.strlen class_name)%nat
  && String.eqb (string_drop (CString.strlen class_name - 4) class_name)
       ".jar".

(** What the system and the JVM answer to [get_main_class]. *)
Record T_mainClassLookup := {
  realpath : option string;
  main_strdup_ok : bool;
  main_FindClass : string → option jobject;
  main_malloc_ok : bool;
  main_get_path_to_class : jobject → string → string → option string;
}.

(** [get_main_class]. [sun_java_command] is the system property, [None]
    when it cannot be read or is NULL. The outer [None] is undefined
    behaviour: a name of more than [PATH_MAX] bytes is copied without its
    NUL and then duplicated. *)
Definition get_main_class (sun_java_command : option string)
  (jvm : T_mainClassLookup) : option (option string) :=
  match sun_java_command with
  | None => Some (Some UNKNOWN_CLASS_NAME)
  | Some class_name =>
      let class_name := before_char " "%char class_name in
      if names_a_jar class_name then
        jarpath ←
          match realpath jvm with
          | Some jarpath => Some jarpath
          | None =>
              if (CString.strlen class_name <=? PATH_MAX)%nat
              then Some class_name else None
          end;
        Some (if main_strdup_ok jvm then Some jarpath else None)
      else
        let class_name := string_replace class_name "."%char "/"%char in
        match main_FindClass jvm class_name with
        | None => Some (Some UNKNOWN_CLASS_NAME)
        | Some cls =>
            match create_updated_class_name (main_malloc_ok jvm) class_name with
            | None => Some None
            | Some upd_class_name =>
                match
                  main_get_path_to_class jvm cls upd_class_name
                    GET_PATH_METHOD_NAME
                with
                | None => Some (Some UNKNOWN_CLASS_NAME)
                | Some path_to_class => Some (Some (extract_fs_path path_to_class))
                end
            end
        end
  end.

(** *** Debug methods *)

(** What the JVM answers while one debug method is called.
    [debug_string] is [None] when the call raised an exception, and
    [Some None] when the method returned [null]. *)
Record T_debugMethodCall := {
  debug_strdup_ok : bool;
  debug_loaded_classes : option (list (jobject * option string));
  debug_GetStaticMethodID : jobject → string → option jmethodID;
  debug_string : option (option string);
  debug_data_strdup_ok : bool;
}.

(** The second loop of [collect_additional_debug_information]: the entries
    stored before the one that ends the vector. [None] is undefined
    behaviour: the characters of a [null] string are read. *)
Fixpoint collect_debug_information
  (fqdnDebugMethods : list (string * T_debugMethodCall))
  : option (list T_infoPair) :=
  match fqdnDebugMethods with
  | [] => Some []
  | (iter, jvm) :: fqdnDebugMethods =>
      if debug_strdup_ok jvm then
        match CString.strrchr iter "."%char with
        | None => collect_debug_information fqdnDebugMethods
        | Some debug_method_name =>
            let debug_class_name_str :=
              CString.take
                (CString.strlen iter - CString.strlen debug_method_name) iter in
            let debug_method_name := CString.next debug_method_name in
            match
              find_class_in_loaded_class (debug_loaded_classes jvm)
                debug_class_name_str
            with
            | None => collect_debug_information fqdnDebugMethods
            | Some debug_class =>
                match
                  debug_GetStaticMethodID jvm debug_class debug_method_name
                with
                | None => collect_debug_information fqdnDebugMethods
                | Some _ =>
                    match debug_string jvm with
                    | None => collect_debug_information fqdnDebugMethods
                    | Some None => None
                    | Some (Some tmp) =>
                        if debug_data_strdup_ok jvm then
                          info ← collect_debug_information fqdnDebugMethods;
                          Some ({| label := iter; data := tmp |} :: info)
                        else Some []
                    end
                end
            end
        end
      else Some []
  end.

(** [collect_additional_debug_information]. The configured methods come
    with the answers of the JVM for each; [None] is a NULL
    [globalConfig.fqdnDebugMethods]. *)
Definition collect_additional_debug_information
  (fqdnDebugMethods : option (list (string * T_debugMethodCall)))
  (malloc_ok : bool) : option (option (list T_infoPair)) :=
  match fqdnDebugMethods with
  | None => Some None
  | Some fqdnDebugMethods =>
      if malloc_ok then Some <$> collect_debug_information fqdnDebugMethods
      else Some None
  end.

(** ** Notions used in the statements *)

(** The names left after a list of shortenings, and the suffix the two
    namespace shortenings keep. *)
Definition after_last_dot (name : string) : string :=
  match CString.strrchr name "."%char with
  | Some ptr => CString.next ptr
  | None => name
  end.

Definition apply_shrink (names : string * string) (how : T_shrink)
  : string * string :=
  let '(exception_name, class_name) := names in
  match how with
  | DropClassNamespace => (exception_name, after_last_dot class_name)
  | DropExceptionNamespace => (after_last_dot exception_name, class_name)
  | DropClassName => (exception_name, EmptyString)
  end.

(** The shortenings that still apply to a pair of names, in the order in
    which the chain of [if]s tries them. *)
Definition remaining_shrinks (exception_name class_name : string)
  : list T_shrink :=
  if CString.strrchr class_name "."%char is Some _
  then [DropClassNamespace; DropExceptionNamespace; DropClassName]
  else if CString.strrchr exception_name "."%char is Some _
  then [DropExceptionNamespace; DropClassName]
  else if CString.nonempty class_name
  then [DropClassName]
  else [].

(** The message as the specification words it. While the rendered text
    does not fit the budget, the next strategy of the list is applied and
    the text is rendered again, until it fits or the list is exhausted; the
    message is the text cut to the buffer. *)
Definition reason_fits (prefix method : string) (names : string * string)
  : bool :=
  Z.of_nat (CString.strlen (render_reason prefix names.1 names.2 method))
  <? MAX_REASON_MESSAGE_STRING_LENGTH.

Fixpoint shrink_in_order (prefix method : string) (strategies : list T_shrink)
  (names : string * string) : string * string :=
  match strategies with
  | [] => names
  | how :: strategies' =>
      if reason_fits prefix method names then names
      else shrink_in_order prefix method strategies' (apply_shrink names how)
  end.

Definition reason_message_in_priority_order
  (prefix exception_name class_name method : string) : string :=
  let names :=
    shrink_in_order prefix method
      [DropClassNamespace; DropExceptionNamespace; DropClassName]
      (exception_name, class_name) in
  CString.take 254 (render_reason prefix names.1 names.2 method).

(** The slots of a buffer in the order in which they will be overwritten:
    oldest first. *)
Definition oldest_first (buffer : T_jthrowableCircularBuf)
  : list (option jobject) :=
  drop (next_slot buffer) (mem buffer) ++ take (next_slot buffer) (mem buffer).

(** The shape every buffer made by [jthrowable_circular_buf_new] keeps. *)
Definition buf_wf (buffer : T_jthrowableCircularBuf) : Prop :=
  length (mem buffer) = capacity buffer
  ∧ (next_slot buffer < capacity buffer)%nat.

(** The [K] most recent of the objects [pushed], oldest first. *)
Definition most_recent (K : nat) (pushed : list jobject) : list jobject :=
  drop (length pushed - K) pushed.

(** The type name is one of [globalConfig.reportedCaughExceptionTypes]. *)
Definition allow_listed (globalConfig : T_configuration) (name : string)
  : Prop :=
  ∃ types,
    reportedCaughExceptionTypes globalConfig = Some types ∧ name ∈ types.

(** The object is found in the buffer of thread [tid]. *)
Definition in_window (tid : Z) (object : jobject) (st : T_state) : bool :=
  match threadMap st !! tid with
  | Some buffer =>
      bool_decide (is_Some (jthrowable_circular_buf_find buffer object))
  | None => false
  end.

(** The reports of a list that are about the object. *)
Definition reports_of (object : jobject) (out : list T_emit) : list T_emit :=
  filter (λ report, emit_exception report = object) out.



(** ** Notions used in the further properties of the callbacks *)

(** The states the engine can be in: those a sequence of events leads to
    from the state [Agent_OnLoad] leaves. *)
Definition reachable
  (globalConfig : T_configuration) (processProperties : T_processProperties)
  (st : T_state) : Prop :=
  ∃ events out,
    run globalConfig processProperties events initial_state = Some (st, out).

(** What holds of every pending report: the message, when there is one,
    is phrased as uncaught and fits the reason buffer. Nothing holds of the
    name of the exception type, which is NULL when it could not be read. *)
Definition pending_wf (rpt : T_exceptionReport) : Prop :=
  ∀ msg,
    message rpt = Some msg →
    String.prefix "Uncaught" msg = true ∧ (CString.strlen msg < 255)%nat.

(** What holds of every state: each buffer has the capacity
    [create_exception_buf_for_thread] gives it and a valid next slot, and
    each pending report satisfies [pending_wf]. *)
Definition state_wf (st : T_state) : Prop :=
  (∀ tid buffer,
     threadMap st !! tid = Some buffer →
     buf_wf buffer ∧ capacity buffer = REPORTED_EXCEPTION_STACK_CAPACITY)
  ∧ (∀ tid rpt, uncaughtExceptionMap st !! tid = Some rpt → pending_wf rpt).

(** What holds of every report: its message is phrased as caught or as
    uncaught and is shorter than 255 bytes. *)
Definition report_wf (report : T_emit) : Prop :=
  (String.prefix "Caught" (emit_message report) = true
   ∨ String.prefix "Uncaught" (emit_message report) = true)
  ∧ (CString.strlen (emit_message report) < 255)%nat.

(** The event is the end of a thread. *)
Definition ends_thread (event : T_event) : bool :=
  match event with
  | OnThreadEnd _ => true
  | _ => false
  end.

(** A buffer for the thread can be allocated during the event, should the
    callback create one; [callback_on_thread_end] allocates nothing. *)
Definition buffer_allocation_ok (event : T_event) : Prop :=
  match event with
  | OnException ev => ee_buf_alloc_ok ev = true
  | OnExceptionCatch ev => ce_buf_alloc_ok ev = true
  | OnThreadEnd _ => True
  end.

(** ** Notions used in the further properties of the helpers *)

(** The bytes of [/proc/<pid>/cmdline]: every argument with its NUL. *)
Definition cmdline_of (args : list string) : list ascii :=
  concat ((λ arg, String.list_ascii_of_string arg ++ [Ascii.zero]) <$> args).

(** The arguments separated by single spaces. *)
Fixpoint joined (args : list string) : string :=
  match args with
  | [] => EmptyString
  | [arg] => arg
  | arg :: args => arg +:+ " " +:+ joined args
  end.

(** The line of the last entry of the table that starts at or before
    [location]; 0 when there is none. *)
Definition line_at (location : Z)
  (location_table : list jvmtiLineNumberEntry) : Z :=
  from_option line_number 0
    (last (filter (λ entry, start_location entry ≤ location) location_table)).

(** A line number table in the order of the code. *)
Definition table_sorted (location_table : list jvmtiLineNumberEntry) : Prop :=
  StronglySorted (λ entry1 entry2,
                    start_location entry1 ≤ start_location entry2)
    location_table.

(** [malloc] returns blocks of the size asked for. *)
Definition malloc_sized (malloc : nat → option (list ascii)) : Prop :=
  ∀ size block, malloc size = Some block → length block = size.

(** ** Notions used in the properties of the stack trace *)

(** The line of a frame in the trace. *)
Definition frame_line (stack_frame : T_stackFrame) : string :=
  frame_text (default EmptyString (frame_toString stack_frame))
    (fst (class_location_of_frame stack_frame
            (default EmptyString (getClassName stack_frame)) None)).

Fixpoint concat_strings (lines : list string) : string :=
  match lines with
  | [] => EmptyString
  | line :: lines => line +:+ concat_strings lines
  end.

(** The lines of a throwable: its description and its frames. *)
Definition throwable_lines (exception : T_throwable) : string :=
  default EmptyString (throwable_toString exception)
  +:+ String newline EmptyString
  +:+ concat_strings (frame_line <$> default [] (getStackTrace exception)).

(** The whole trace in the form of [Throwable.printStackTrace]. *)
Definition trace_text (thread_name : string) (exception : T_throwable)
  (causes : list T_throwable) : string :=
  thread_text thread_name +:+ throwable_lines exception
  +:+ concat_strings
        ((λ cause, CAUSED_STACK_TRACE_HEADER +:+ throwable_lines cause)
           <$> causes).

(** The trace up to some frames of the exception. *)
Definition trace_prefix (thread_name str : string)
  (frames : list T_stackFrame) : string :=
  thread_text thread_name +:+ str +:+ String newline EmptyString
  +:+ concat_strings (frame_line <$> frames).

(** The JVM can describe the frame, the throwable. *)
Definition frame_printable (stack_frame : T_stackFrame) : Prop :=
  is_Some (getClassName stack_frame) ∧ is_Some (frame_toString stack_frame).

Definition throwable_printable (exception : T_throwable) : Prop :=
  is_Some (throwable_toString exception)
  ∧ ∃ frames, getStackTrace exception = Some frames
              ∧ Forall frame_printable frames.

(** The block of the stack trace holds [text] and is zero behind it, as
    [calloc] left it. *)
Definition block_holds (text : string) (block : list ascii) : Prop :=
  (CString.strlen text < Z.to_nat (MAX_STACK_TRACE_STRING_LENGTH + 1))%nat
  ∧ block
    = String.list_ascii_of_string text
      ++ replicate (Z.to_nat (MAX_STACK_TRACE_STRING_LENGTH + 1)
                    - CString.strlen text) Ascii.zero.

(** ** Sample configurations and events *)

(** The default configuration reports no caught exception. *)
Definition default_config : T_configuration :=
  {| reportedCaughExceptionTypes := None |}.

Definition config_reporting (types : list string) : T_configuration :=
  {| reportedCaughExceptionTypes := Some types |}.

Definition sample_process : T_processProperties :=
  {| main_class := Some "com.example.Main" |}.

(** An exception of type [type_name] thrown in [com.example.Main.run] on
    thread [tid], every call into the JVM succeeding. *)
Definition sample_exception
  (tid : Z) (object : jobject) (catch_method : option jmethodID)
  (type_name : string) : T_exceptionEvent :=
  {| ee_tid := Some tid;
     ee_exception_object := object;
     ee_catch_method := catch_method;
     ee_exception_type_name := Some type_name;
     ee_method_name := Some "run";
     ee_declaring_class_ok := true;
     ee_class_signature := Some "Lcom/example/Main;";
     ee_calloc_ok := true;
     ee_stack_trace := Some "Exception in thread main";
     ee_executable := None;
     ee_additional_info := None;
     ee_malloc_ok := true;
     ee_buf_alloc_ok := true |}.

(** An exception thrown at top level on thread [tid] for which
    [GetMethodName] fails. *)
Definition sample_exception_without_method (tid : Z) (object : jobject)
  : T_exceptionEvent :=
  {| ee_tid := Some tid;
     ee_exception_object := object;
     ee_catch_method := None;
     ee_exception_type_name := Some "java.lang.Error";
     ee_method_name := None;
     ee_declaring_class_ok := true;
     ee_class_signature := Some "Lcom/example/Main;";
     ee_calloc_ok := true;
     ee_stack_trace := Some "Exception in thread main";
     ee_executable := None;
     ee_additional_info := None;
     ee_malloc_ok := true;
     ee_buf_alloc_ok := true |}.


(** The exception [object] caught in [com.example.Handler.handle] on thread
    [tid], every call into the JVM succeeding. *)
Definition sample_catch (tid : Z) (object : jobject) : T_exceptionCatchEvent :=
  {| ce_tid := Some tid;
     ce_exception_object := object;
     ce_object_class_ok := true;
     ce_equal_method_ok := true;
     ce_equals_call_ok := true;
     ce_exception_type_name := None;
     ce_method_name := Some "handle";
     ce_declaring_class_ok := true;
     ce_class_signature := Some "Lcom/example/Handler;";
     ce_calloc_ok := true;
     ce_buf_alloc_ok := true |}.

(** A string of [n] bytes. *)
Fixpoint string_of_length (n : nat) : string :=
  match n with
  | O => EmptyString
  | S n => String "a"%char (string_of_length n)
  end.

(** A frame of a class that was loaded from a jar. *)
Definition sample_frame (description : string) : T_stackFrame :=
  {| getClassName := Some "com.example.Main";
     FindClass := λ _, Some 1%N;
     GetLoadedClasses := None;
     updated_class_name_malloc_ok := true;
     get_path_to_class :=
       λ _ _ stringize_method_name,
         if String.eqb stringize_method_name GET_PATH_METHOD_NAME
         then Some "file:/opt/app.jar!/com/example/Main.class"
         else Some "jar:file:/opt/app.jar!/com/example/Main.class";
     frame_toString := Some description |}.

Definition sample_throwable (description : string)
  (frames : list T_stackFrame) : T_throwable :=
  {| throwable_toString := Some description; getStackTrace := Some frames |}.

(** A JVM that runs a class from [/opt/app.jar]. *)
Definition sample_main_class_lookup : T_mainClassLookup :=
  {| realpath := Some "/opt/app.jar";
     main_strdup_ok := true;
     main_FindClass := λ _, Some 7%N;
     main_malloc_ok := true;
     main_get_path_to_class :=
       λ _ _ _, Some "file:/opt/app.jar!/com/example/Main.class" |}.

(** A debug method of a loaded class that returns [text]. *)
Definition sample_debug_method (class_name : string) (text : option string)
  : T_debugMethodCall :=
  {| debug_strdup_ok := true;
     debug_loaded_classes := Some [(3%N, None); (4%N, Some class_name)];
     debug_GetStaticMethodID := λ _ _, Some 9%N;
     debug_string := Some text;
     debug_data_strdup_ok := true |}.

(** * Properties *)

(** ** Sanity checks of the embedding *)

Example format_class_name_dot :
  format_class_name "Ljava/lang/String;" "."%char = "java.lang.String.".
Proof. reflexivity. Qed.

Example format_class_name_nul :
  format_class_name "Ljava/lang/String;" Ascii.zero = "java.lang.String".
Proof. reflexivity. Qed.

Example format_reason_short :
  format_exception_reason_message true false
    "java.lang.RuntimeException" "com.example.Main" "run"
  = Some "Uncaught exception java.lang.RuntimeException in method com.example.Main.run()".
Proof. reflexivity. Qed.

(** The throw of an [Error] at top level on thread 7 followed by the end of
    the thread. *)
Example scenario_uncaught :
  run default_config sample_process
    [ OnException (sample_exception 7 1%N None "java.lang.Error");
      OnThreadEnd {| te_tid := Some 7 |} ] initial_state
  = Some (initial_state,
          [ {| emit_exception := 1%N;
               emit_executable := Some "com.example.Main";
               emit_message :=
                 "Uncaught exception java.lang.Error in method com.example.Main.run()";
               emit_stacktrace := Some "Exception in thread main";
               emit_additional_info := None |} ]).
Proof. by vm_compute. Qed.

(** The same throw caught in [Handler.handle], when [Error] is to be reported
    even if caught: the buffer of thread 7 then holds the exception. *)
Example scenario_caught :
  run (config_reporting ["java.lang.Error"]) sample_process
    [ OnException (sample_exception 7 1%N None "java.lang.Error");
      OnExceptionCatch (sample_catch 7 1%N) ] initial_state
  = Some ({| threadMap :=
               {[ 7 := {| capacity := 5; next_slot := 1;
                          mem := [Some 1%N; None; None; None; None] |} ]};
             uncaughtExceptionMap := ∅ |},
          [ {| emit_exception := 1%N;
               emit_executable := Some "com.example.Main";
               emit_message :=
                 "Caught exception java.lang.Error in method com.example.Handler.handle()";
               emit_stacktrace := Some "Exception in thread main";
               emit_additional_info := None |} ]).
Proof. by vm_compute. Qed.

Example sprintf_d_samples :
  sprintf_d 0 = "0"
  ∧ sprintf_d 4242 = "4242"
  ∧ sprintf_d INT_MAX = "2147483647"
  ∧ sprintf_d INT_MIN = "-2147483648".
Proof. by vm_compute. Qed.

Example get_log_file_default :
  get_log_file 4242 stat_ENOENT true true
    {| fout := None;
       outputFileName := output_file_name None;
       default_log_file_name := None |}
  = Some ({| fout := Some "abrt_checker_4242.log";
             outputFileName := output_file_name None;
             default_log_file_name := Some "abrt_checker_4242.log" |},
          Some "abrt_checker_4242.log").
Proof. by vm_compute. Qed.

Example get_command_samples :
  get_command true [] true = None
  ∧ get_command true (String.list_ascii_of_string "java") true = None
  ∧ get_command false (cmdline_of ["java"]) true = Some None.
Proof. by vm_compute. Qed.

(** A top-level throw whose type name cannot be read, in a class whose
    name has no dot and is too long for the text to fit: the formatter
    searches the NULL name. With a short class name the text is built. *)
Example format_exception_reason_message_of_NULL :
  format_exception_reason_message_of true false None
    (string_of_length 300) "run" = None
  ∧ format_exception_reason_message_of true false None
      ("com.example." +:+ string_of_length 300) "run" = None
  ∧ format_exception_reason_message_of true false None
      "com.example.Main" "run"
    = Some (Some "Uncaught exception (null) in method com.example.Main.run()").
Proof. by vm_compute. Qed.

Example get_line_number_empty_table :
  get_line_number (Some 1%N) 7 (Some []) = None.
Proof. done. Qed.

Example get_line_number_without_table :
  get_line_number (Some 1%N) 7 None = None.
Proof. done. Qed.

(** ** C strings *)

Section CStringFacts.

Import CString.

Lemma strlen_take n s : (strlen (take n s) ≤ n)%nat.
Proof.
  unfold strlen. revert s.
  induction n as [|n IH]; intros [|a s]; simpl; try lia.
  specialize (IH s). lia.
Qed.

(** A pointer returned by [strrchr] points at the searched byte, inside the
    string, and the byte does not occur after it. *)
Lemma strrchr_Some s c ptr :
  strrchr s c = Some ptr →
  ∃ rest, ptr = String c rest
          ∧ (strlen rest < strlen s)%nat
          ∧ strrchr rest c = None.
Proof.
  revert ptr. induction s as [|a s IH]; intros ptr; simpl; [done|].
  destruct (strrchr s c) as [q|] eqn:Hs.
  - intros [= <-]. destruct (IH q eq_refl) as (rest & -> & Hlen & Hno).
    exists rest. unfold strlen in *. simpl. split_and!; [done|lia|done].
  - destruct (Ascii.eqb a c) eqn:Hac; [|done].
    intros [= <-]. apply Ascii.eqb_eq in Hac as ->.
    exists s. unfold strlen. simpl. split_and!; [done|lia|done].
Qed.

Lemma strrchr_next_shorter s c ptr :
  strrchr s c = Some ptr → (strlen (next ptr) < strlen s)%nat.
Proof. intros (rest & -> & ? & _)%strrchr_Some. done. Qed.

Lemma strrchr_next_None s c ptr :
  strrchr s c = Some ptr → strrchr (next ptr) c = None.
Proof. intros (rest & -> & _ & ?)%strrchr_Some. done. Qed.

Lemma strlen_append s1 s2 :
  strlen (s1 +:+ s2) = (strlen s1 + strlen s2)%nat.
Proof.
  unfold strlen. induction s1 as [|a s1 IH]; simpl; [done|]. by rewrite IH.
Qed.

Lemma nonempty_strlen s : nonempty s = true → (0 < strlen s)%nat.
Proof. destruct s; [done|]. unfold strlen. simpl. lia. Qed.

End CStringFacts.

(** ** The reason formatter *)

Section ReasonFormatter.

Import CString.

(** What one iteration does, branch by branch. *)
Lemma reason_iteration_Continue prefix exception_name class_name method
      how exception_name' class_name' :
  reason_iteration prefix exception_name class_name method
    = Continue how exception_name' class_name' →
  MAX_REASON_MESSAGE_STRING_LENGTH
    ≤ Z.of_nat (strlen (render_reason prefix exception_name class_name method))
  ∧ match how with
    | DropClassNamespace =>
        exception_name' = exception_name
        ∧ ∃ ptr, strrchr class_name "."%char = Some ptr ∧ class_name' = next ptr
    | DropExceptionNamespace =>
        class_name' = class_name
        ∧ strrchr class_name "."%char = None
        ∧ ∃ ptr, strrchr exception_name "."%char = Some ptr
                 ∧ exception_name' = next ptr
    | DropClassName =>
        exception_name' = exception_name
        ∧ class_name' = EmptyString
        ∧ strrchr class_name "."%char = None
        ∧ strrchr exception_name "."%char = None
        ∧ nonempty class_name = true
    end.
Proof.
  unfold reason_iteration, snprintf.
  set (len := Z.of_nat (strlen _)).
  destruct (len >? INT_MAX) eqn:Hmax; [done|].
  destruct (len <=? 0) eqn:H0; [done|].
  destruct (len >=? MAX_REASON_MESSAGE_STRING_LENGTH) eqn:Hlen; [|done].
  assert (MAX_REASON_MESSAGE_STRING_LENGTH ≤ len) by lia.
  destruct (strrchr class_name "."%char) as [ptr|] eqn:Hc.
  { intros [= <- <- <-]. naive_solver. }
  destruct (strrchr exception_name "."%char) as [ptr|] eqn:He.
  { intros [= <- <- <-]. naive_solver. }
  destruct (nonempty class_name) eqn:Hne; [|done].
  intros [= <- <- <-]. naive_solver.
Qed.

Lemma reason_iteration_Return prefix exception_name class_name method msg :
  reason_iteration prefix exception_name class_name method
    = Return (Some msg) →
  msg = take 254 (render_reason prefix exception_name class_name method).
Proof.
  unfold reason_iteration, snprintf.
  repeat case_match; naive_solver.
Qed.

(** A [continue] applies [apply_shrink]. *)
Lemma reason_iteration_apply_shrink prefix exception_name class_name method
      how exception_name' class_name' :
  reason_iteration prefix exception_name class_name method
    = Continue how exception_name' class_name' →
  apply_shrink (exception_name, class_name) how
    = (exception_name', class_name').
Proof.
  intros [_ H]%reason_iteration_Continue. unfold apply_shrink, after_last_dot.
  destruct how.
  - destruct H as (-> & ptr & -> & ->). done.
  - destruct H as (-> & _ & ptr & -> & ->). done.
  - destruct H as (-> & -> & _). done.
Qed.

(** Every [continue] makes [strlen exception_name + strlen class_name]
    smaller: one name gets shorter and the other one stays. *)
Lemma reason_iteration_decreases prefix exception_name class_name method
      how exception_name' class_name' :
  reason_iteration prefix exception_name class_name method
    = Continue how exception_name' class_name' →
  (exception_name' = exception_name
   ∧ (strlen class_name' < strlen class_name)%nat)
  ∨ (class_name' = class_name
     ∧ (strlen exception_name' < strlen exception_name)%nat).
Proof.
  intros [_ H]%reason_iteration_Continue. destruct how.
  - destruct H as (-> & ptr & Hptr & ->). left.
    eauto using strrchr_next_shorter.
  - destruct H as (-> & _ & ptr & Hptr & ->). right.
    eauto using strrchr_next_shorter.
  - destruct H as (-> & -> & _ & _ & Hne). left.
    split; [done|]. by apply nonempty_strlen.
Qed.

(** Closes [sublist] goals between explicit lists. *)
Local Ltac sublist_done :=
  repeat first [apply sublist_nil_l | apply sublist_skip | apply sublist_cons].

(** The shortening applied is the first one that still applies, and what
    applies afterwards comes later in the order. *)
Lemma reason_iteration_remaining prefix exception_name class_name method
      how exception_name' class_name' :
  reason_iteration prefix exception_name class_name method
    = Continue how exception_name' class_name' →
  ∃ rest,
    remaining_shrinks exception_name class_name = how :: rest
    ∧ sublist (remaining_shrinks exception_name' class_name') rest.
Proof.
  intros [_ H]%reason_iteration_Continue. unfold remaining_shrinks.
  destruct how.
  - destruct H as (-> & ptr & Hptr & ->).
    rewrite Hptr, (strrchr_next_None _ _ _ Hptr).
    eexists; split; [done|]. repeat case_match; sublist_done.
  - destruct H as (-> & Hc & ptr & Hptr & ->).
    rewrite Hc, Hptr, (strrchr_next_None _ _ _ Hptr).
    eexists; split; [done|]. repeat case_match; sublist_done.
  - destruct H as (-> & -> & Hc & He & Hne).
    rewrite Hc, He, Hne. simpl. eexists; split; [done|]. sublist_done.
Qed.

Lemma remaining_shrinks_all exception_name class_name :
  sublist (remaining_shrinks exception_name class_name)
    [DropClassNamespace; DropExceptionNamespace; DropClassName].
Proof. unfold remaining_shrinks. repeat case_match; sublist_done. Qed.

Lemma reason_shrinks_remaining fuel prefix exception_name class_name method :
  sublist (reason_shrinks fuel prefix exception_name class_name method)
    (remaining_shrinks exception_name class_name).
Proof.
  revert exception_name class_name.
  induction fuel as [|fuel IH]; intros e c; simpl; [apply sublist_nil_l|].
  destruct (reason_iteration prefix e c method) as [how e' c'|] eqn:Hit;
    [|apply sublist_nil_l].
  destruct (reason_iteration_remaining _ _ _ _ _ _ _ Hit) as (rest & -> & Hsub).
  apply sublist_skip. etrans; [apply IH|done].
Qed.

(** More fuel does not change a result. *)
Lemma reason_loop_mono fuel fuel' prefix exception_name class_name method r :
  reason_loop fuel prefix exception_name class_name method = Some r →
  (fuel ≤ fuel')%nat →
  reason_loop fuel' prefix exception_name class_name method = Some r.
Proof.
  revert fuel' exception_name class_name.
  induction fuel as [|fuel IH]; intros [|fuel'] e c; simpl; try done; try lia.
  destruct (reason_iteration prefix e c method); [|done].
  intros ??. apply IH; [done|lia].
Qed.

(** The loop returns as soon as the fuel exceeds the total length of the
    two names ... *)
Lemma reason_loop_returns_by_length
      fuel prefix exception_name class_name method :
  (strlen exception_name + strlen class_name < fuel)%nat →
  is_Some (reason_loop fuel prefix exception_name class_name method).
Proof.
  revert exception_name class_name.
  induction fuel as [|fuel IH]; intros e c Hlt; simpl; [lia|].
  destruct (reason_iteration prefix e c method) as [how e' c'|] eqn:Hit;
    [|done].
  apply IH.
  destruct (reason_iteration_decreases _ _ _ _ _ _ _ Hit) as [[-> ?]|[-> ?]];
    lia.
Qed.

(** ... and as soon as it exceeds the number of shortenings that apply. *)
Lemma reason_loop_returns_by_shrinks
      fuel prefix exception_name class_name method :
  (length (remaining_shrinks exception_name class_name) < fuel)%nat →
  is_Some (reason_loop fuel prefix exception_name class_name method).
Proof.
  revert exception_name class_name.
  induction fuel as [|fuel IH]; intros e c Hlt; simpl; [lia|].
  destruct (reason_iteration prefix e c method) as [how e' c'|] eqn:Hit;
    [|done].
  apply IH.
  destruct (reason_iteration_remaining _ _ _ _ _ _ _ Hit)
    as (rest & Heq & Hsub%sublist_length).
  rewrite Heq in Hlt. simpl in Hlt. lia.
Qed.

Lemma remaining_shrinks_length exception_name class_name :
  (length (remaining_shrinks exception_name class_name) ≤ 3)%nat.
Proof.
  apply (sublist_length _ _ (remaining_shrinks_all exception_name class_name)).
Qed.

(** The list of shortenings is complete once the loop has returned. *)
Lemma reason_shrinks_mono
      fuel fuel' prefix exception_name class_name method :
  is_Some (reason_loop fuel prefix exception_name class_name method) →
  (fuel ≤ fuel')%nat →
  reason_shrinks fuel' prefix exception_name class_name method
  = reason_shrinks fuel prefix exception_name class_name method.
Proof.
  revert fuel' exception_name class_name.
  induction fuel as [|fuel IH]; intros [|fuel'] e c; simpl;
    try (by intros []); try lia.
  destruct (reason_iteration prefix e c method); [|done].
  intros ??. f_equal. apply IH; [done|lia].
Qed.

(** A returned message is the bounded copy of the text rendered from the
    names the shortenings leave. *)
Lemma reason_loop_message fuel prefix exception_name class_name method msg :
  reason_loop fuel prefix exception_name class_name method = Some (Some msg) →
  ∃ exception_name' class_name',
    foldl apply_shrink (exception_name, class_name)
      (reason_shrinks fuel prefix exception_name class_name method)
    = (exception_name', class_name')
    ∧ msg = take 254 (render_reason prefix exception_name' class_name' method).
Proof.
  revert exception_name class_name.
  induction fuel as [|fuel IH]; intros e c; [done|].
  cbn [reason_loop reason_shrinks].
  destruct (reason_iteration prefix e c method) as [how e' c'|] eqn:Hit.
  - intros Hloop. cbn [foldl].
    rewrite (reason_iteration_apply_shrink _ _ _ _ _ _ _ Hit).
    by apply IH.
  - intros [= ->]. exists e, c. split; [done|].
    by apply reason_iteration_Return.
Qed.

(** The length of the rendered text. *)
Lemma strlen_render_reason prefix exception_name class_name method :
  strlen (render_reason prefix exception_name class_name method)
  = (strlen prefix + 11 + strlen exception_name + 11 + strlen class_name
     + (if nonempty class_name then 1 else 0) + strlen method + 2)%nat.
Proof.
  unfold render_reason. rewrite !strlen_append.
  destruct (nonempty class_name); unfold strlen; simpl; lia.
Qed.

(** A shortening never makes the rendered text longer. *)
Lemma reason_iteration_render_shorter
      prefix exception_name class_name method
      how exception_name' class_name' :
  reason_iteration prefix exception_name class_name method
    = Continue how exception_name' class_name' →
  (strlen (render_reason prefix exception_name' class_name' method)
   ≤ strlen (render_reason prefix exception_name class_name method))%nat.
Proof.
  intros Hit. rewrite !strlen_render_reason.
  destruct (reason_iteration_decreases _ _ _ _ _ _ _ Hit) as [[-> ?]|[-> ?]];
    [|lia].
  destruct (nonempty class_name), (nonempty class_name'); lia.
Qed.

Lemma reason_iteration_Return_None prefix exception_name class_name method :
  reason_iteration prefix exception_name class_name method = Return None
  ↔ INT_MAX
    < Z.of_nat (strlen (render_reason prefix exception_name class_name method)).
Proof.
  unfold reason_iteration, snprintf.
  pose proof (strlen_render_reason prefix exception_name class_name method).
  set (len := Z.of_nat (strlen _)).
  assert (0 < len) as Hpos by lia.
  destruct (len >? INT_MAX) eqn:Hmax.
  { simpl. split; [lia|done]. }
  destruct (len <=? 0) eqn:Hle; [lia|].
  split; [|lia]. repeat case_match; done.
Qed.

(** The loop returns NULL only for a text whose length does not fit an
    [int], and then at the first iteration. *)
Lemma reason_loop_None fuel prefix exception_name class_name method :
  reason_loop fuel prefix exception_name class_name method = Some None →
  INT_MAX
  < Z.of_nat (strlen (render_reason prefix exception_name class_name method)).
Proof.
  revert exception_name class_name.
  induction fuel as [|fuel IH]; intros e c; simpl; [done|].
  destruct (reason_iteration prefix e c method) as [how e' c'|[msg|]] eqn:Hit;
    [|done|].
  - intros Hloop%IH.
    pose proof (reason_iteration_render_shorter _ _ _ _ _ _ _ Hit). lia.
  - intros _. by apply reason_iteration_Return_None.
Qed.

Lemma reason_loop_overflow fuel prefix exception_name class_name method :
  INT_MAX
  < Z.of_nat (strlen (render_reason prefix exception_name class_name method)) →
  reason_loop (S fuel) prefix exception_name class_name method = Some None.
Proof. intros Hlen%reason_iteration_Return_None. simpl. by rewrite Hlen. Qed.

(** [format_exception_reason_message] in terms of the loop: the bound on
    the iterations built into the definition is never reached. *)
Lemma format_exception_reason_message_loop
      caught exception_fqdn class_fqdn method :
  reason_loop (reason_fuel exception_fqdn class_fqdn)
    (reason_prefix caught)
    exception_fqdn class_fqdn method
  = Some (format_exception_reason_message true caught
            exception_fqdn class_fqdn method).
Proof.
  unfold format_exception_reason_message. cbn [negb].
  destruct (reason_loop_returns_by_length
              (reason_fuel exception_fqdn class_fqdn)
              (reason_prefix caught)
              exception_fqdn class_fqdn method) as [r ->]; [|done].
  unfold reason_fuel. lia.
Qed.

Lemma format_exception_reason_message_None
      calloc_ok caught exception_fqdn class_fqdn method :
  format_exception_reason_message calloc_ok caught
    exception_fqdn class_fqdn method = None
  ↔ calloc_ok = false
    ∨ INT_MAX
      < Z.of_nat (strlen (render_reason (reason_prefix caught)
                            exception_fqdn class_fqdn method)).
Proof.
  destruct calloc_ok; [|by split; [left|]].
  pose proof (format_exception_reason_message_loop
                caught exception_fqdn class_fqdn method) as Hloop.
  split.
  - intros Hnone. right. rewrite Hnone in Hloop. by eapply reason_loop_None.
  - intros [?|Hlen]; [done|].
    unfold reason_fuel in Hloop. rewrite reason_loop_overflow in Hloop by done.
    by injection Hloop.
Qed.

Lemma format_exception_reason_message_bounded
      calloc_ok caught exception_fqdn class_fqdn method msg :
  format_exception_reason_message calloc_ok caught
    exception_fqdn class_fqdn method = Some msg →
  (strlen msg ≤ 254)%nat.
Proof.
  destruct calloc_ok; [|done]. intros Hmsg.
  pose proof (format_exception_reason_message_loop
                caught exception_fqdn class_fqdn method) as Hloop.
  rewrite Hmsg in Hloop.
  apply reason_loop_message in Hloop as (e' & c' & _ & ->).
  apply strlen_take.
Qed.

(** An iteration returns the text when it fits, or when no shortening is
    left; otherwise it continues with the first shortening left. *)
Lemma reason_iteration_fits prefix exception_name class_name method :
  Z.of_nat (strlen (render_reason prefix exception_name class_name method))
  < MAX_REASON_MESSAGE_STRING_LENGTH →
  reason_iteration prefix exception_name class_name method
  = Return (Some (take 254
                    (render_reason prefix exception_name class_name method))).
Proof.
  unfold reason_iteration, snprintf, MAX_REASON_MESSAGE_STRING_LENGTH.
  pose proof (strlen_render_reason prefix exception_name class_name method).
  set (len := Z.of_nat (strlen _)). intros Hlen.
  destruct (len >? INT_MAX) eqn:Hmax; [unfold INT_MAX in Hmax; lia|].
  destruct (len <=? 0) eqn:H0; [lia|].
  destruct (len >=? 255) eqn:Hge; [lia|done].
Qed.

Lemma reason_iteration_exhausted prefix exception_name class_name method :
  Z.of_nat (strlen (render_reason prefix exception_name class_name method))
  ≤ INT_MAX →
  remaining_shrinks exception_name class_name = [] →
  reason_iteration prefix exception_name class_name method
  = Return (Some (take 254
                    (render_reason prefix exception_name class_name method))).
Proof.
  unfold reason_iteration, snprintf, remaining_shrinks.
  pose proof (strlen_render_reason prefix exception_name class_name method).
  set (len := Z.of_nat (strlen _)). intros Hlen.
  destruct (len >? INT_MAX) eqn:Hmax; [lia|].
  destruct (len <=? 0) eqn:H0; [lia|].
  destruct (strrchr class_name "."%char); [done|].
  destruct (strrchr exception_name "."%char); [done|].
  destruct (nonempty class_name); [done|].
  by destruct (len >=? MAX_REASON_MESSAGE_STRING_LENGTH).
Qed.

Lemma reason_iteration_over_budget
      prefix exception_name class_name method how rest :
  MAX_REASON_MESSAGE_STRING_LENGTH
  ≤ Z.of_nat (strlen (render_reason prefix exception_name class_name method))
  ≤ INT_MAX →
  remaining_shrinks exception_name class_name = how :: rest →
  reason_iteration prefix exception_name class_name method
  = Continue how (apply_shrink (exception_name, class_name) how).1
      (apply_shrink (exception_name, class_name) how).2.
Proof.
  unfold reason_iteration, snprintf, remaining_shrinks, apply_shrink,
    after_last_dot, MAX_REASON_MESSAGE_STRING_LENGTH.
  set (len := Z.of_nat (strlen _)). intros Hlen.
  destruct (len >? INT_MAX) eqn:Hmax; [lia|].
  destruct (len <=? 0) eqn:H0; [lia|].
  destruct (len >=? 255) eqn:Hge; [|lia].
  destruct (strrchr class_name "."%char); [by intros [= <- _]|].
  destruct (strrchr exception_name "."%char); [by intros [= <- _]|].
  destruct (nonempty class_name); [by intros [= <- _]|done].
Qed.

(** A shortening that is not left changes nothing. *)
Lemma apply_shrink_not_remaining exception_name class_name how :
  how ∉ remaining_shrinks exception_name class_name →
  apply_shrink (exception_name, class_name) how
  = (exception_name, class_name).
Proof.
  unfold remaining_shrinks, apply_shrink, after_last_dot.
  destruct (strrchr class_name "."%char).
  { intros Hnot. destruct how; exfalso; apply Hnot; set_solver. }
  destruct (strrchr exception_name "."%char).
  { intros Hnot. destruct how; [done|exfalso; apply Hnot; set_solver..]. }
  destruct class_name; simpl; [by destruct how|].
  intros Hnot. destruct how; [done..|]. exfalso; apply Hnot; set_solver.
Qed.

(** The loop computes what the priority order prescribes, for any list of
    strategies without repetition that holds those still left. *)
Lemma reason_loop_in_order
      prefix method strategies fuel exception_name class_name :
  NoDup strategies →
  sublist (remaining_shrinks exception_name class_name) strategies →
  Z.of_nat (strlen (render_reason prefix exception_name class_name method))
  ≤ INT_MAX →
  (length strategies < fuel)%nat →
  let names :=
    shrink_in_order prefix method strategies (exception_name, class_name) in
  reason_loop fuel prefix exception_name class_name method
  = Some (Some (take 254 (render_reason prefix names.1 names.2 method))).
Proof.
  revert fuel exception_name class_name.
  induction strategies as [|how strategies IH];
    intros [|fuel] e c Hdup Hsub Hmax Hfuel; simpl in Hfuel; try lia.
  { apply sublist_nil_r in Hsub. simpl.
    by rewrite reason_iteration_exhausted. }
  cbn [shrink_in_order]. unfold reason_fits. cbn [fst snd].
  destruct (Z.ltb_spec
              (Z.of_nat (strlen (render_reason prefix e c method)))
              MAX_REASON_MESSAGE_STRING_LENGTH) as [Hfit|Hover].
  { simpl. by rewrite reason_iteration_fits. }
  apply NoDup_cons in Hdup as [Hnew Hdup].
  destruct (decide (how ∈ remaining_shrinks e c)) as [Hin|Hnot].
  - destruct (remaining_shrinks e c) as [|how' rest] eqn:Hrem;
      [by apply elem_of_nil in Hin|].
    assert (how' = how ∧ sublist rest strategies) as [-> Hrest].
    { apply sublist_cons_r in Hsub as [Hsub|(rest' & [= -> ->] & Hsub)];
        [|done].
      exfalso. apply Hnew. by eapply elem_of_sublist. }
    pose proof (reason_iteration_over_budget prefix e c method how rest
                  (conj Hover Hmax) Hrem) as Hit.
    cbn [reason_loop]. rewrite Hit.
    destruct (apply_shrink (e, c) how) as [e' c'] eqn:Hnames. cbn [fst snd].
    destruct (reason_iteration_remaining _ _ _ _ _ _ _ Hit)
      as (rest' & Hrem' & Hsub').
    rewrite Hrem in Hrem'. injection Hrem' as <-.
    pose proof (reason_iteration_render_shorter _ _ _ _ _ _ _ Hit).
    cbn [fst snd] in *. apply IH; [done|by etrans|lia|lia].
  - rewrite apply_shrink_not_remaining by done.
    assert (sublist (remaining_shrinks e c) strategies) as Hrest.
    { apply sublist_cons_r in Hsub as [Hsub|(rest' & Hrem & Hsub)];
        [done|].
      exfalso. apply Hnot. rewrite Hrem. left. }
    eapply reason_loop_mono; [apply (IH fuel)|]; [done..|lia|lia].
Qed.

(** Four iterations are always enough. *)
Lemma reason_loop_four fuel caught exception_fqdn class_fqdn method :
  (4 ≤ fuel)%nat →
  reason_loop fuel (reason_prefix caught) exception_fqdn class_fqdn method
  = Some (format_exception_reason_message true caught
            exception_fqdn class_fqdn method).
Proof.
  intros Hfuel.
  pose proof (format_exception_reason_message_loop
                caught exception_fqdn class_fqdn method) as Hloop.
  destruct (reason_loop_returns_by_shrinks 4 (reason_prefix caught)
              exception_fqdn class_fqdn method) as [r Hr].
  { pose proof (remaining_shrinks_length exception_fqdn class_fqdn). lia. }
  pose proof (reason_loop_mono _ (4 `max` reason_fuel exception_fqdn class_fqdn)
                _ _ _ _ _ Hr ltac:(lia)) as H4.
  pose proof (reason_loop_mono _ (4 `max` reason_fuel exception_fqdn class_fqdn)
                _ _ _ _ _ Hloop ltac:(lia)) as Hf.
  rewrite H4 in Hf. injection Hf as ->.
  by eapply reason_loop_mono.
Qed.

(** The function returns the message of the priority order. *)
Lemma format_exception_reason_message_in_order
      caught exception_fqdn class_fqdn method :
  Z.of_nat (strlen (render_reason (reason_prefix caught)
                      exception_fqdn class_fqdn method)) ≤ INT_MAX →
  format_exception_reason_message true caught exception_fqdn class_fqdn method
  = Some (reason_message_in_priority_order (reason_prefix caught)
            exception_fqdn class_fqdn method).
Proof.
  intros Hmax.
  pose proof (reason_loop_four 4 caught exception_fqdn class_fqdn method
                (le_n 4)) as Hloop.
  rewrite (reason_loop_in_order (reason_prefix caught) method
             [DropClassNamespace; DropExceptionNamespace; DropClassName])
    in Hloop; [|idtac..].
  - by injection Hloop.
  - apply (bool_decide_unpack _). by vm_compute.
  - apply remaining_shrinks_all.
  - done.
  - simpl. lia.
Qed.

End ReasonFormatter.

(** C3. For every caught flag, exception type name, declaring class name and
    method name, the message [format_exception_reason_message] builds is
    shorter than 255 bytes, so that with its terminating NUL it fills at most
    255 bytes. The shortenings the loop applies are, in this order and each
    at most once: drop the class namespace, drop the namespace of the
    exception type, drop the class name. An iteration shortens only when the
    text it has just rendered is 255 bytes or longer, it then takes the first
    shortening of that order that still applies, and the message returned is
    the bounded copy of the text rendered again from the names the
    shortenings leave. Conversely, an iteration whose text is 255 bytes or
    longer does shorten whenever a shortening still applies, and the
    function returns (when the buffer is allocated and the length fits an
    [int]) exactly the message of the priority order: render; while the text
    does not fit, apply the next of the three strategies and render again;
    cut the text to the buffer. *)
Theorem C3_reason_message_bounded_and_shrunk_in_order
  (calloc_ok caught : bool) (exception_fqdn class_fqdn method : string) :
  (∀ msg,
     format_exception_reason_message calloc_ok caught
       exception_fqdn class_fqdn method = Some msg →
     (CString.strlen msg < 255)%nat
     ∧ ∃ exception_name class_name,
         foldl apply_shrink (exception_fqdn, class_fqdn)
           (reason_shrinks (reason_fuel exception_fqdn class_fqdn)
              (reason_prefix caught) exception_fqdn class_fqdn method)
         = (exception_name, class_name)
         ∧ msg = CString.take 254
                   (render_reason (reason_prefix caught)
                      exception_name class_name method))
  ∧ sublist
      (reason_shrinks (reason_fuel exception_fqdn class_fqdn)
         (reason_prefix caught) exception_fqdn class_fqdn method)
      [DropClassNamespace; DropExceptionNamespace; DropClassName]
  ∧ (∀ fuel,
       (reason_fuel exception_fqdn class_fqdn ≤ fuel)%nat →
       reason_shrinks fuel (reason_prefix caught)
         exception_fqdn class_fqdn method
       = reason_shrinks (reason_fuel exception_fqdn class_fqdn)
           (reason_prefix caught) exception_fqdn class_fqdn method)
  ∧ (∀ exception_name class_name how exception_name' class_name',
       reason_iteration (reason_prefix caught)
         exception_name class_name method
       = Continue how exception_name' class_name' →
       MAX_REASON_MESSAGE_STRING_LENGTH
       ≤ Z.of_nat (CString.strlen
                     (render_reason (reason_prefix caught)
                        exception_name class_name method))
       ∧ head (remaining_shrinks exception_name class_name) = Some how
       ∧ apply_shrink (exception_name, class_name) how
         = (exception_name', class_name'))
  ∧ (∀ exception_name class_name how rest,
       MAX_REASON_MESSAGE_STRING_LENGTH
       ≤ Z.of_nat (CString.strlen
                     (render_reason (reason_prefix caught)
                        exception_name class_name method))
       ≤ INT_MAX →
       remaining_shrinks exception_name class_name = how :: rest →
       reason_iteration (reason_prefix caught)
         exception_name class_name method
       = Continue how
           (apply_shrink (exception_name, class_name) how).1
           (apply_shrink (exception_name, class_name) how).2)
  ∧ (calloc_ok = true →
     Z.of_nat (CString.strlen
                 (render_reason (reason_prefix caught)
                    exception_fqdn class_fqdn method)) ≤ INT_MAX →
     format_exception_reason_message calloc_ok caught
       exception_fqdn class_fqdn method
     = Some (reason_message_in_priority_order (reason_prefix caught)
               exception_fqdn class_fqdn method)).
Proof.
  pose proof (format_exception_reason_message_loop
                caught exception_fqdn class_fqdn method) as Hloop.
  split_and!.
  - intros msg Hmsg. split.
    + apply format_exception_reason_message_bounded in Hmsg. lia.
    + destruct calloc_ok; [|done]. rewrite Hmsg in Hloop.
      by apply reason_loop_message in Hloop.
  - etrans; [apply reason_shrinks_remaining|apply remaining_shrinks_all].
  - intros fuel Hfuel. apply reason_shrinks_mono; [|done]. by rewrite Hloop.
  - intros e c how e' c' Hit. split_and!.
    + by apply reason_iteration_Continue in Hit as [? _].
    + by apply reason_iteration_remaining in Hit as (rest & -> & _).
    + by apply reason_iteration_apply_shrink in Hit.
  - intros e c how rest. apply reason_iteration_over_budget.
  - intros ->. apply format_exception_reason_message_in_order.
Qed.

(** The three shortenings, one after the other, on names too long to fit:
    the first iteration drops the class namespace, and the message returned
    is the text without namespaces and class, cut to 254 bytes. *)
Lemma C3_reason_message_bounded_and_shrunk_in_order_witness :
  let long := "aaaaaaaaaaaaaaaaaaaaaaaaaaaaaaaaaaaaaaaaaaaaaaaaaaaaaaaaaaaaaaaaaaaaaaaaaaaaaaaaaaaaaaaaaaaaaaaaaaaaaaaaaaaaaaaaaaaaaaaaaaaaaaaaaaaaaaaaaaaaaaaaaaaaaaaaaaaaaaaaaaaaaaaaaaaaaaaaaaaaaaaaaaaaaaaaaaaaaaaaaaaaaaaaaaaaaaaaaaaaaaaaaaaaaaaaaaaaaaaaaaaaaaaaaa" in
  reason_shrinks (reason_fuel ("java.lang." +:+ long) ("com.example." +:+ long))
    (reason_prefix true) ("java.lang." +:+ long) ("com.example." +:+ long) "run"
  = [DropClassNamespace; DropExceptionNamespace; DropClassName]
  ∧ reason_iteration (reason_prefix true)
      ("java.lang." +:+ long) ("com.example." +:+ long) "run"
    = Continue DropClassNamespace ("java.lang." +:+ long) long
  ∧ format_exception_reason_message true true
      ("java.lang." +:+ long) ("com.example." +:+ long) "run"
    = Some (CString.take 254
              ("Caught exception " +:+ long +:+ " in method run()"))
  ∧ ∀ msg,
      format_exception_reason_message true true
        ("java.lang." +:+ long) ("com.example." +:+ long) "run" = Some msg →
      (CString.strlen msg < 255)%nat.
Proof.
  intros long.
  pose proof (C3_reason_message_bounded_and_shrunk_in_order
                true true ("java.lang." +:+ long)
                ("com.example." +:+ long) "run")
    as (Hbound & _ & _ & _ & Hshorten & Hmessage).
  split_and!.
  - by vm_compute.
  - rewrite (Hshorten ("java.lang." +:+ long) ("com.example." +:+ long)
               DropClassNamespace [DropExceptionNamespace; DropClassName]).
    + by vm_compute.
    + by vm_compute.
    + by vm_compute.
  - rewrite Hmessage.
    + by vm_compute.
    + reflexivity.
    + by vm_compute.
  - intros msg Hmsg. exact (proj1 (Hbound msg Hmsg)).
Defined.

(** The formatter does return NULL when it cannot allocate its buffer. *)
Lemma C4_counterexample_calloc_fails :
  ¬ ∃ msg,
      format_exception_reason_message false true
        "java.lang.Error" "com.example.Main" "run" = Some msg.
Proof. intros [msg Hmsg]. vm_compute in Hmsg. discriminate Hmsg. Qed.

(** C4, amended. Running out of shortenings is never a failure: whenever
    the allocation of the buffer succeeds and the length of the rendered text
    fits an [int], [format_exception_reason_message] returns a message, which
    is cut to the buffer when nothing more can be shortened. It returns NULL
    exactly when [calloc] fails or [snprintf] reports a length that is not
    positive. *)
Theorem C4_reason_message_returned_unless_calloc_or_snprintf_fails
  (calloc_ok caught : bool) (exception_fqdn class_fqdn method : string) :
  (format_exception_reason_message calloc_ok caught
     exception_fqdn class_fqdn method = None
   ↔ calloc_ok = false
     ∨ INT_MAX
       < Z.of_nat (CString.strlen
                     (render_reason (reason_prefix caught)
                        exception_fqdn class_fqdn method)))
  ∧ (calloc_ok = true →
     Z.of_nat (CString.strlen
                 (render_reason (reason_prefix caught)
                    exception_fqdn class_fqdn method)) ≤ INT_MAX →
     ∃ msg,
       format_exception_reason_message calloc_ok caught
         exception_fqdn class_fqdn method = Some msg
       ∧ (CString.strlen msg < 255)%nat).
Proof.
  pose proof (format_exception_reason_message_None
                calloc_ok caught exception_fqdn class_fqdn method) as Hnone.
  split; [done|]. intros Hcalloc Hlen.
  destruct (format_exception_reason_message calloc_ok caught
              exception_fqdn class_fqdn method) as [msg|] eqn:Hmsg.
  - exists msg. split; [done|].
    apply format_exception_reason_message_bounded in Hmsg. lia.
  - destruct (proj1 Hnone eq_refl) as [?|?]; [congruence|lia].
Qed.

(** A name without any namespace that is too long is not an error: the
    message is cut. *)
Lemma C4_reason_message_returned_unless_calloc_or_snprintf_fails_witness :
  let long := "aaaaaaaaaaaaaaaaaaaaaaaaaaaaaaaaaaaaaaaaaaaaaaaaaaaaaaaaaaaaaaaaaaaaaaaaaaaaaaaaaaaaaaaaaaaaaaaaaaaaaaaaaaaaaaaaaaaaaaaaaaaaaaaaaaaaaaaaaaaaaaaaaaaaaaaaaaaaaaaaaaaaaaaaaaaaaaaaaaaaaaaaaaaaaaaaaaaaaaaaaaaaaaaaaaaaaaaaaaaaaaaaaaaaaaaaaaaaaaaaaaaaaaaaaaaaaaaa" in
  ∃ msg,
    format_exception_reason_message true false long EmptyString "run" = Some msg
    ∧ (CString.strlen msg < 255)%nat.
Proof.
  intros long.
  apply (proj2 (C4_reason_message_returned_unless_calloc_or_snprintf_fails
                  true false long EmptyString "run")).
  - reflexivity.
  - vm_compute. discriminate.
Defined.

(** C10. The loop of [format_exception_reason_message] terminates on every
    input. An iteration that does not return leaves one of the two names as
    it is and makes the other one strictly shorter (the class name by cutting
    its namespace or by emptying it, the exception name by cutting its
    namespace). Hence the loop returns within as many iterations as the two
    names have bytes, plus one; it even returns within four. The result does
    not depend on the bound, and it is the result of the function. *)
Theorem C10_reason_loop_terminates
  (caught : bool) (exception_fqdn class_fqdn method : string) :
  (∀ exception_name class_name how exception_name' class_name',
     reason_iteration (reason_prefix caught)
       exception_name class_name method
     = Continue how exception_name' class_name' →
     (exception_name' = exception_name
      ∧ (CString.strlen class_name' < CString.strlen class_name)%nat)
     ∨ (class_name' = class_name
        ∧ (CString.strlen exception_name'
           < CString.strlen exception_name)%nat))
  ∧ (∀ fuel,
       (4 ≤ fuel)%nat ∨ (reason_fuel exception_fqdn class_fqdn ≤ fuel)%nat →
       reason_loop fuel (reason_prefix caught)
         exception_fqdn class_fqdn method
       = Some (format_exception_reason_message true caught
                 exception_fqdn class_fqdn method)).
Proof.
  split; [intros *; apply reason_iteration_decreases|].
  intros fuel [Hfuel|Hfuel]; [by apply reason_loop_four|].
  eapply reason_loop_mono; [apply format_exception_reason_message_loop|done].
Qed.

(** Names that need all three shortenings: the first iteration continues
    with a class name that is 12 bytes shorter, the loop continues three
    times, and the fourth iteration returns. *)
Lemma C10_reason_loop_terminates_witness :
  let long := "aaaaaaaaaaaaaaaaaaaaaaaaaaaaaaaaaaaaaaaaaaaaaaaaaaaaaaaaaaaaaaaaaaaaaaaaaaaaaaaaaaaaaaaaaaaaaaaaaaaaaaaaaaaaaaaaaaaaaaaaaaaaaaaaaaaaaaaaaaaaaaaaaaaaaaaaaaaaaaaaaaaaaaaaaaaaaaaaaaaaaaaaaaaaaaaaaaaaaaaaaaaaaaaaaaaaaaaaaaaaaaaaaaaaaaaaaaaaaaaaaaaaaaaaaa" in
  reason_iteration (reason_prefix true)
    ("java.lang." +:+ long) ("com.example." +:+ long) "run"
  = Continue DropClassNamespace ("java.lang." +:+ long) long
  ∧ (CString.strlen long < CString.strlen ("com.example." +:+ long))%nat
  ∧ reason_shrinks 4 (reason_prefix true)
      ("java.lang." +:+ long) ("com.example." +:+ long) "run"
    = [DropClassNamespace; DropExceptionNamespace; DropClassName]
  ∧ reason_loop 3 (reason_prefix true)
      ("java.lang." +:+ long) ("com.example." +:+ long) "run" = None
  ∧ reason_loop 4 (reason_prefix true)
      ("java.lang." +:+ long) ("com.example." +:+ long) "run"
    = Some (format_exception_reason_message true true
              ("java.lang." +:+ long) ("com.example." +:+ long) "run")
  ∧ is_Some (format_exception_reason_message true true
               ("java.lang." +:+ long) ("com.example." +:+ long) "run").
Proof.
  intros long.
  pose proof (C10_reason_loop_terminates true
                ("java.lang." +:+ long) ("com.example." +:+ long) "run")
    as [Hshorter Hreturns].
  assert (reason_iteration (reason_prefix true)
            ("java.lang." +:+ long) ("com.example." +:+ long) "run"
          = Continue DropClassNamespace ("java.lang." +:+ long) long) as Hit
    by by vm_compute.
  split_and!.
  - exact Hit.
  - destruct (Hshorter _ _ _ _ _ Hit) as [[_ Hlen]|[Hsame _]].
    + exact Hlen.
    + by vm_compute in Hsame.
  - by vm_compute.
  - by vm_compute.
  - exact (Hreturns 4%nat (or_introl (le_n 4))).
  - eexists. by vm_compute.
Defined.

(** ** The buffer of already reported exceptions *)

Section CircularBuf.

Implicit Types (buffer : T_jthrowableCircularBuf) (pushed : list jobject).

Lemma buf_new_wf K buffer :
  (0 < K)%nat →
  jthrowable_circular_buf_new true K = Some buffer →
  buf_wf buffer ∧ capacity buffer = K
  ∧ oldest_first buffer = replicate K None.
Proof.
  intros HK [= <-]. unfold buf_wf, oldest_first. simpl.
  rewrite length_replicate, app_nil_r. done.
Qed.

Lemma buf_push_wf buffer x :
  buf_wf buffer →
  buf_wf (jthrowable_circular_buf_push buffer x)
  ∧ capacity (jthrowable_circular_buf_push buffer x) = capacity buffer.
Proof.
  intros [Hlen Hnext]. unfold buf_wf. simpl.
  rewrite length_insert. split_and!; [done| |done].
  apply Nat.mod_upper_bound. lia.
Qed.

(** A push drops the oldest slot and appends the new object. *)
Lemma buf_push_oldest_first buffer x :
  buf_wf buffer →
  oldest_first (jthrowable_circular_buf_push buffer x)
  = tail (oldest_first buffer) ++ [Some x].
Proof.
  intros [Hlen Hnext]. unfold oldest_first. simpl.
  destruct (lookup_lt_is_Some_2 (mem buffer) (next_slot buffer))
    as [slot Hslot]; [lia|].
  rewrite (drop_S _ _ _ Hslot). simpl.
  destruct (decide (S (next_slot buffer) = capacity buffer)) as [Heq|Hne].
  - rewrite Heq, Nat.Div0.mod_same, drop_0, take_0, app_nil_r.
    rewrite (drop_ge (mem buffer)) by lia. simpl.
    rewrite <-(take_ge (<[_:=_]> (mem buffer)) (S (next_slot buffer)))
      by (rewrite length_insert; lia).
    rewrite (take_S_r _ _ (Some x))
      by (apply list_lookup_insert_eq; lia).
    by rewrite take_insert_ge by lia.
  - rewrite Nat.mod_small by lia.
    rewrite drop_insert_lt by lia.
    rewrite (take_S_r _ _ (Some x))
      by (apply list_lookup_insert_eq; lia).
    rewrite take_insert_ge by lia. by rewrite app_assoc.
Qed.

(** [find] looks at every slot, in whatever order. *)
Lemma buf_find_oldest_first buffer x :
  is_Some (jthrowable_circular_buf_find buffer x)
  ↔ Some x ∈ oldest_first buffer.
Proof.
  unfold jthrowable_circular_buf_find, oldest_first.
  rewrite elem_of_app, (comm (∨)), <-elem_of_app, take_drop.
  case_bool_decide; split; try done; by intros [].
Qed.

(** After [pushed] has been pushed onto a new buffer of capacity [K], the
    slots hold, oldest first, the last [K] objects of [pushed], preceded by
    the slots never written. *)
Lemma buf_pushes K buffer pushed :
  (0 < K)%nat →
  jthrowable_circular_buf_new true K = Some buffer →
  buf_wf (foldl jthrowable_circular_buf_push buffer pushed)
  ∧ capacity (foldl jthrowable_circular_buf_push buffer pushed) = K
  ∧ oldest_first (foldl jthrowable_circular_buf_push buffer pushed)
    = replicate (K - length pushed) None
      ++ (Some <$> most_recent K pushed).
Proof.
  unfold most_recent.
  intros HK Hnew.
  induction pushed as [|x pushed IH] using rev_ind.
  { destruct (buf_new_wf _ _ HK Hnew) as (? & ? & Hview). simpl.
    by rewrite Hview, Nat.sub_0_r, app_nil_r. }
  destruct IH as (Hwf & Hcap & Hview).
  rewrite foldl_snoc.
  destruct (buf_push_wf _ x Hwf) as [Hwf' Hcap'].
  split_and!; [done|congruence|].
  rewrite buf_push_oldest_first, Hview, length_app by done. simpl.
  destruct (decide (length pushed < K)%nat) as [Hlt|Hge].
  - replace (K - length pushed)%nat with (S (K - (length pushed + 1)))
      by lia.
    replace (length pushed + 1 - K)%nat with 0%nat by lia.
    replace (length pushed - K)%nat with 0%nat by lia.
    simpl. rewrite !drop_0, fmap_app, app_assoc. done.
  - replace (K - length pushed)%nat with 0%nat by lia.
    replace (K - (length pushed + 1))%nat with 0%nat by lia.
    replace (length pushed + 1 - K)%nat with (S (length pushed - K)) by lia.
    simpl.
    destruct (lookup_lt_is_Some_2 pushed (length pushed - K))
      as [y Hy]; [lia|].
    rewrite (drop_S _ _ _ Hy). simpl.
    rewrite drop_app_le by lia. by rewrite fmap_app.
Qed.

(** What [find] answers after a sequence of pushes. *)
Lemma buf_find_pushes K buffer pushed x :
  (0 < K)%nat →
  jthrowable_circular_buf_new true K = Some buffer →
  is_Some (jthrowable_circular_buf_find
             (foldl jthrowable_circular_buf_push buffer pushed) x)
  ↔ x ∈ most_recent K pushed.
Proof.
  intros HK Hnew.
  destruct (buf_pushes K buffer pushed HK Hnew) as (_ & _ & Hview).
  rewrite buf_find_oldest_first, Hview, elem_of_app, elem_of_replicate.
  rewrite list_elem_of_fmap. split.
  - intros [[? _]|(y & [= <-] & ?)]; done.
  - intros ?. right. by exists x.
Qed.

Lemma buf_find_Some buffer x :
  is_Some (jthrowable_circular_buf_find buffer x) →
  jthrowable_circular_buf_find buffer x = Some x.
Proof.
  unfold jthrowable_circular_buf_find. case_bool_decide; [done|by intros []].
Qed.

Lemma buf_find_None buffer x :
  ¬ is_Some (jthrowable_circular_buf_find buffer x) →
  jthrowable_circular_buf_find buffer x = None.
Proof. rewrite <-eq_None_not_Some. done. Qed.

End CircularBuf.

(** C9. The buffer of reported exceptions has the capacity it is created
    with, and [create_exception_buf_for_thread] creates it with capacity 5.
    After any sequence of pushes onto a new buffer of capacity [K > 0] the
    capacity is still [K] and [find] succeeds exactly on the [K] most recent
    objects pushed: once the buffer is full a push overwrites the oldest
    entry. With capacity 2 and three different objects [A], [B], [C] pushed in
    this order, [find] fails on [A] and succeeds on [B] and [C]. *)
Theorem C9_dedup_buffer_keeps_the_most_recent :
  (∀ tid map,
     ∃ buffer,
       create_exception_buf_for_thread true tid map
       = (Some buffer, jthread_map_push map tid buffer)
       ∧ capacity buffer = 5%nat
       ∧ REPORTED_EXCEPTION_STACK_CAPACITY = 5%nat)
  ∧ (∀ K pushed,
       (0 < K)%nat →
       ∃ buffer,
         jthrowable_circular_buf_new true K = Some buffer
         ∧ capacity (foldl jthrowable_circular_buf_push buffer pushed) = K
         ∧ length (mem (foldl jthrowable_circular_buf_push buffer pushed)) = K
         ∧ ∀ x,
             is_Some (jthrowable_circular_buf_find
                        (foldl jthrowable_circular_buf_push buffer pushed) x)
             ↔ x ∈ most_recent K pushed)
  ∧ (∀ A B C : jobject,
       A ≠ B → A ≠ C →
       ∃ buffer,
         jthrowable_circular_buf_new true 2 = Some buffer
         ∧ let pushed :=
             jthrowable_circular_buf_push
               (jthrowable_circular_buf_push
                  (jthrowable_circular_buf_push buffer A) B) C in
           jthrowable_circular_buf_find pushed A = None
           ∧ jthrowable_circular_buf_find pushed B = Some B
           ∧ jthrowable_circular_buf_find pushed C = Some C).
Proof.
  split_and!.
  - intros tid map. eexists. by split_and!.
  - intros K pushed HK. eexists. split; [done|].
    edestruct (buf_pushes K) as ([Hlen _] & Hcap & _); [done..|].
    split_and!; [done|by rewrite Hlen|].
    intros x. by apply buf_find_pushes.
  - intros A B C HAB HAC. eexists. split; [done|]. intros pushed.
    assert (∀ x, is_Some (jthrowable_circular_buf_find pushed x)
                 ↔ x ∈ most_recent 2 [A; B; C]) as Hfind.
    { intros x. by apply (buf_find_pushes 2 _ [A; B; C]); [lia|]. }
    split_and!.
    + apply buf_find_None. rewrite Hfind. cbn.
      rewrite !elem_of_cons, elem_of_nil. intros [?|[?|[]]]; congruence.
    + apply buf_find_Some, Hfind. cbn. rewrite !elem_of_cons. by left.
    + apply buf_find_Some, Hfind. cbn. rewrite !elem_of_cons. by right; left.
Qed.

(** The scenario of capacity 2 on three concrete objects. *)
Lemma C9_dedup_buffer_keeps_the_most_recent_witness :
  ∃ buffer,
    jthrowable_circular_buf_new true 2 = Some buffer
    ∧ let pushed :=
        jthrowable_circular_buf_push
          (jthrowable_circular_buf_push
             (jthrowable_circular_buf_push buffer 10%N) 20%N) 30%N in
      jthrowable_circular_buf_find pushed 10%N = None
      ∧ jthrowable_circular_buf_find pushed 20%N = Some 20%N
      ∧ jthrowable_circular_buf_find pushed 30%N = Some 30%N.
Proof.
  apply (proj2 (proj2 C9_dedup_buffer_keeps_the_most_recent) 10%N 20%N 30%N);
    discriminate.
Defined.

(** ** The callbacks *)

Section CallbackFacts.

Context (globalConfig : T_configuration).
Context (processProperties : T_processProperties).

Lemma existsb_eqb_elem_of (name : string) (types : list string) :
  existsb (String.eqb name) types = true ↔ name ∈ types.
Proof.
  rewrite existsb_exists, list_elem_of_In. split.
  - by intros (x & ? & ->%String.eqb_eq).
  - intros ?. exists name. by rewrite String.eqb_refl.
Qed.

(** [exception_is_intended_to_be_reported] on a type name already known. *)
Lemma intended_known looked_up name :
  ∃ intended,
    exception_is_intended_to_be_reported globalConfig looked_up (Some name)
    = (intended, Some name)
    ∧ (intended = true ↔ allow_listed globalConfig name).
Proof.
  unfold exception_is_intended_to_be_reported, allow_listed.
  destruct (reportedCaughExceptionTypes globalConfig) as [types|].
  - eexists. split; [done|]. rewrite existsb_eqb_elem_of. split.
    + intros ?. by exists types.
    + by intros (? & [= <-] & ?).
  - exists false. split; [done|]. split; [done|]. by intros (? & ? & _).
Qed.

(** ... and on one to be looked up: a positive answer leaves the name. *)
Lemma intended_looked_up looked_up type_name :
  exception_is_intended_to_be_reported globalConfig looked_up None
  = (true, type_name) →
  ∃ name,
    looked_up = Some name ∧ type_name = Some name
    ∧ allow_listed globalConfig name.
Proof.
  unfold exception_is_intended_to_be_reported, allow_listed.
  destruct (reportedCaughExceptionTypes globalConfig) as [types|]; [|done].
  destruct looked_up as [name|]; [|done].
  intros [= Hin%existsb_eqb_elem_of <-].
  exists name. split_and!; [done..|]. by exists types.
Qed.

Lemma not_intended_looked_up looked_up :
  (∀ name, looked_up = Some name → ¬ allow_listed globalConfig name) →
  (exception_is_intended_to_be_reported globalConfig looked_up None).1
  = false.
Proof.
  intros Hnot.
  destruct (exception_is_intended_to_be_reported globalConfig looked_up None)
    as [[] type_name] eqn:Hint; [|done].
  apply intended_looked_up in Hint as (name & ? & _ & ?).
  by destruct (Hnot name).
Qed.

(** [not_yet_reported] against [in_window]. *)
Lemma not_yet_reported_in_window tid object st :
  not_yet_reported (jthread_map_get (threadMap st) tid) object
  = negb (in_window tid object st).
Proof.
  unfold not_yet_reported, in_window, jthread_map_get.
  destruct (threadMap st !! tid) as [buffer|]; [|done].
  destruct (jthrowable_circular_buf_find buffer object) eqn:Hfind.
  - rewrite bool_decide_eq_false_2, bool_decide_eq_true_2; done.
  - rewrite bool_decide_eq_true_2, bool_decide_eq_false_2;
      [done|by intros []|done].
Qed.

(** A catch that does not match the pending report of its thread changes
    nothing and reports nothing. *)
Lemma callback_on_exception_catch_mismatch ev st :
  (∀ tid rpt,
     ce_tid ev = Some tid →
     uncaughtExceptionMap st !! tid = Some rpt →
     exception_object rpt ≠ ce_exception_object ev) →
  callback_on_exception_catch globalConfig processProperties ev st
  = Some (st, []).
Proof.
  intros Hne. unfold callback_on_exception_catch, jthread_map_get.
  destruct (jthread_map_empty _); [done|].
  destruct (ce_tid ev) as [tid|]; [|done].
  destruct (uncaughtExceptionMap st !! tid) as [rpt|] eqn:Hrpt; [|done].
  specialize (Hne tid rpt eq_refl Hrpt).
  rewrite (bool_decide_eq_false_2 (ce_exception_object ev = _)) by done.
  rewrite orb_true_r. by repeat case_match.
Qed.

(** The NULL type name never reaches the formatter in
    [callback_on_exception_catch]. *)
Lemma intended_type_name looked_up exception_type type_name :
  exception_is_intended_to_be_reported globalConfig looked_up exception_type
  = (true, type_name) →
  ∃ name, type_name = Some name ∧ allow_listed globalConfig name.
Proof.
  destruct exception_type as [name|].
  - destruct (intended_known looked_up name) as (intended & -> & Hiff).
    intros [= -> <-]. exists name. split; [done|]. by apply Hiff.
  - intros (name & _ & -> & ?)%intended_looked_up. by exists name.
Qed.


(** The message of a report made by a callback starts with the prefix
    the formatter is asked for, also when the default text replaces it. *)
Lemma format_exception_reason_message_prefix
      calloc_ok caught exception_fqdn class_fqdn method msg :
  format_exception_reason_message calloc_ok caught
    exception_fqdn class_fqdn method = Some msg →
  String.prefix (reason_prefix caught) msg = true.
Proof.
  destruct calloc_ok; [|done]. intros Hmsg.
  pose proof (format_exception_reason_message_loop
                caught exception_fqdn class_fqdn method) as Hloop.
  rewrite Hmsg in Hloop.
  apply reason_loop_message in Hloop as (e' & c' & _ & ->).
  by destruct caught.
Qed.

Lemma default_message_prefix
      calloc_ok caught exception_fqdn class_fqdn method :
  String.prefix (reason_prefix caught)
    (default (reason_prefix caught +:+ " exception")
       (format_exception_reason_message calloc_ok caught
          exception_fqdn class_fqdn method)) = true.
Proof.
  destruct (format_exception_reason_message _ _ _ _ _) as [msg|] eqn:Hmsg.
  - by eapply format_exception_reason_message_prefix.
  - by destruct caught.
Qed.

(** The same for a type name that may be NULL. *)
Lemma reason_loop_NULL_message fuel prefix class_name method msg :
  reason_loop_NULL fuel prefix class_name method = Some (Some msg) →
  ∃ class_name',
    msg = CString.take 254 (render_reason prefix "(null)" class_name' method).
Proof.
  revert class_name. induction fuel as [|fuel IH]; intros c; [done|].
  cbn [reason_loop_NULL]. unfold snprintf.
  destruct (_ <=? 0); [done|].
  destruct (_ >=? MAX_REASON_MESSAGE_STRING_LENGTH).
  - destruct (CString.strrchr c "."%char); [apply IH|done].
  - intros [= <-]. by exists c.
Qed.

(** The bound on the iterations plays no role: an iteration that continues
    leaves a class name without dot, on which the next one stops. *)
Lemma reason_loop_NULL_fuel fuel prefix class_name method :
  (reason_fuel EmptyString class_name ≤ fuel)%nat →
  reason_loop_NULL fuel prefix class_name method
  = reason_loop_NULL (reason_fuel EmptyString class_name)
      prefix class_name method.
Proof.
  assert (∀ fuel c,
            CString.strrchr c "."%char = None →
            reason_loop_NULL (S fuel) prefix c method
            = reason_loop_NULL 1 prefix c method) as Hlast.
  { intros fuel' c Hc. cbn [reason_loop_NULL]. by rewrite Hc. }
  assert (∀ fuel c,
            reason_loop_NULL (S (S fuel)) prefix c method
            = reason_loop_NULL 2 prefix c method) as Htwo.
  { intros fuel' c. cbn [reason_loop_NULL].
    destruct (snprintf _ _) as [message message_len].
    destruct (CString.strrchr c "."%char) as [ptr|] eqn:Hc; [|done].
    apply strrchr_next_None in Hc. by rewrite Hc. }
  unfold reason_fuel.
  change (S (CString.strlen EmptyString + CString.strlen class_name))
    with (S (CString.strlen class_name)).
  intros Hfuel.
  destruct (CString.strrchr class_name "."%char) as [ptr|] eqn:Hc.
  - apply strrchr_next_shorter in Hc.
    destruct fuel as [|[|fuel]]; [lia..|].
    destruct (CString.strlen class_name) as [|len]; [lia|].
    by rewrite (Htwo fuel), (Htwo len).
  - destruct fuel as [|fuel]; [lia|].
    by rewrite (Hlast fuel), (Hlast (CString.strlen class_name)).
Qed.

Lemma format_exception_reason_message_of_wf
      calloc_ok caught exception_fqdn class_fqdn method msg :
  format_exception_reason_message_of calloc_ok caught
    exception_fqdn class_fqdn method = Some (Some msg) →
  String.prefix (reason_prefix caught) msg = true
  ∧ (CString.strlen msg ≤ 254)%nat.
Proof.
  unfold format_exception_reason_message_of.
  destruct exception_fqdn as [name|].
  - intros [= Hmsg]. split.
    + by eapply format_exception_reason_message_prefix.
    + by eapply format_exception_reason_message_bounded.
  - destruct calloc_ok; [|done]. cbn [negb].
    intros (c' & ->)%reason_loop_NULL_message. split.
    + by destruct caught.
    + apply strlen_take.
Qed.

(** *** [callback_on_exception] *)

(** An exception already in the buffer of its thread. *)
Lemma callback_on_exception_in_window ev st tid :
  ee_tid ev = Some tid →
  in_window tid (ee_exception_object ev) st = true →
  callback_on_exception globalConfig processProperties ev st = Some (st, []).
Proof.
  intros Htid Hwin. unfold callback_on_exception.
  rewrite Htid, not_yet_reported_in_window, Hwin. simpl.
  by repeat case_match.
Qed.

(** A top-level throw not yet reported, with every lookup successful. *)
Lemma callback_on_exception_pending
      ev st method_name class_signature type_name :
  ee_catch_method ev = None →
  not_yet_reported
    (ee_tid ev ≫= jthread_map_get (threadMap st))
    (ee_exception_object ev) = true →
  ee_method_name ev = Some method_name →
  ee_declaring_class_ok ev = true →
  ee_class_signature ev = Some class_signature →
  ee_exception_type_name ev = Some type_name →
  ee_malloc_ok ev = true →
  callback_on_exception globalConfig processProperties ev st
  = Some
      ({| threadMap := threadMap st;
          uncaughtExceptionMap :=
            <[default 0 (ee_tid ev) :=
                {| message :=
                     format_exception_reason_message (ee_calloc_ok ev) false
                       type_name
                       (CString.drop_last
                          (format_class_name class_signature "."%char))
                       method_name;
                   stacktrace := ee_stack_trace ev;
                   executable := ee_executable ev;
                   exception_type_name := Some type_name;
                   additional_info := ee_additional_info ev;
                   exception_object := ee_exception_object ev |}]>
              (uncaughtExceptionMap st) |},
       []).
Proof.
  intros Hcatch Hnew Hmethod Hclass Hsig Hty Hmalloc.
  unfold callback_on_exception, jthread_map_push.
  rewrite Hcatch, Hmethod, Hclass, Hsig, Hty, Hmalloc. simpl.
  destruct (ee_tid ev) as [tid|]; simpl in *; by rewrite ?Hnew.
Qed.

(** Whatever it does, [callback_on_exception] makes at most one report,
    about the exception thrown, phrased as caught. *)
Lemma callback_on_exception_reports ev st st' out :
  callback_on_exception globalConfig processProperties ev st
  = Some (st', out) →
  (length out ≤ 1)%nat
  ∧ ∀ report,
      report ∈ out →
      emit_exception report = ee_exception_object ev
      ∧ String.prefix "Caught" (emit_message report) = true.
Proof.
  pose proof (default_message_prefix (ee_calloc_ok ev) true) as Hprefix.
  assert (∀ st0 : T_state,
            Some (st0, @nil T_emit) = Some (st', out) →
            (length out ≤ 1)%nat
            ∧ ∀ report,
                report ∈ out →
                emit_exception report = ee_exception_object ev
                ∧ String.prefix "Caught" (emit_message report) = true)
    as Hnil.
  { intros st0 [= <- <-]. split; [simpl; lia|]. by intros ? ?%elem_of_nil. }
  unfold callback_on_exception.
  destruct (_ && _); [apply Hnil|].
  destruct (ee_catch_method ev) as [catch_method|].
  - destruct (exception_is_intended_to_be_reported _ _ _)
      as [[] type_name] eqn:Hint; simpl; [|apply Hnil].
    apply intended_type_name in Hint as (name & -> & _).
    destruct (negb (not_yet_reported _ _)); [apply Hnil|].
    destruct (ee_method_name ev); [|apply Hnil].
    destruct (ee_declaring_class_ok ev); [|apply Hnil].
    destruct (ee_class_signature ev); [|apply Hnil].
    intros [= <- <-]. split; [simpl; lia|].
    intros report ->%list_elem_of_singleton. split; [done|]. apply Hprefix.
  - simpl. destruct (negb (not_yet_reported _ _)); [apply Hnil|].
    destruct (ee_method_name ev); [|apply Hnil].
    destruct (ee_declaring_class_ok ev); [|apply Hnil].
    destruct (ee_class_signature ev); [|apply Hnil].
    destruct (format_exception_reason_message_of _ _ _ _ _); [|done].
    destruct (ee_malloc_ok ev); apply Hnil.
Qed.


(** *** [callback_on_exception_catch] *)

Lemma jthread_map_empty_lookup {A} (map : gmap Z A) tid item :
  map !! tid = Some item → jthread_map_empty map = false.
Proof.
  intros Hitem. apply bool_decide_eq_false_2. intros ->.
  by rewrite lookup_empty in Hitem.
Qed.

(** The catch of the pending exception, when its type is not to be
    reported: the pending report is dropped. *)
Lemma callback_on_exception_catch_dropped ev st tid rpt type_name :
  ce_tid ev = Some tid →
  uncaughtExceptionMap st !! tid = Some rpt →
  exception_object rpt = ce_exception_object ev →
  ce_object_class_ok ev = true →
  ce_equal_method_ok ev = true →
  ce_equals_call_ok ev = true →
  exception_type_name rpt = Some type_name →
  ¬ allow_listed globalConfig type_name →
  callback_on_exception_catch globalConfig processProperties ev st
  = Some ({| threadMap := threadMap st;
             uncaughtExceptionMap := delete tid (uncaughtExceptionMap st) |},
          []).
Proof.
  intros Htid Hrpt Hobj Hclass Hmethod Hcall Hty Hnot.
  unfold callback_on_exception_catch, jthread_map_get, jthread_map_pop.
  rewrite (jthread_map_empty_lookup _ _ _ Hrpt), Htid, Hrpt.
  rewrite Hclass, Hmethod, Hcall, Hobj, Hty.
  rewrite bool_decide_eq_true_2 by done. simpl.
  destruct (intended_known (ce_exception_type_name ev) type_name)
    as (intended & -> & Hiff).
  destruct intended; [|done]. destruct Hnot. by apply Hiff.
Qed.

(** The catch of the pending exception, when its type is to be reported
    and it has not been reported yet. *)
Lemma callback_on_exception_catch_reported
      ev st tid rpt type_name method_name class_signature :
  ce_tid ev = Some tid →
  uncaughtExceptionMap st !! tid = Some rpt →
  exception_object rpt = ce_exception_object ev →
  ce_object_class_ok ev = true →
  ce_equal_method_ok ev = true →
  ce_equals_call_ok ev = true →
  exception_type_name rpt = Some type_name →
  allow_listed globalConfig type_name →
  in_window tid (ce_exception_object ev) st = false →
  ce_method_name ev = Some method_name →
  ce_declaring_class_ok ev = true →
  ce_class_signature ev = Some class_signature →
  callback_on_exception_catch globalConfig processProperties ev st
  = Some ({| threadMap :=
               remember_reported (ce_buf_alloc_ok ev) tid
                 (threadMap st !! tid) (ce_exception_object ev)
                 (threadMap st);
             uncaughtExceptionMap := delete tid (uncaughtExceptionMap st) |},
          [ {| emit_exception := ce_exception_object ev;
               emit_executable :=
                 match executable rpt with
                 | Some exe => Some exe
                 | None => main_class processProperties
                 end;
               emit_message :=
                 default "Caught exception"
                   (format_exception_reason_message (ce_calloc_ok ev) true
                      type_name
                      (format_class_name class_signature Ascii.zero)
                      method_name);
               emit_stacktrace := stacktrace rpt;
               emit_additional_info := additional_info rpt |} ]).
Proof.
  intros Htid Hrpt Hobj Hclass Hmethod Hcall Hty Hallow Hwin Hname Hdecl Hsig.
  assert (jthread_map_get (uncaughtExceptionMap st) tid = Some rpt)
    as Hget by done.
  unfold callback_on_exception_catch, jthread_map_pop.
  rewrite (jthread_map_empty_lookup _ _ _ Hrpt), Htid, Hget.
  rewrite Hclass, Hmethod, Hcall, Hobj, Hty, Hname, Hdecl, Hsig.
  rewrite bool_decide_eq_true_2 by done. simpl.
  destruct (intended_known (ce_exception_type_name ev) type_name)
    as (intended & -> & Hiff).
  rewrite (proj2 Hiff Hallow), not_yet_reported_in_window, Hwin. done.
Qed.

(** Whatever it does, [callback_on_exception_catch] makes at most one
    report, about the exception caught, phrased as caught, and none when
    the exception is in the buffer of its thread. *)
Lemma callback_on_exception_catch_reports ev st st' out :
  callback_on_exception_catch globalConfig processProperties ev st
  = Some (st', out) →
  (length out ≤ 1)%nat
  ∧ ∀ report,
      report ∈ out →
      emit_exception report = ce_exception_object ev
      ∧ String.prefix "Caught" (emit_message report) = true
      ∧ ∀ tid,
          ce_tid ev = Some tid →
          in_window tid (ce_exception_object ev) st = false.
Proof.
  pose proof (default_message_prefix (ce_calloc_ok ev) true) as Hprefix.
  assert (∀ st0 : T_state,
            Some (st0, @nil T_emit) = Some (st', out) →
            (length out ≤ 1)%nat
            ∧ ∀ report,
                report ∈ out →
                emit_exception report = ce_exception_object ev
                ∧ String.prefix "Caught" (emit_message report) = true
                ∧ ∀ tid,
                    ce_tid ev = Some tid →
                    in_window tid (ce_exception_object ev) st = false)
    as Hnil.
  { intros st0 [= <- <-]. split; [simpl; lia|]. by intros ? ?%elem_of_nil. }
  unfold callback_on_exception_catch.
  destruct (jthread_map_empty _); [apply Hnil|].
  destruct (ce_tid ev) as [tid|]; [|apply Hnil].
  destruct (jthread_map_get _ tid) as [rpt|]; [|apply Hnil].
  destruct (negb (ce_object_class_ok ev)); [apply Hnil|].
  destruct (negb (ce_equal_method_ok ev)); [apply Hnil|].
  destruct (negb (ce_equals_call_ok ev)); [apply Hnil|]. simpl.
  case_bool_decide as Hobj; [|apply Hnil]. simpl.
  destruct (exception_is_intended_to_be_reported _ _ _)
    as [[] type_name] eqn:Hint; simpl; [|apply Hnil].
  apply intended_type_name in Hint as (name & -> & _).
  rewrite not_yet_reported_in_window.
  destruct (in_window tid (exception_object rpt) st) eqn:Hwin; simpl;
    [apply Hnil|].
  destruct (ce_method_name ev); [|apply Hnil].
  destruct (ce_declaring_class_ok ev); [|apply Hnil].
  destruct (ce_class_signature ev); [|apply Hnil].
  intros [= <- <-]. split; [simpl; lia|].
  intros report ->%list_elem_of_singleton. simpl.
  split_and!; [done|apply Hprefix|]. intros ? [= <-]. congruence.
Qed.

(** *** [callback_on_thread_end] *)

(** The end of a thread removes its buffer and its pending report, and
    reports the pending exception unless the buffer holds it. *)
Lemma callback_on_thread_end_tid ev st tid :
  te_tid ev = Some tid →
  callback_on_thread_end processProperties ev st
  = ({| threadMap := delete tid (threadMap st);
        uncaughtExceptionMap := delete tid (uncaughtExceptionMap st) |},
     match uncaughtExceptionMap st !! tid with
     | None => []
     | Some rpt =>
         if in_window tid (exception_object rpt) st then []
         else
           [ {| emit_exception := exception_object rpt;
                emit_executable :=
                  match executable rpt with
                  | Some exe => Some exe
                  | None => main_class processProperties
                  end;
                emit_message := default "Uncaught exception" (message rpt);
                emit_stacktrace := stacktrace rpt;
                emit_additional_info := additional_info rpt |} ]
     end).
Proof.
  intros Htid. unfold callback_on_thread_end, jthread_map_pop.
  rewrite Htid.
  destruct (negb _ || negb _) eqn:Hempty.
  - f_equal. destruct (uncaughtExceptionMap st !! tid) as [rpt|]; [|done].
    change (threadMap st !! tid) with (jthread_map_get (threadMap st) tid).
    rewrite not_yet_reported_in_window.
    by destruct (in_window tid (exception_object rpt) st).
  - apply orb_false_elim in Hempty as [Hthreads Huncaught].
    apply negb_false_iff, bool_decide_eq_true_1 in Hthreads, Huncaught.
    destruct st as [threads uncaught]. simpl in *. subst.
    by rewrite !delete_empty, lookup_empty.
Qed.

Lemma callback_on_thread_end_reports ev st st' out :
  callback_on_thread_end processProperties ev st = (st', out) →
  (length out ≤ 1)%nat
  ∧ ∀ report tid,
      report ∈ out →
      te_tid ev = Some tid →
      in_window tid (emit_exception report) st = false.
Proof.
  destruct (te_tid ev) as [tid|] eqn:Htid.
  - rewrite (callback_on_thread_end_tid _ _ _ Htid).
    destruct (uncaughtExceptionMap st !! tid) as [rpt|].
    + destruct (in_window tid (exception_object rpt) st) eqn:Hwin.
      * intros [= <- <-]. split; [simpl; lia|]. by intros ?? ?%elem_of_nil.
      * intros [= <- <-]. split; [simpl; lia|].
        by intros ?? ->%list_elem_of_singleton [= <-].
    + intros [= <- <-]. split; [simpl; lia|]. by intros ?? ?%elem_of_nil.
  - unfold callback_on_thread_end. rewrite Htid.
    destruct (_ || _); intros [= <- <-];
      (split; [simpl; lia|]); by intros ?? ?%elem_of_nil.
Qed.

End CallbackFacts.

(** C8. When the catch location of a thrown exception is known and the name
    of its type is not among the types to report even if caught (there is no
    such list, the name cannot be read, or the name is not on the list),
    [callback_on_exception] does nothing: it makes no report and leaves both
    maps, and with them every buffer, as they are. *)
Theorem C8_caught_exception_off_the_list_is_ignored
  (globalConfig : T_configuration) (processProperties : T_processProperties)
  (ev : T_exceptionEvent) (st : T_state) :
  ee_catch_method ev ≠ None →
  (∀ name,
     ee_exception_type_name ev = Some name →
     ¬ allow_listed globalConfig name) →
  callback_on_exception globalConfig processProperties ev st = Some (st, []).
Proof.
  intros Hcatch Hnot. unfold callback_on_exception.
  (* the early return: caught, and no caught exception is to be reported *)
  destruct (_ && _); [done|].
  destruct (ee_catch_method ev) as [catch_method|]; [|done].
  (* otherwise exception_is_intended_to_be_reported answers 0 *)
  pose proof (not_intended_looked_up globalConfig _ Hnot) as Hint.
  destruct (exception_is_intended_to_be_reported _ _ _) as [intended ty].
  simpl in Hint. by rewrite Hint.
Qed.

(** An [IOException] with a known catch location, when only [Error] is to be
    reported: nothing happens to a state that holds a pending report. *)
Lemma C8_caught_exception_off_the_list_is_ignored_witness :
  let st := {| threadMap := ∅;
               uncaughtExceptionMap :=
                 {[ 7 := {| message := None; stacktrace := None;
                            executable := None; exception_type_name := None;
                            additional_info := None;
                            exception_object := 1%N |} ]} |} in
  callback_on_exception (config_reporting ["java.lang.Error"]) sample_process
    (sample_exception 7 2%N (Some 3%N) "java.io.IOException") st
  = Some (st, []).
Proof.
  intros st.
  apply C8_caught_exception_off_the_list_is_ignored.
  - discriminate.
  - intros name [= <-] (types & [= <-] & Hin).
    apply list_elem_of_singleton in Hin. discriminate Hin.
Defined.

(** C6. A caught exception that is not the one of the pending report of its
    thread, or that is caught on a thread without a pending report, leaves
    the whole state as it is, the pending report included, and no report is
    made. *)
Theorem C6_unrelated_catch_leaves_pending_report
  (globalConfig : T_configuration) (processProperties : T_processProperties)
  (ev : T_exceptionCatchEvent) (st : T_state) :
  (∀ tid rpt,
     ce_tid ev = Some tid →
     uncaughtExceptionMap st !! tid = Some rpt →
     exception_object rpt ≠ ce_exception_object ev) →
  callback_on_exception_catch globalConfig processProperties ev st
  = Some (st, []).
Proof.
  intros Hne. unfold callback_on_exception_catch, jthread_map_get.
  destruct (jthread_map_empty _); [done|].
  destruct (ce_tid ev) as [tid|]; [|done].
  (* no pending report for the thread *)
  destruct (uncaughtExceptionMap st !! tid) as [rpt|] eqn:Hrpt; [|done].
  (* a pending report for another exception: equals answers false *)
  specialize (Hne tid rpt eq_refl Hrpt).
  rewrite (bool_decide_eq_false_2 (ce_exception_object ev = _)) by done.
  rewrite orb_true_r.
  destruct (negb (ce_object_class_ok ev)); [done|].
  by destruct (negb (ce_equal_method_ok ev)).
Qed.

(** Thread 7 waits for exception 1 and catches exception 2. *)
Lemma C6_unrelated_catch_leaves_pending_report_witness :
  let st := {| threadMap := ∅;
               uncaughtExceptionMap :=
                 {[ 7 := {| message := None; stacktrace := None;
                            executable := None;
                            exception_type_name := Some "java.lang.Error";
                            additional_info := None;
                            exception_object := 1%N |} ]} |} in
  callback_on_exception_catch (config_reporting ["java.lang.Error"])
    sample_process (sample_catch 7 2%N) st
  = Some (st, []).
Proof.
  intros st.
  apply C6_unrelated_catch_leaves_pending_report.
  intros tid rpt [= <-] Hrpt. vm_compute in Hrpt.
  injection Hrpt as <-. discriminate.
Defined.

(** ** Sequences of events *)

Section RunFacts.

Context (globalConfig : T_configuration).
Context (processProperties : T_processProperties).

Local Abbreviation run := (run globalConfig processProperties).
Local Abbreviation step := (step globalConfig processProperties).

Lemma run_cons event events st :
  run (event :: events) st
  = match step event st with
    | None => None
    | Some (st', out) =>
        match run events st' with
        | None => None
        | Some (st'', out') => Some (st'', out ++ out')
        end
    end.
Proof. done. Qed.

Lemma run_app events1 events2 st :
  run (events1 ++ events2) st
  = match run events1 st with
    | None => None
    | Some (st', out) =>
        match run events2 st' with
        | None => None
        | Some (st'', out') => Some (st'', out ++ out')
        end
    end.
Proof.
  revert st. induction events1 as [|event events1 IH]; intros st.
  { simpl. by destruct (run events2 st) as [[??]|]. }
  rewrite <-app_comm_cons, !run_cons.
  destruct (step event st) as [[st1 out1]|]; [|done].
  rewrite IH. destruct (run events1 st1) as [[st2 out2]|]; [|done].
  destruct (run events2 st2) as [[st3 out3]|]; [|done].
  by rewrite app_assoc.
Qed.

(** Catches of other exceptions on a thread with a pending report. *)
Lemma run_unrelated_catches tid object (others : list T_exceptionCatchEvent) st :
  (∀ rpt,
     uncaughtExceptionMap st !! tid = Some rpt →
     exception_object rpt = object) →
  Forall (λ ev, ce_tid ev = Some tid ∧ ce_exception_object ev ≠ object)
    others →
  run (OnExceptionCatch <$> others) st = Some (st, []).
Proof.
  intros Hpending. induction 1 as [|ev others [Htid Hne] _ IH]; [done|].
  rewrite fmap_cons, run_cons. simpl.
  rewrite callback_on_exception_catch_mismatch, IH; [done|].
  intros tid' rpt Htid' Hrpt. rewrite Htid in Htid'. injection Htid' as <-.
  apply Hpending in Hrpt. congruence.
Qed.

End RunFacts.




(** A top-level throw for which [GetMethodName] fails stores no pending
    report, so the end of the thread reports nothing. *)
Lemma C5_counterexample_method_name_unreadable :
  ee_catch_method (sample_exception_without_method 7 1%N) = None
  ∧ in_window 7 1%N initial_state = false
  ∧ run default_config sample_process
      [ OnException (sample_exception_without_method 7 1%N);
        OnThreadEnd {| te_tid := Some 7 |} ] initial_state
    = Some (initial_state, []).
Proof. by vm_compute. Qed.

(** C5, amended. On a thread [tid] whose id can be read and whose buffer
    does not hold the exception, a top-level throw (no catch method) for
    which the names of the method, of its class and of the exception type
    can be read and the pending report can be allocated, followed by the end
    of the thread with no catch of that exception in between (catches of
    other exceptions on the thread may occur), yields exactly one report. It
    is about the exception thrown, is phrased as uncaught, carries the stack
    trace taken at the throw, and afterwards the thread has neither a buffer
    nor a pending report. *)
Theorem C5_uncaught_exception_reported_at_thread_end
  (globalConfig : T_configuration) (processProperties : T_processProperties)
  (thrown : T_exceptionEvent) (others : list T_exceptionCatchEvent)
  (st : T_state) (tid : Z)
  (method_name class_signature type_name : string) :
  ee_tid thrown = Some tid →
  ee_catch_method thrown = None →
  in_window tid (ee_exception_object thrown) st = false →
  ee_method_name thrown = Some method_name →
  ee_declaring_class_ok thrown = true →
  ee_class_signature thrown = Some class_signature →
  ee_exception_type_name thrown = Some type_name →
  ee_malloc_ok thrown = true →
  Forall (λ ev, ce_tid ev = Some tid
                ∧ ce_exception_object ev ≠ ee_exception_object thrown)
    others →
  ∃ st' report,
    run globalConfig processProperties
      (OnException thrown
         :: (OnExceptionCatch <$> others)
         ++ [OnThreadEnd {| te_tid := Some tid |}]) st
    = Some (st', [report])
    ∧ emit_exception report = ee_exception_object thrown
    ∧ String.prefix "Uncaught" (emit_message report) = true
    ∧ emit_stacktrace report = ee_stack_trace thrown
    ∧ jthread_map_get (threadMap st') tid = None
    ∧ jthread_map_get (uncaughtExceptionMap st') tid = None.
Proof.
  intros Htid Hcatch Hwin Hmethod Hclass Hsig Hty Hmalloc Hothers.
  rewrite run_cons. simpl.
  erewrite callback_on_exception_pending; [|try done..]; last first.
  { rewrite Htid. simpl. by rewrite not_yet_reported_in_window, Hwin. }
  rewrite Htid. simpl. rewrite run_app.
  erewrite run_unrelated_catches; [|idtac..|exact Hothers]; last first.
  { simpl. intros rpt. rewrite lookup_insert_eq. by intros [= <-]. }
  simpl.
  rewrite (callback_on_thread_end_tid _ {| te_tid := Some tid |} _ tid eq_refl).
  simpl.
  rewrite lookup_insert_eq. unfold in_window in *. simpl. rewrite Hwin.
  do 2 eexists. split; [done|]. simpl. unfold jthread_map_get.
  rewrite !lookup_delete_eq. split_and!; try done.
  apply (default_message_prefix (ee_calloc_ok thrown) false).
Qed.

(** The scenario on thread 7 from the initial state, with a catch of another
    exception in between. *)
Lemma C5_uncaught_exception_reported_at_thread_end_witness :
  ∃ st' report,
    run default_config sample_process
      [ OnException (sample_exception 7 1%N None "java.lang.Error");
        OnExceptionCatch (sample_catch 7 2%N);
        OnThreadEnd {| te_tid := Some 7 |} ] initial_state
    = Some (st', [report])
    ∧ emit_exception report = 1%N
    ∧ String.prefix "Uncaught" (emit_message report) = true
    ∧ emit_stacktrace report = Some "Exception in thread main"
    ∧ jthread_map_get (threadMap st') 7 = None
    ∧ jthread_map_get (uncaughtExceptionMap st') 7 = None.
Proof.
  apply (C5_uncaught_exception_reported_at_thread_end
           default_config sample_process
           (sample_exception 7 1%N None "java.lang.Error")
           [sample_catch 7 2%N] initial_state 7
           "run" "Lcom/example/Main;" "java.lang.Error");
    try reflexivity.
  constructor; [split; [reflexivity|discriminate]|constructor].
Defined.

(** With the default configuration no caught exception is to be reported:
    throw, catch and thread end of the same exception yield no report. *)
Lemma C1_counterexample_default_config :
  run default_config sample_process
    [ OnException (sample_exception 7 1%N None "java.lang.Error");
      OnExceptionCatch (sample_catch 7 1%N);
      OnThreadEnd {| te_tid := Some 7 |} ] initial_state
  = Some (initial_state, []).
Proof. by vm_compute. Qed.

(** C1, amended. Take a thread [tid] whose id can be read and whose buffer
    does not hold the exception. Take a top-level throw for which the names
    of the method, of its class and of the exception type can be read and
    the pending report can be allocated, so that it stores a pending report.
    Take the catch of that exception, for which the class [Object] and its
    method [equals] are found, the call of [equals] succeeds, and the names
    of the catching method and of its class can be read. The throw, the
    catch and the end of the thread then yield exactly one report when the
    name of the exception type is among the types to report even if caught:
    the catch makes it, about the exception thrown, phrased as caught, with
    the stack trace taken at the throw. When the type is not among them the
    catch drops the pending report and no report is made. In both cases the
    end of the thread makes no further report. *)
Theorem C1_caught_pending_exception_reported_if_listed
  (globalConfig : T_configuration) (processProperties : T_processProperties)
  (thrown : T_exceptionEvent) (caught : T_exceptionCatchEvent)
  (st : T_state) (tid : Z)
  (method_name class_signature type_name : string)
  (catch_method_name catch_class_signature : string) :
  ee_tid thrown = Some tid →
  ee_catch_method thrown = None →
  in_window tid (ee_exception_object thrown) st = false →
  ee_method_name thrown = Some method_name →
  ee_declaring_class_ok thrown = true →
  ee_class_signature thrown = Some class_signature →
  ee_exception_type_name thrown = Some type_name →
  ee_malloc_ok thrown = true →
  ce_tid caught = Some tid →
  ce_exception_object caught = ee_exception_object thrown →
  ce_object_class_ok caught = true →
  ce_equal_method_ok caught = true →
  ce_equals_call_ok caught = true →
  ce_method_name caught = Some catch_method_name →
  ce_declaring_class_ok caught = true →
  ce_class_signature caught = Some catch_class_signature →
  ∃ st2 out st3,
    run globalConfig processProperties
      [OnException thrown; OnExceptionCatch caught] st = Some (st2, out)
    ∧ callback_on_thread_end processProperties {| te_tid := Some tid |} st2
      = (st3, [])
    ∧ run globalConfig processProperties
        [ OnException thrown; OnExceptionCatch caught;
          OnThreadEnd {| te_tid := Some tid |} ] st = Some (st3, out)
    ∧ (allow_listed globalConfig type_name →
       ∃ report,
         out = [report]
         ∧ emit_exception report = ee_exception_object thrown
         ∧ String.prefix "Caught" (emit_message report) = true
         ∧ emit_stacktrace report = ee_stack_trace thrown)
    ∧ (¬ allow_listed globalConfig type_name → out = []).
Proof.
  intros Htid Hcatch Hwin Hmethod Hclass Hsig Hty Hmalloc
    Hctid Hobj Hoclass Hequal Hcall Hcmethod Hcclass Hcsig.
  pose proof (callback_on_exception_pending globalConfig processProperties
                thrown st method_name class_signature type_name) as Hthrow.
  rewrite Htid in Hthrow. simpl in Hthrow.
  rewrite not_yet_reported_in_window, Hwin in Hthrow.
  specialize (Hthrow Hcatch eq_refl Hmethod Hclass Hsig Hty Hmalloc).
  set (rpt := {| message := _ |}) in Hthrow.
  set (st1 := {| threadMap := threadMap st |}) in Hthrow.
  assert (uncaughtExceptionMap st1 !! tid = Some rpt) as Hrpt
    by apply lookup_insert_eq.
  assert (∀ st2 out,
            callback_on_exception_catch globalConfig processProperties
              caught st1 = Some (st2, out) →
            uncaughtExceptionMap st2 !! tid = None →
            ∃ st3,
              run globalConfig processProperties
                [OnException thrown; OnExceptionCatch caught] st
              = Some (st2, out)
              ∧ callback_on_thread_end processProperties
                  {| te_tid := Some tid |} st2 = (st3, [])
              ∧ run globalConfig processProperties
                  [ OnException thrown; OnExceptionCatch caught;
                    OnThreadEnd {| te_tid := Some tid |} ] st
                = Some (st3, out)) as Hrest.
  { intros st2 out Hcaught Hnone.
    pose proof (callback_on_thread_end_tid processProperties
                  {| te_tid := Some tid |} st2 tid eq_refl) as Hend.
    rewrite Hnone in Hend. eexists. split_and!; [|exact Hend|].
    - rewrite !run_cons. simpl. rewrite Hthrow. simpl. rewrite Hcaught.
      simpl. by rewrite app_nil_r.
    - rewrite !run_cons. simpl. rewrite Hthrow. simpl. rewrite Hcaught.
      simpl. rewrite Hend. simpl. by rewrite !app_nil_r. }
  destruct (intended_known globalConfig None type_name)
    as ([] & _ & Hiff).
  - assert (allow_listed globalConfig type_name) as Hallow by by apply Hiff.
    pose proof (callback_on_exception_catch_reported
                  globalConfig processProperties caught st1 tid rpt type_name
                  catch_method_name catch_class_signature
                  Hctid Hrpt (eq_sym Hobj) Hoclass Hequal Hcall eq_refl Hallow)
      as Hcaught.
    rewrite Hobj in Hcaught.
    specialize (Hcaught Hwin Hcmethod Hcclass Hcsig).
    destruct (Hrest _ _ Hcaught) as (st3 & Hrun2 & Hend & Hrun3).
    { apply lookup_delete_eq. }
    eexists _, _, st3. split_and!; [exact Hrun2|exact Hend|exact Hrun3| |done].
    intros _. eexists. split; [done|]. simpl. split_and!; [done| |done].
    apply (default_message_prefix (ce_calloc_ok caught) true).
  - assert (¬ allow_listed globalConfig type_name) as Hnot.
    { intros Hallow. by apply Hiff in Hallow. }
    pose proof (callback_on_exception_catch_dropped
                  globalConfig processProperties caught st1 tid rpt type_name
                  Hctid Hrpt (eq_sym Hobj) Hoclass Hequal Hcall eq_refl Hnot)
      as Hcaught.
    destruct (Hrest _ _ Hcaught) as (st3 & Hrun2 & Hend & Hrun3).
    { apply lookup_delete_eq. }
    eexists _, _, st3. split_and!; [exact Hrun2|exact Hend|exact Hrun3|done..].
Qed.

(** The scenario on thread 7 from the initial state when [Error] is to be
    reported even if caught. *)
Lemma C1_caught_pending_exception_reported_if_listed_witness :
  ∃ st3 report,
    run (config_reporting ["java.lang.Error"]) sample_process
      [ OnException (sample_exception 7 1%N None "java.lang.Error");
        OnExceptionCatch (sample_catch 7 1%N);
        OnThreadEnd {| te_tid := Some 7 |} ] initial_state
    = Some (st3, [report])
    ∧ emit_exception report = 1%N
    ∧ String.prefix "Caught" (emit_message report) = true.
Proof.
  destruct (C1_caught_pending_exception_reported_if_listed
              (config_reporting ["java.lang.Error"]) sample_process
              (sample_exception 7 1%N None "java.lang.Error")
              (sample_catch 7 1%N) initial_state 7
              "run" "Lcom/example/Main;" "java.lang.Error"
              "handle" "Lcom/example/Handler;"
              eq_refl eq_refl eq_refl eq_refl eq_refl eq_refl eq_refl eq_refl
              eq_refl eq_refl eq_refl eq_refl eq_refl eq_refl eq_refl eq_refl)
    as (st2 & out & st3 & _ & _ & Hrun & Hlisted & _).
  destruct Hlisted as (report & -> & Hobj & Hprefix & _).
  { exists ["java.lang.Error"]. split; [reflexivity|]. constructor. }
  exists st3, report. split_and!; [exact Hrun|exact Hobj|exact Hprefix].
Defined.

(** ** The dedup window *)

Section Window.

Context (globalConfig : T_configuration).
Context (processProperties : T_processProperties).

Local Abbreviation run := (run globalConfig processProperties).
Local Abbreviation step := (step globalConfig processProperties).

Lemma reports_of_nil object (out : list T_emit) :
  (∀ report, report ∈ out → emit_exception report ≠ object) →
  reports_of object out = [].
Proof.
  unfold reports_of. induction out as [|report out IH]; intros Hne; [done|].
  rewrite filter_cons_False by (apply Hne; left).
  apply IH. intros report' ?. apply Hne. by right.
Qed.


(** Every callback makes at most one report. *)
Lemma step_reports_length event st st' out :
  step event st = Some (st', out) → (length out ≤ 1)%nat.
Proof.
  destruct event as [ev|ev|ev]; simpl.
  - by intros [? _]%callback_on_exception_reports.
  - by intros [? _]%callback_on_exception_catch_reports.
  - intros [= Hend]. by apply callback_on_thread_end_reports in Hend as [? _].
Qed.

(** No callback reports an exception that it finds in the buffer of the
    thread. *)
Lemma step_in_window tid object event st st' out :
  event_tid event = Some tid →
  in_window tid object st = true →
  step event st = Some (st', out) →
  reports_of object out = [].
Proof.
  intros Htid Hwin Hstep. apply reports_of_nil. intros report Hin Hobj.
  destruct event as [ev|ev|ev]; simpl in *.
  - destruct (decide (ee_exception_object ev = object)) as [<-|Hne].
    + rewrite (callback_on_exception_in_window _ _ _ _ _ Htid Hwin) in Hstep.
      injection Hstep as <- <-. by apply elem_of_nil in Hin.
    + apply callback_on_exception_reports in Hstep as [_ Hout].
      destruct (Hout _ Hin) as [? _]. congruence.
  - apply callback_on_exception_catch_reports in Hstep as [_ Hout].
    destruct (Hout _ Hin) as (Heq & _ & Hnew).
    specialize (Hnew _ Htid). congruence.
  - injection Hstep as Hend.
    apply callback_on_thread_end_reports in Hend as [_ Hout].
    specialize (Hout _ _ Hin Htid). congruence.
Qed.



End Window.



(** * Further properties *)

(** ** The callbacks as a transition system *)

Section Engine.

Context (globalConfig : T_configuration).
Context (processProperties : T_processProperties).

Local Abbreviation run := (run globalConfig processProperties).
Local Abbreviation step := (step globalConfig processProperties).

(** [remember_reported] touches the entry of its thread only, and leaves
    there a buffer that holds the object. *)
Lemma remember_reported_lookup_ne alloc_ok tid tid' threads_exc_buf object map :
  tid' ≠ tid →
  remember_reported alloc_ok tid threads_exc_buf object map !! tid'
  = map !! tid'.
Proof.
  intros Hne. unfold remember_reported, create_exception_buf_for_thread,
    jthrowable_circular_buf_new, jthread_map_push.
  destruct threads_exc_buf as [buffer|], alloc_ok; simpl;
    by rewrite ?lookup_insert_ne.
Qed.

Lemma buf_find_push buffer object :
  buf_wf buffer →
  is_Some (jthrowable_circular_buf_find
             (jthrowable_circular_buf_push buffer object) object).
Proof.
  intros [Hlen Hnext]. unfold jthrowable_circular_buf_find. simpl.
  rewrite bool_decide_eq_true_2; [done|].
  apply list_elem_of_lookup. exists (next_slot buffer).
  apply list_lookup_insert_eq. lia.
Qed.

Lemma remember_reported_in_window alloc_ok tid object st map :
  (∀ buffer, threadMap st !! tid = Some buffer → buf_wf buffer) →
  (threadMap st !! tid = None → alloc_ok = true) →
  map = remember_reported alloc_ok tid (threadMap st !! tid) object
          (threadMap st) →
  ∀ uncaught,
    in_window tid object
      {| threadMap := map; uncaughtExceptionMap := uncaught |} = true.
Proof.
  intros Hwf Halloc -> uncaught. unfold in_window, remember_reported. simpl.
  destruct (threadMap st !! tid) as [buffer|] eqn:Hbuf.
  - rewrite lookup_insert_eq. apply bool_decide_eq_true_2, buf_find_push.
    by apply Hwf.
  - rewrite Halloc by done. simpl. rewrite lookup_insert_eq.
    apply bool_decide_eq_true_2, buf_find_push. split; simpl; [done|].
    unfold REPORTED_EXCEPTION_STACK_CAPACITY. lia.
Qed.

Lemma remember_reported_wf alloc_ok tid object (map : gmap Z T_jthrowableCircularBuf) :
  (∀ tid' buffer,
     map !! tid' = Some buffer →
     buf_wf buffer ∧ capacity buffer = REPORTED_EXCEPTION_STACK_CAPACITY) →
  ∀ tid' buffer,
    remember_reported alloc_ok tid (map !! tid) object map !! tid'
    = Some buffer →
    buf_wf buffer ∧ capacity buffer = REPORTED_EXCEPTION_STACK_CAPACITY.
Proof.
  intros Hwf tid' buffer.
  destruct (decide (tid' = tid)) as [->|Hne];
    [|rewrite remember_reported_lookup_ne by done; apply Hwf].
  unfold remember_reported, create_exception_buf_for_thread,
    jthrowable_circular_buf_new, jthread_map_push.
  destruct (map !! tid) as [old|] eqn:Hold.
  - rewrite lookup_insert_eq. intros [= <-].
    destruct (Hwf _ _ Hold) as [Hbuf Hcap].
    destruct (buf_push_wf old object Hbuf) as [? Hcap']. split; [done|].
    by rewrite Hcap'.
  - destruct alloc_ok; simpl.
    + rewrite lookup_insert_eq. intros [= <-].
      assert (buf_wf {| capacity := REPORTED_EXCEPTION_STACK_CAPACITY;
                        next_slot := 0;
                        mem := replicate REPORTED_EXCEPTION_STACK_CAPACITY
                                 None |}) as Hnew.
      { split; simpl; [done|].
        unfold REPORTED_EXCEPTION_STACK_CAPACITY. lia. }
      destruct (buf_push_wf _ object Hnew) as [? Hcap']. by split.
    + by rewrite Hold.
Qed.

(** The message of a report the formatter was asked for, or the default
    text in its place, fits the reason buffer. *)
Lemma default_message_bounded calloc_ok caught exception_fqdn class_fqdn method :
  (CString.strlen
     (default (reason_prefix caught +:+ " exception")
        (format_exception_reason_message calloc_ok caught
           exception_fqdn class_fqdn method)) < 255)%nat.
Proof.
  destruct (format_exception_reason_message _ _ _ _ _) as [msg|] eqn:Hmsg.
  - apply format_exception_reason_message_bounded in Hmsg. simpl. lia.
  - destruct caught; vm_compute; lia.
Qed.

Lemma state_wf_same_pending st threads :
  state_wf st →
  (∀ tid buffer,
     threads !! tid = Some buffer →
     buf_wf buffer ∧ capacity buffer = REPORTED_EXCEPTION_STACK_CAPACITY) →
  ∀ uncaught,
    (∀ tid rpt,
       uncaught !! tid = Some rpt →
       uncaughtExceptionMap st !! tid = Some rpt) →
    state_wf {| threadMap := threads; uncaughtExceptionMap := uncaught |}.
Proof.
  intros [_ Hpending] Hthreads uncaught Hsub. split; simpl; [done|].
  intros tid rpt Hrpt. eapply Hpending. by apply Hsub.
Qed.

(** [callback_on_exception] keeps the state well formed and makes only well
    formed reports. *)
Lemma callback_on_exception_wf ev st st' out :
  state_wf st →
  callback_on_exception globalConfig processProperties ev st
  = Some (st', out) →
  state_wf st' ∧ Forall report_wf out.
Proof.
  intros Hwf. pose proof Hwf as [Hthreads Hpending].
  assert (Some (st, @nil T_emit) = Some (st', out) →
          state_wf st' ∧ Forall report_wf out) as Hnil.
  { by intros [= <- <-]. }
  unfold callback_on_exception.
  destruct (_ && _); [apply Hnil|].
  destruct (ee_catch_method ev) as [catch_method|].
  - destruct (exception_is_intended_to_be_reported _ _ _)
      as [[] type_name] eqn:Hint; simpl; [|apply Hnil].
    apply intended_type_name in Hint as (name & -> & _).
    destruct (negb (not_yet_reported _ _)); [apply Hnil|].
    destruct (ee_method_name ev); [|apply Hnil].
    destruct (ee_declaring_class_ok ev); [|apply Hnil].
    destruct (ee_class_signature ev); [|apply Hnil].
    intros [= <- <-]. split.
    + apply (state_wf_same_pending st); [done| |done].
      destruct (ee_tid ev) as [tid|]; simpl.
      * by apply remember_reported_wf.
      * intros tid' buffer Hbuf. change (default 0 None) with 0 in Hbuf.
        destruct (decide (tid' = 0)) as [->|Hne].
        -- revert Hbuf. unfold remember_reported,
             create_exception_buf_for_thread, jthrowable_circular_buf_new,
             jthread_map_push.
           destruct (ee_buf_alloc_ok ev); simpl; [|exact (Hthreads _ _)].
           rewrite lookup_insert_eq. intros [= <-]. split; [|done].
           split; simpl; [done|].
           unfold REPORTED_EXCEPTION_STACK_CAPACITY. simpl. lia.
        -- rewrite remember_reported_lookup_ne in Hbuf by done.
           exact (Hthreads _ _ Hbuf).
    + apply Forall_singleton. split; simpl.
      * left. apply (default_message_prefix (ee_calloc_ok ev) true).
      * apply (default_message_bounded (ee_calloc_ok ev) true).
  - simpl. destruct (negb (not_yet_reported _ _)); [apply Hnil|].
    destruct (ee_method_name ev) as [method_name|]; [|apply Hnil].
    destruct (ee_declaring_class_ok ev); [|apply Hnil].
    destruct (ee_class_signature ev) as [class_signature|]; [|apply Hnil].
    destruct (format_exception_reason_message_of _ _ _ _ _)
      as [message|] eqn:Hmessage; [|done].
    destruct (ee_malloc_ok ev); [|apply Hnil].
    intros [= <- <-]. split; [|done].
    split; simpl; [done|].
    intros tid rpt. unfold jthread_map_push.
    destruct (decide (tid = default 0 (ee_tid ev))) as [->|Hne].
    + rewrite lookup_insert_eq. intros [= <-] msg Hmsg.
      simpl in Hmsg. rewrite Hmsg in Hmessage.
      apply format_exception_reason_message_of_wf in Hmessage as [? ?].
      split; [done|lia].
    + rewrite lookup_insert_ne by done. apply Hpending.
Qed.

Lemma callback_on_exception_catch_wf ev st st' out :
  state_wf st →
  callback_on_exception_catch globalConfig processProperties ev st
  = Some (st', out) →
  state_wf st' ∧ Forall report_wf out.
Proof.
  intros Hwf. pose proof Hwf as [Hthreads Hpending].
  assert (Some (st, @nil T_emit) = Some (st', out) →
          state_wf st' ∧ Forall report_wf out) as Hnil.
  { by intros [= <- <-]. }
  unfold callback_on_exception_catch.
  destruct (jthread_map_empty _); [apply Hnil|].
  destruct (ce_tid ev) as [tid|]; [|apply Hnil].
  destruct (jthread_map_get _ tid) as [rpt|]; [|apply Hnil].
  destruct (negb (ce_object_class_ok ev)); [apply Hnil|].
  destruct (negb (ce_equal_method_ok ev)); [apply Hnil|].
  destruct (_ || _); [apply Hnil|].
  assert (∀ threads,
            (∀ tid' buffer,
               threads !! tid' = Some buffer →
               buf_wf buffer
               ∧ capacity buffer = REPORTED_EXCEPTION_STACK_CAPACITY) →
            state_wf {| threadMap := threads;
                        uncaughtExceptionMap :=
                          (jthread_map_pop (uncaughtExceptionMap st) tid).2 |})
    as Hpopped.
  { intros threads Hbufs. apply (state_wf_same_pending st); [done..|].
    simpl. intros tid' rpt' [_ ?]%lookup_delete_Some. done. }
  assert (∀ threads,
            threads = threadMap st →
            Some ({| threadMap := threads;
                     uncaughtExceptionMap :=
                       (jthread_map_pop (uncaughtExceptionMap st) tid).2 |},
                  @nil T_emit) = Some (st', out) →
            state_wf st' ∧ Forall report_wf out) as Hdrop.
  { intros threads -> [= <- <-]. split; [|done]. by apply Hpopped. }
  destruct (exception_is_intended_to_be_reported _ _ _)
    as [[] type_name] eqn:Hint; simpl; [|by apply Hdrop].
  apply intended_type_name in Hint as (name & -> & _).
  destruct (negb (not_yet_reported _ _)); [by apply Hdrop|].
  destruct (ce_method_name ev); [|by apply Hdrop].
  destruct (ce_declaring_class_ok ev); [|by apply Hdrop].
  destruct (ce_class_signature ev); [|by apply Hdrop].
  intros [= <- <-]. split.
  - apply Hpopped. by apply remember_reported_wf.
  - apply Forall_singleton. split; simpl.
    + left. apply (default_message_prefix (ce_calloc_ok ev) true).
    + apply (default_message_bounded (ce_calloc_ok ev) true).
Qed.

Lemma callback_on_thread_end_wf ev st st' out :
  state_wf st →
  callback_on_thread_end processProperties ev st = (st', out) →
  state_wf st' ∧ Forall report_wf out.
Proof.
  intros Hwf. pose proof Hwf as [Hthreads Hpending].
  destruct (te_tid ev) as [tid|] eqn:Htid.
  - rewrite (callback_on_thread_end_tid _ _ _ _ Htid). intros [= <- <-].
    split.
    + apply (state_wf_same_pending st); [done| |].
      * intros tid' buffer [_ ?]%lookup_delete_Some. by eapply Hthreads.
      * by intros tid' rpt [_ ?]%lookup_delete_Some.
    + destruct (uncaughtExceptionMap st !! tid) as [rpt|] eqn:Hrpt; [|done].
      destruct (in_window tid (exception_object rpt) st); [done|].
      apply Forall_singleton. pose proof (Hpending _ _ Hrpt) as Hmsg.
      unfold pending_wf in Hmsg.
      unfold report_wf. simpl.
      destruct (message rpt) as [msg|]; simpl.
      * destruct (Hmsg msg eq_refl). by split; [right|].
      * split; [by right|]. vm_compute. lia.
  - unfold callback_on_thread_end. rewrite Htid.
    by destruct (_ || _); intros [= <- <-].
Qed.

Lemma step_wf event st st' out :
  state_wf st →
  step event st = Some (st', out) →
  state_wf st' ∧ Forall report_wf out.
Proof.
  intros Hwf. destruct event as [ev|ev|ev]; simpl.
  - by apply callback_on_exception_wf.
  - by apply callback_on_exception_catch_wf.
  - intros [= Hend]. by eapply callback_on_thread_end_wf.
Qed.

Lemma run_wf events st st' out :
  state_wf st →
  run events st = Some (st', out) →
  state_wf st' ∧ Forall report_wf out ∧ (length out ≤ length events)%nat.
Proof.
  revert st out. induction events as [|event events IH]; intros st out Hwf.
  { intros [= <- <-]. by split_and!. }
  rewrite run_cons.
  destruct (step event st) as [[st1 out1]|] eqn:Hstep; [|done].
  destruct (run events st1) as [[st2 out2]|] eqn:Hrun; [|done].
  intros [= <- <-].
  destruct (step_wf _ _ _ _ Hwf Hstep) as [Hwf1 Hout1].
  destruct (IH _ _ Hwf1 Hrun) as (Hwf2 & Hout2 & Hlen).
  split_and!; [done|by apply Forall_app| ].
  pose proof (step_reports_length _ _ _ _ _ _ Hstep).
  rewrite length_app. simpl. lia.
Qed.


Lemma initial_state_wf : state_wf initial_state.
Proof.
  split; simpl; unfold jthread_map_new; intros ?? Hempty;
    by rewrite lookup_empty in Hempty.
Qed.

Lemma reachable_wf st :
  reachable globalConfig processProperties st → state_wf st.
Proof.
  intros (events & out & Hrun).
  by destruct (run_wf _ _ _ _ initial_state_wf Hrun) as [? _].
Qed.

(** A callback changes the entries of the thread it is delivered on only. *)
Lemma step_other_threads event st st' out tid tid' :
  event_tid event = Some tid →
  tid' ≠ tid →
  step event st = Some (st', out) →
  threadMap st' !! tid' = threadMap st !! tid'
  ∧ uncaughtExceptionMap st' !! tid' = uncaughtExceptionMap st !! tid'.
Proof.
  intros Htid Hne.
  assert (Some (st, @nil T_emit) = Some (st', out) →
          threadMap st' !! tid' = threadMap st !! tid'
          ∧ uncaughtExceptionMap st' !! tid' = uncaughtExceptionMap st !! tid')
    as Hnil.
  { by intros [= <- <-]. }
  destruct event as [ev|ev|ev]; simpl in *.
  - unfold callback_on_exception. rewrite Htid. simpl.
    destruct (_ && _); [apply Hnil|].
    destruct (match ee_catch_method ev with
              | Some _ => _
              | None => _
              end) as [[] type_name]; simpl; [|apply Hnil].
    destruct (negb (not_yet_reported _ _)); [apply Hnil|].
    destruct (ee_method_name ev); [|apply Hnil].
    destruct (ee_declaring_class_ok ev); [|apply Hnil].
    destruct (ee_class_signature ev); [|apply Hnil].
    destruct (format_exception_reason_message_of _ _ _ _ _); [|done].
    destruct (ee_catch_method ev).
    + intros [= <- <-]. simpl.
      by rewrite remember_reported_lookup_ne.
    + destruct (ee_malloc_ok ev); [|apply Hnil].
      intros [= <- <-]. simpl. unfold jthread_map_push.
      by rewrite lookup_insert_ne.
  - unfold callback_on_exception_catch. rewrite Htid.
    destruct (jthread_map_empty _); [apply Hnil|].
    destruct (jthread_map_get _ tid) as [rpt|]; [|apply Hnil].
    destruct (negb (ce_object_class_ok ev)); [apply Hnil|].
    destruct (negb (ce_equal_method_ok ev)); [apply Hnil|].
    destruct (_ || _); [apply Hnil|].
    assert (∀ threads,
              threads !! tid' = threadMap st !! tid' →
              ∀ reports,
                Some ({| threadMap := threads;
                         uncaughtExceptionMap :=
                           (jthread_map_pop (uncaughtExceptionMap st) tid).2 |},
                      reports) = Some (st', out) →
                threadMap st' !! tid' = threadMap st !! tid'
                ∧ uncaughtExceptionMap st' !! tid'
                  = uncaughtExceptionMap st !! tid') as Hpop.
    { intros threads Hthreads reports [= <- <-]. simpl. split; [done|].
      by rewrite lookup_delete_ne. }
    destruct (exception_is_intended_to_be_reported _ _ _)
      as [[] type_name]; simpl; [|by apply Hpop].
    destruct (negb (not_yet_reported _ _)); [by apply Hpop|].
    destruct (ce_method_name ev); [|by apply Hpop].
    destruct (ce_declaring_class_ok ev); [|by apply Hpop].
    destruct (ce_class_signature ev); [|by apply Hpop].
    destruct (format_exception_reason_message_of _ _ _ _ _); [|done].
    apply Hpop. by rewrite remember_reported_lookup_ne.
  - rewrite (callback_on_thread_end_tid _ _ _ _ Htid). intros [= <- <-].
    simpl. by rewrite !lookup_delete_ne.
Qed.

(** A report made at a throw or at a catch leaves its exception in the
    buffer of the thread, provided the buffer can be allocated. *)
Lemma step_reported_in_window event st st' out tid report :
  state_wf st →
  event_tid event = Some tid →
  ends_thread event = false →
  buffer_allocation_ok event →
  step event st = Some (st', out) →
  report ∈ out →
  in_window tid (emit_exception report) st' = true.
Proof.
  intros [Hthreads _] Htid Hthrown Halloc.
  assert (∀ buffer, threadMap st !! tid = Some buffer → buf_wf buffer)
    as Hbuf.
  { intros buffer Hsome. by destruct (Hthreads _ _ Hsome). }
  assert (Some (st, @nil T_emit) = Some (st', out) →
          report ∈ out → in_window tid (emit_exception report) st' = true)
    as Hnil.
  { by intros [= <- <-] ?%elem_of_nil. }
  destruct event as [ev|ev|ev]; simpl in *; [| |done].
  - unfold callback_on_exception. rewrite Htid. simpl.
    destruct (_ && _); [apply Hnil|].
    destruct (match ee_catch_method ev with
              | Some _ => _
              | None => _
              end) as [[] type_name]; simpl; [|apply Hnil].
    destruct (negb (not_yet_reported _ _)); [apply Hnil|].
    destruct (ee_method_name ev); [|apply Hnil].
    destruct (ee_declaring_class_ok ev); [|apply Hnil].
    destruct (ee_class_signature ev); [|apply Hnil].
    destruct (format_exception_reason_message_of _ _ _ _ _); [|done].
    destruct (ee_catch_method ev).
    + intros [= <- <-] ->%list_elem_of_singleton. simpl.
      exact (remember_reported_in_window _ tid _ st _ Hbuf (λ _, Halloc)
               eq_refl _).
    + destruct (ee_malloc_ok ev); [|apply Hnil].
      by intros [= <- <-] ?%elem_of_nil.
  - unfold callback_on_exception_catch. rewrite Htid.
    destruct (jthread_map_empty _); [apply Hnil|].
    destruct (jthread_map_get _ tid) as [rpt|]; [|apply Hnil].
    destruct (negb (ce_object_class_ok ev)); [apply Hnil|].
    destruct (negb (ce_equal_method_ok ev)); [apply Hnil|].
    destruct (_ || _); [apply Hnil|].
    assert (∀ st0 : T_state,
              Some (st0, @nil T_emit) = Some (st', out) →
              report ∈ out → in_window tid (emit_exception report) st' = true)
      as Hdrop.
    { by intros st0 [= <- <-] ?%elem_of_nil. }
    destruct (exception_is_intended_to_be_reported _ _ _)
      as [[] type_name]; simpl; [|apply Hdrop].
    destruct (negb (not_yet_reported _ _)); [apply Hdrop|].
    destruct (ce_method_name ev); [|apply Hdrop].
    destruct (ce_declaring_class_ok ev); [|apply Hdrop].
    destruct (ce_class_signature ev); [|apply Hdrop].
    destruct (format_exception_reason_message_of _ _ _ _ _); [|done].
    intros [= <- <-] ->%list_elem_of_singleton. simpl.
    exact (remember_reported_in_window _ tid _ st _ Hbuf (λ _, Halloc)
             eq_refl _).
Qed.

End Engine.

(** X1. A callback delivered on thread [tid] leaves the buffer and the
    pending report of every other thread as they are. *)
Theorem X1_step_leaves_other_threads
  (globalConfig : T_configuration) (processProperties : T_processProperties)
  (event : T_event) (st st' : T_state) (out : list T_emit) (tid tid' : Z) :
  event_tid event = Some tid →
  tid' ≠ tid →
  step globalConfig processProperties event st = Some (st', out) →
  jthread_map_get (threadMap st') tid' = jthread_map_get (threadMap st) tid'
  ∧ jthread_map_get (uncaughtExceptionMap st') tid'
    = jthread_map_get (uncaughtExceptionMap st) tid'.
Proof. apply step_other_threads. Qed.

(** Thread 8 keeps its pending report while thread 7 throws. *)
Lemma X1_step_leaves_other_threads_witness :
  let st := {| threadMap := ∅;
               uncaughtExceptionMap :=
                 {[ 8 := {| message := None; stacktrace := None;
                            executable := None;
                            exception_type_name := Some "java.lang.Error";
                            additional_info := None;
                            exception_object := 1%N |} ]} |} in
  ∃ st' out,
    step default_config sample_process
      (OnException (sample_exception 7 2%N None "java.lang.Error")) st
    = Some (st', out)
    ∧ jthread_map_get (uncaughtExceptionMap st') 8
      = jthread_map_get (uncaughtExceptionMap st) 8.
Proof.
  intros st.
  destruct (step default_config sample_process
              (OnException (sample_exception 7 2%N None "java.lang.Error")) st)
    as [[st' out]|] eqn:Hstep; [|discriminate Hstep].
  exists st', out. split; [reflexivity|].
  apply (X1_step_leaves_other_threads default_config sample_process
           (OnException (sample_exception 7 2%N None "java.lang.Error"))
           st st' out 7 8 eq_refl); [discriminate|exact Hstep].
Defined.

(** X2. [callback_on_thread_end] does nothing when the id of the thread
    cannot be read. Otherwise it removes the buffer and the pending report of
    the thread, so that nothing of the thread outlives the call, and a second
    thread end for the same thread changes nothing and reports nothing. *)
Theorem X2_thread_end_removes_the_thread
  (processProperties : T_processProperties)
  (ev : T_threadEndEvent) (st : T_state) :
  (te_tid ev = None →
   callback_on_thread_end processProperties ev st = (st, []))
  ∧ (∀ tid,
       te_tid ev = Some tid →
       ∃ st' out,
         callback_on_thread_end processProperties ev st = (st', out)
         ∧ jthread_map_get (threadMap st') tid = None
         ∧ jthread_map_get (uncaughtExceptionMap st') tid = None
         ∧ callback_on_thread_end processProperties ev st' = (st', [])).
Proof.
  split.
  - intros Htid. unfold callback_on_thread_end. rewrite Htid.
    by destruct (_ || _).
  - intros tid Htid. do 2 eexists. split.
    { apply (callback_on_thread_end_tid _ _ _ _ Htid). }
    unfold jthread_map_get. simpl. rewrite !lookup_delete_eq.
    split_and!; [done..|].
    rewrite (callback_on_thread_end_tid _ _ _ _ Htid). simpl.
    by rewrite !lookup_delete_eq, !delete_delete_eq.
Qed.

(** The end of thread 7, which has a buffer and a pending report. *)
Lemma X2_thread_end_removes_the_thread_witness :
  let st :=
    {| threadMap :=
         {[ 7 := {| capacity := 5; next_slot := 1;
                    mem := [Some 2%N; None; None; None; None] |} ]};
       uncaughtExceptionMap :=
         {[ 7 := {| message := None; stacktrace := None; executable := None;
                    exception_type_name := Some "java.lang.Error";
                    additional_info := None;
                    exception_object := 1%N |} ]} |} in
  ∃ st' out,
    callback_on_thread_end sample_process {| te_tid := Some 7 |} st
    = (st', out)
    ∧ jthread_map_get (threadMap st') 7 = None
    ∧ jthread_map_get (uncaughtExceptionMap st') 7 = None
    ∧ callback_on_thread_end sample_process {| te_tid := Some 7 |} st'
      = (st', []).
Proof.
  intros st.
  exact (proj2 (X2_thread_end_removes_the_thread sample_process
                  {| te_tid := Some 7 |} st) 7 eq_refl).
Defined.



(** X4. In every reachable state, a report made at a throw or at a catch on
    a thread whose id can be read leaves the exception in the buffer of the
    thread, unless the buffer cannot be allocated; the next event on the
    thread therefore makes no report about that exception. A report made at
    the end of a thread leaves the thread without buffer and without pending
    report: the exception is in no buffer of the thread afterwards. *)
Theorem X4_reported_exception_enters_the_window
  (globalConfig : T_configuration) (processProperties : T_processProperties)
  (event : T_event) (st st' : T_state) (out : list T_emit) (tid : Z)
  (report : T_emit) :
  reachable globalConfig processProperties st →
  event_tid event = Some tid →
  step globalConfig processProperties event st = Some (st', out) →
  report ∈ out →
  (ends_thread event = false →
   buffer_allocation_ok event →
   in_window tid (emit_exception report) st' = true
   ∧ ∀ event' st'' out',
       event_tid event' = Some tid →
       step globalConfig processProperties event' st' = Some (st'', out') →
       reports_of (emit_exception report) out' = [])
  ∧ (ends_thread event = true →
     in_window tid (emit_exception report) st' = false
     ∧ jthread_map_get (threadMap st') tid = None
     ∧ jthread_map_get (uncaughtExceptionMap st') tid = None).
Proof.
  intros Hreach Htid Hstep Hin. split.
  - intros Hthrown Halloc.
    assert (in_window tid (emit_exception report) st' = true) as Hwin.
    { eapply step_reported_in_window; [|done..]. by eapply reachable_wf. }
    split; [done|]. intros event' st'' out' Htid' Hstep'.
    by eapply step_in_window.
  - intros Hend. destruct event as [ev|ev|ev]; [done..|].
    simpl in Htid, Hstep.
    rewrite (callback_on_thread_end_tid _ _ _ _ Htid) in Hstep.
    injection Hstep as <- _. unfold in_window, jthread_map_get. simpl.
    by rewrite !lookup_delete_eq.
Qed.

(** A caught [Error] that is to be reported, thrown on thread 7; and an
    [Error] thrown at top level and reported at the end of the thread. *)
Lemma X4_reported_exception_enters_the_window_witness :
  (∃ st' report,
     step (config_reporting ["java.lang.Error"]) sample_process
       (OnException (sample_exception 7 1%N (Some 3%N) "java.lang.Error"))
       initial_state
     = Some (st', [report])
     ∧ in_window 7 (emit_exception report) st' = true)
  ∧ (∃ st1 st2 report,
       step default_config sample_process
         (OnException (sample_exception 7 1%N None "java.lang.Error"))
         initial_state
       = Some (st1, [])
       ∧ step default_config sample_process
           (OnThreadEnd {| te_tid := Some 7 |}) st1
         = Some (st2, [report])
       ∧ in_window 7 (emit_exception report) st2 = false).
Proof.
  split.
  - destruct (step (config_reporting ["java.lang.Error"]) sample_process
                (OnException
                   (sample_exception 7 1%N (Some 3%N) "java.lang.Error"))
                initial_state)
      as [[st' [|report [|]]]|] eqn:Hstep; try discriminate Hstep.
    exists st', report. split; [reflexivity|].
    refine (proj1 (proj1 (X4_reported_exception_enters_the_window
                            (config_reporting ["java.lang.Error"])
                            sample_process
                            (OnException
                               (sample_exception 7 1%N (Some 3%N)
                                  "java.lang.Error"))
                            initial_state st' [report] 7 report
                            _ eq_refl Hstep _) eq_refl eq_refl)).
    + exists [], []. reflexivity.
    + constructor.
  - destruct (step default_config sample_process
                (OnException (sample_exception 7 1%N None "java.lang.Error"))
                initial_state)
      as [[st1 [|]]|] eqn:Hthrow; try discriminate Hthrow.
    destruct (step default_config sample_process
                (OnThreadEnd {| te_tid := Some 7 |}) st1)
      as [[st2 [|report [|]]]|] eqn:Hend.
    2: { exists st1, st2, report. split; [reflexivity|].
         split; [exact Hend|].
         refine (proj1 (proj2 (X4_reported_exception_enters_the_window
                                 default_config sample_process
                                 (OnThreadEnd {| te_tid := Some 7 |})
                                 st1 st2 [report] 7 report
                                 _ eq_refl Hend _) eq_refl)).
         - exists [OnException
                     (sample_exception 7 1%N None "java.lang.Error")], [].
           simpl. unfold step in Hthrow. rewrite Hthrow. reflexivity.
         - constructor. }
    all: exfalso; injection Hthrow as <-; vm_compute in Hend;
      discriminate Hend.
Defined.

(** ** Class names *)

Section ClassNames.

Import CString.

Lemma until_nul_app s t :
  nul_free s → until_nul (s +:+ t) = s +:+ until_nul t.
Proof.
  unfold nul_free. induction s as [|a s IH]; simpl; [done|].
  destruct (Ascii.eqb a Ascii.zero); [done|].
  intros [= Hs]. by rewrite IH.
Qed.

Lemma nul_free_app s t : nul_free s → nul_free t → nul_free (s +:+ t).
Proof.
  intros Hs Ht. unfold nul_free. rewrite until_nul_app by done. by rewrite Ht.
Qed.

Lemma nul_free_cons a s : nul_free (String a s) → a ≠ Ascii.zero ∧ nul_free s.
Proof.
  unfold nul_free. simpl. destruct (Ascii.eqb a Ascii.zero) eqn:Ha; [done|].
  intros [= Hs]. split; [|done]. intros ->. by rewrite Ascii.eqb_refl in Ha.
Qed.

Lemma nul_free_replace_all old new s :
  new ≠ Ascii.zero → nul_free s → nul_free (replace_all old new s).
Proof.
  intros Hnew. unfold nul_free. induction s as [|a s IH]; simpl; [done|].
  destruct (Ascii.eqb a Ascii.zero) eqn:Ha; [done|]. intros [= Hs].
  destruct (Ascii.eqb a old).
  - apply Ascii.eqb_neq in Hnew as ->. by rewrite IH.
  - rewrite Ha. by rewrite IH.
Qed.

Lemma replace_all_app old new s t :
  replace_all old new (s +:+ t) = replace_all old new s +:+ replace_all old new t.
Proof. induction s as [|a s IH]; simpl; [done|]. by rewrite IH. Qed.

Lemma replace_last_snoc old new s c :
  replace_last old new (s +:+ String c EmptyString)
  = s +:+ String (if Ascii.eqb c old then new else c) EmptyString.
Proof.
  induction s as [|a s IH]; simpl; [done|]. rewrite IH.
  by destruct s.
Qed.

Lemma drop_last_snoc s c : drop_last (s +:+ String c EmptyString) = s.
Proof.
  induction s as [|a s IH]; simpl; [done|]. rewrite IH. by destruct s.
Qed.

(** A string is empty or ends with some byte. *)
Lemma string_snoc_cases s :
  s = EmptyString ∨ ∃ s' c, s = s' +:+ String c EmptyString.
Proof.
  induction s as [|a s IH]; [by left|]. right.
  destruct IH as [->|(s' & c & ->)].
  - by exists EmptyString, a.
  - by exists (String a s'), c.
Qed.

Lemma replace_all_absent old new s :
  old ≠ new → absent old (replace_all old new s).
Proof.
  intros Hne. unfold absent. induction s as [|a s IH]; simpl; [done|].
  rewrite IH. destruct (Ascii.eqb a old) eqn:Ha.
  - assert (Ascii.eqb new old = false) as ->; [|done].
    apply Ascii.eqb_neq. congruence.
  - by rewrite Ha.
Qed.

Lemma absent_cons c a s : absent c (String a s) → a ≠ c ∧ absent c s.
Proof.
  unfold absent. simpl. destruct (strrchr s c); [done|].
  destruct (Ascii.eqb a c) eqn:Ha; [done|]. intros _.
  split; [|done]. intros ->. by rewrite Ascii.eqb_refl in Ha.
Qed.

Lemma replace_all_id old new s : absent old s → replace_all old new s = s.
Proof.
  induction s as [|a s IH]; simpl; [done|].
  intros [Ha Hs]%absent_cons. rewrite IH by done.
  by apply Ascii.eqb_neq in Ha as ->.
Qed.

(** Replacing [a] by [b] and then [b] by [a] leaves no [b]. *)
Lemma replace_all_back a b s :
  replace_all b a (replace_all a b s) = replace_all b a s.
Proof.
  induction s as [|c s IH]; simpl; [done|]. rewrite IH. f_equal.
  destruct (Ascii.eqb c a) eqn:Hca.
  - apply Ascii.eqb_eq in Hca as ->. rewrite Ascii.eqb_refl.
    by destruct (Ascii.eqb a b).
  - done.
Qed.

Lemma strlen_replace_all old new s :
  strlen (replace_all old new s) = strlen s.
Proof.
  unfold strlen. induction s as [|a s IH]; simpl; [done|]. by rewrite IH.
Qed.

Lemma append_nil_r s : s +:+ EmptyString = s.
Proof.
  induction s as [|a s IH]; [done|].
  change (String a (s +:+ EmptyString) = String a s). by rewrite IH.
Qed.

(** [format_class_name] with the test of the first byte spelled out. *)
Lemma format_class_name_unfold class_signature replace_to :
  format_class_name class_signature replace_to
  = until_nul
      (let written :=
         replace_last ";"%char replace_to
           (replace_all "/"%char "."%char class_signature) in
       if starts_with_L class_signature then next written else written).
Proof.
  unfold format_class_name. f_equal.
  destruct class_signature as [|c rest]; [done|].
  destruct c as [[] [] [] [] [] [] [] []]; reflexivity.
Qed.

(** A final byte other than [old] is left alone. *)
Lemma replace_last_other old new s c :
  c ≠ old →
  replace_last old new (s +:+ String c EmptyString)
  = s +:+ String c EmptyString.
Proof.
  intros Hne. rewrite replace_last_snoc.
  by apply Ascii.eqb_neq in Hne as ->.
Qed.

Lemma replace_all_replace_last s :
  replace_all "/"%char "."%char (replace_last ";"%char "."%char s)
  = replace_last ";"%char "."%char (replace_all "/"%char "."%char s).
Proof.
  destruct (string_snoc_cases s) as [->|(s' & c & ->)]; [done|].
  rewrite replace_last_snoc, !replace_all_app. simpl.
  rewrite replace_last_snoc.
  destruct (Ascii.eqb c ";"%char) eqn:Hc.
  - by apply Ascii.eqb_eq in Hc as ->.
  - destruct (Ascii.eqb c "/"%char); [done|]. by rewrite Hc.
Qed.

Lemma replace_last_cons old new a s :
  s ≠ EmptyString →
  replace_last old new (String a s) = String a (replace_last old new s).
Proof. by destruct s. Qed.

End ClassNames.

(** X5. For the signature [L<name>;] of a class, [callback_on_exception]
    (which asks [format_class_name] for a final ['.'] and cuts it) and
    [callback_on_exception_catch] (which asks for a final NUL) obtain the same
    class name: [<name>] with every ['/'] turned into ['.']. For a signature
    that does not end in [';'] the byte asked for is not written, so that
    [callback_on_exception] cuts the last byte of the name itself. *)
Theorem X5_class_name_of_a_class_signature :
  (∀ name,
     nul_free name →
     format_class_name ("L" +:+ name +:+ ";") "."%char
     = CString.replace_all "/"%char "."%char name +:+ "."
     ∧ CString.drop_last (format_class_name ("L" +:+ name +:+ ";") "."%char)
       = CString.replace_all "/"%char "."%char name
     ∧ format_class_name ("L" +:+ name +:+ ";") Ascii.zero
       = CString.replace_all "/"%char "."%char name)
  ∧ (∀ class_signature,
       (∀ s, class_signature ≠ s +:+ ";") →
       format_class_name class_signature "."%char
       = format_class_name class_signature Ascii.zero).
Proof.
  split.
  - intros name Hname.
    assert (∀ replace_to,
              format_class_name ("L" +:+ name +:+ ";") replace_to
              = CString.replace_all "/"%char "."%char name
                +:+ CString.until_nul (String replace_to EmptyString))
      as Hformat.
    { intros replace_to. rewrite format_class_name_unfold.
      change ("L" +:+ name +:+ ";") with (String "L"%char (name +:+ ";")).
      change (starts_with_L (String "L"%char (name +:+ ";"))) with true.
      cbv zeta.
      change (CString.replace_all "/"%char "."%char
                (String "L"%char (name +:+ ";")))
        with (String "L"%char EmptyString
              +:+ CString.replace_all "/"%char "."%char (name +:+ ";")).
      rewrite replace_all_app.
      change (CString.replace_all "/"%char "."%char ";") with ";".
      change (String "L"%char EmptyString
              +:+ CString.replace_all "/"%char "."%char name +:+ ";")
        with (String "L"%char (CString.replace_all "/"%char "."%char name)
              +:+ ";").
      rewrite replace_last_snoc.
      change (CString.next
                (String "L"%char (CString.replace_all "/"%char "."%char name)
                 +:+ String (if Ascii.eqb ";" ";" then replace_to else ";"%char)
                       EmptyString))
        with (CString.replace_all "/"%char "."%char name
              +:+ String replace_to EmptyString).
      apply until_nul_app, nul_free_replace_all; done. }
    rewrite !Hformat.
    change (CString.until_nul (String "."%char EmptyString)) with ".".
    change (CString.until_nul (String Ascii.zero EmptyString))
      with EmptyString.
    split_and!; [done| |apply append_nil_r].
    apply drop_last_snoc.
  - intros class_signature Hlast. rewrite !format_class_name_unfold.
    destruct (string_snoc_cases class_signature) as [->|(s & c & ->)];
      [done|].
    assert (c ≠ ";"%char) as Hc by (intros ->; by apply (Hlast s)).
    rewrite replace_all_app. simpl.
    rewrite !replace_last_other; [done|..];
      destruct (Ascii.eqb c "/"%char); done.
Qed.

(** [java/lang/String] in both forms, and the signature of an array. *)
Lemma X5_class_name_of_a_class_signature_witness :
  CString.drop_last (format_class_name "Ljava/lang/String;" "."%char)
  = "java.lang.String"
  ∧ format_class_name "Ljava/lang/String;" Ascii.zero = "java.lang.String"
  ∧ format_class_name "[I" "."%char = format_class_name "[I" Ascii.zero.
Proof.
  destruct X5_class_name_of_a_class_signature as [Hclass Hother].
  destruct (Hclass "java/lang/String" eq_refl) as (_ & Hthrow & Hcatch).
  split_and!; [exact Hthrow|exact Hcatch|].
  apply Hother. intros s Hs.
  destruct s as [|a [|b [|c s]]]; discriminate Hs.
Defined.

(** X6. [string_replace] of ['.'] by ['/'] keeps the length of a class name
    and leaves no ['.']. Turning the slashes back into dots restores a name
    that had no slash, and turning dots into slashes once more, as
    [print_stack_trace_element] does around its second lookup, gives the same
    string as the first time. *)
Theorem X6_string_replace_round_trip (class_name : string) :
  nul_free class_name →
  CString.strlen (string_replace class_name "."%char "/"%char)
  = CString.strlen class_name
  ∧ absent "."%char (string_replace class_name "."%char "/"%char)
  ∧ string_replace
      (string_replace (string_replace class_name "."%char "/"%char)
         "/"%char "."%char) "."%char "/"%char
    = string_replace class_name "."%char "/"%char
  ∧ (absent "/"%char class_name →
     string_replace (string_replace class_name "."%char "/"%char)
       "/"%char "."%char = class_name).
Proof.
  intros Hname. unfold string_replace.
  assert (∀ old new s,
            new ≠ Ascii.zero → nul_free s →
            CString.until_nul (CString.replace_all old new s)
            = CString.replace_all old new s) as Hid.
  { intros old new s Hnew Hs. by apply nul_free_replace_all. }
  rewrite (Hid "."%char "/"%char) by done.
  rewrite (Hid "/"%char "."%char)
    by (try apply nul_free_replace_all; done).
  rewrite (Hid "."%char "/"%char)
    by (repeat apply nul_free_replace_all; done).
  split_and!.
  - apply strlen_replace_all.
  - by apply replace_all_absent.
  - rewrite replace_all_back. by apply replace_all_id, replace_all_absent.
  - intros Hslash. rewrite replace_all_back. by apply replace_all_id.
Qed.

(** The name of a nested class. *)
Lemma X6_string_replace_round_trip_witness :
  string_replace (string_replace "java.util.Map$Entry" "."%char "/"%char)
    "/"%char "."%char = "java.util.Map$Entry".
Proof.
  apply (X6_string_replace_round_trip "java.util.Map$Entry" eq_refl).
  reflexivity.
Defined.

(** X7. [format_class_name_for_JNI_call] returns NULL for NULL and reads
    before the string when the signature is empty. For any other signature
    it returns the name that [format_class_name] would return with a final
    ['.'], except that the slashes are kept: turning them into dots gives
    the result of [format_class_name]. *)
Theorem X7_class_name_for_jni_keeps_the_slashes :
  format_class_name_for_JNI_call None = Some None
  ∧ format_class_name_for_JNI_call (Some EmptyString) = None
  ∧ ∀ class_signature,
      class_signature ≠ EmptyString →
      nul_free class_signature →
      ∃ output,
        format_class_name_for_JNI_call (Some class_signature)
        = Some (Some output)
        ∧ format_class_name class_signature "."%char
          = string_replace output "/"%char "."%char.
Proof.
  split_and!; [done..|]. intros class_signature Hne Hnul.
  destruct class_signature as [|c rest]; [done|].
  eexists. split; [done|].
  rewrite format_class_name_unfold. unfold string_replace.
  cbn [starts_with_L]. f_equal.
  destruct (Ascii.eqb c "L"%char) eqn:Hc.
  - apply Ascii.eqb_eq in Hc as ->. simpl CString.next at 2.
    rewrite replace_all_replace_last.
    destruct rest as [|a rest]; [done|].
    change (CString.replace_all "/"%char "."%char (String "L"%char (String a rest)))
      with (String "L"%char
              (CString.replace_all "/"%char "."%char (String a rest))).
    by rewrite replace_last_cons.
  - by rewrite replace_all_replace_last.
Qed.

(** The signature of [java.lang.String]. *)
Lemma X7_class_name_for_jni_keeps_the_slashes_witness :
  format_class_name_for_JNI_call (Some "Ljava/lang/String;")
  = Some (Some "java/lang/String.")
  ∧ format_class_name "Ljava/lang/String;" "."%char
    = string_replace "java/lang/String." "/"%char "."%char.
Proof.
  destruct (proj2 (proj2 X7_class_name_for_jni_keeps_the_slashes)
              "Ljava/lang/String;" ltac:(discriminate) eq_refl)
    as (output & Hcall & Hsame).
  injection Hcall as <-. split; [reflexivity|exact Hsame].
Defined.

(** ** Paths *)

Section Paths.

Import CString.

Lemma append_cons a s t : String a s +:+ t = String a (s +:+ t).
Proof. done. Qed.

Lemma append_nil_l s : EmptyString +:+ s = s.
Proof. done. Qed.

Lemma append_assoc s t u : (s +:+ t) +:+ u = s +:+ t +:+ u.
Proof.
  induction s as [|a s IH]; [done|]. rewrite !append_cons. by rewrite IH.
Qed.

Lemma take_append s t n :
  take (strlen s + n) (s +:+ t) = s +:+ take n t.
Proof.
  unfold strlen. induction s as [|a s IH]; [done|].
  rewrite !append_cons. simpl. by rewrite IH.
Qed.

Lemma take_all s : take (strlen s) s = s.
Proof. unfold strlen. induction s as [|a s IH]; simpl; [done|]. by rewrite IH. Qed.


(** The bytes [".jar!"] cannot begin inside [x] and end in a [".jar!"] that
    follows [x]. *)
Lemma starts_with_jar_append x rest :
  x ≠ EmptyString →
  starts_with ".jar!" x = false →
  starts_with ".jar!" (x +:+ ".jar!" +:+ rest) = false.
Proof.
  intros Hx.
  destruct x as [|c1 [|c2 [|c3 [|c4 [|c5 x]]]]]; [done|..];
    rewrite ?append_cons, ?append_nil_l; cbn [starts_with];
    repeat match goal with
           | |- context [Ascii.eqb ?a ?c] =>
               is_var c; destruct (Ascii.eqb a c)
           end;
    first [reflexivity | done].
Qed.

Lemma strstr_jar path rest :
  strstr path ".jar!" = None →
  strstr (path +:+ ".jar!" +:+ rest) ".jar!" = Some (strlen path).
Proof.
  unfold strlen. induction path as [|c path IH]; [done|].
  intros Hnone. rewrite append_cons.
  change (strstr (String c path) ".jar!")
    with (if starts_with ".jar!" (String c path) then Some 0%nat
          else S <$> strstr path ".jar!") in Hnone.
  change (strstr (String c (path +:+ ".jar!" +:+ rest)) ".jar!")
    with (if starts_with ".jar!" (String c (path +:+ ".jar!" +:+ rest))
          then Some 0%nat
          else S <$> strstr (path +:+ ".jar!" +:+ rest) ".jar!").
  destruct (starts_with ".jar!" (String c path)) eqn:Hhere; [done|].
  rewrite <-append_cons, starts_with_jar_append by done.
  destruct (strstr path ".jar!"); [done|]. by rewrite IH.
Qed.

Lemma strstr_jar_cons c s :
  c ≠ "."%char → strstr (String c s) ".jar!" = S <$> strstr s ".jar!".
Proof.
  intros Hc.
  change (strstr (String c s) ".jar!")
    with (if Ascii.eqb "." c && starts_with "jar!" s then Some 0%nat
          else S <$> strstr s ".jar!").
  assert (Ascii.eqb "." c = false) as ->; [|done].
  apply Ascii.eqb_neq. congruence.
Qed.

Lemma strstr_file path :
  strstr path ".jar!" = None → strstr ("file:" +:+ path) ".jar!" = None.
Proof.
  intros Hnone. rewrite !append_cons, append_nil_l.
  rewrite !strstr_jar_cons by done. by rewrite Hnone.
Qed.

(** A proper prefix of ["file:"] is not completed by [".jar"]. *)
Lemma starts_with_file_append path :
  starts_with "file:" path = false →
  starts_with "file:" (path +:+ ".jar") = false.
Proof.
  destruct path as [|c1 [|c2 [|c3 [|c4 [|c5 x]]]]];
    rewrite ?append_cons, ?append_nil_l; cbn [starts_with];
    repeat match goal with
           | |- context [Ascii.eqb ?a ?c] =>
               is_var c; destruct (Ascii.eqb a c)
           end;
    first [reflexivity | done].
Qed.

Lemma strcpy_fits room src :
  (strlen src + 1 ≤ room)%nat → strcpy room src = Some src.
Proof. intros Hfits. unfold strcpy. by apply Nat.leb_le in Hfits as ->. Qed.

Lemma take_jar path entry :
  take (strlen path + 4) (path +:+ ".jar!" +:+ entry) = path +:+ ".jar".
Proof. by rewrite take_append. Qed.

Lemma extract_fs_path_jar_url path entry :
  strstr path ".jar!" = None →
  extract_fs_path ("file:" +:+ path +:+ ".jar!" +:+ entry) = path +:+ ".jar".
Proof.
  intros Hnone. unfold extract_fs_path.
  rewrite <-append_assoc, strstr_jar by by apply strstr_file.
  by rewrite take_jar, append_assoc.
Qed.


End Paths.

(** X8. For the URL of a class inside a jar, [file:<path>.jar!<entry>] where
    [<path>] has no [".jar!"] inside, [extract_fs_path] returns
    [<path>.jar], and so it does when the scheme is missing. For a plain
    [file:] URL it returns the path. *)
Theorem X8_extract_fs_path_of_a_jar_url (path entry : string) :
  strstr path ".jar!" = None →
  extract_fs_path ("file:" +:+ path +:+ ".jar!" +:+ entry) = path +:+ ".jar"
  ∧ (starts_with "file:" path = false →
     extract_fs_path (path +:+ ".jar!" +:+ entry) = path +:+ ".jar")
  ∧ extract_fs_path ("file:" +:+ path) = path.
Proof.
  intros Hnone. split_and!.
  - by apply extract_fs_path_jar_url.
  - unfold extract_fs_path. intros Hscheme. rewrite strstr_jar by done.
    by rewrite take_jar, starts_with_file_append.
  - unfold extract_fs_path. by rewrite strstr_file.
Qed.

(** The URL of the comment above [extract_fs_path]. *)
Lemma X8_extract_fs_path_of_a_jar_url_witness :
  extract_fs_path
    "file:/home/tester/abrt_connector/bin/JarTest.jar!/SimpleTest.class"
  = "/home/tester/abrt_connector/bin/JarTest.jar".
Proof.
  exact (proj1 (X8_extract_fs_path_of_a_jar_url
                  "/home/tester/abrt_connector/bin/JarTest"
                  "/SimpleTest.class" eq_refl)).
Defined.



(** ** Numbers, thread names and the log file *)

Section Numbers.

Import CString.

Lemma to_int_small n : 0 ≤ n ≤ INT_MAX → to_int n = n.
Proof. unfold to_int, INT_MAX. intros Hn. rewrite Z.mod_small; lia. Qed.

Lemma to_int_large n :
  INT_MAX < n < 4294967296 → to_int n = n - 4294967296.
Proof.
  unfold to_int, INT_MAX. intros Hn.
  replace (n + 2147483648) with (n - 2147483648 + 1 * 4294967296) by lia.
  rewrite Z.mod_add by lia. rewrite Z.mod_small; lia.
Qed.

(** A number below [10^k] has at most [k] digits. *)
Lemma decimal_digits_at_most fuel (k : nat) n :
  (1 ≤ k)%nat → 0 ≤ n < 10 ^ Z.of_nat k →
  (strlen (decimal_digits fuel n) ≤ k)%nat.
Proof.
  revert k n. induction fuel as [|fuel IH]; intros k n Hk Hn.
  { unfold strlen. simpl. lia. }
  cbn [decimal_digits]. rewrite strlen_append.
  change (strlen (String (digit (n mod 10)) EmptyString)) with 1%nat.
  destruct (n <? 10) eqn:Hsmall.
  { change (strlen EmptyString) with 0%nat. lia. }
  apply Z.ltb_ge in Hsmall.
  destruct k as [|[|k]]; [lia|simpl in Hn; lia|].
  assert (strlen (decimal_digits fuel (n / 10)) ≤ S k)%nat; [|lia].
  apply IH; [lia|].
  rewrite (Nat2Z.inj_succ (S k)), Z.pow_succ_r in Hn by lia.
  split; [apply Z.div_pos; lia|].
  apply Z.div_lt_upper_bound; lia.
Qed.

(** A number from [10^(k-1)] on has at least [k] digits, when the fuel
    allows for them. *)
Lemma decimal_digits_at_least fuel (k : nat) n :
  (k ≤ fuel)%nat → 10 ^ (Z.of_nat k - 1) ≤ n →
  (k ≤ strlen (decimal_digits fuel n))%nat.
Proof.
  revert k n. induction fuel as [|fuel IH]; intros k n Hk Hn; [lia|].
  cbn [decimal_digits]. rewrite strlen_append.
  change (strlen (String (digit (n mod 10)) EmptyString)) with 1%nat.
  destruct k as [|[|k]]; [lia..|].
  assert (10 ≤ n) as Hten.
  { etrans; [|exact Hn].
    replace (Z.of_nat (S (S k)) - 1) with (Z.succ (Z.of_nat k)) by lia.
    rewrite Z.pow_succ_r by lia.
    assert (0 < 10 ^ Z.of_nat k) by (apply Z.pow_pos_nonneg; lia). lia. }
  apply Z.ltb_ge in Hten as Hsmall. rewrite Hsmall.
  assert (S k ≤ strlen (decimal_digits fuel (n / 10)))%nat; [|lia].
  apply IH; [lia|].
  apply Z.div_le_lower_bound; [lia|].
  replace (Z.of_nat (S (S k)) - 1) with (Z.succ (Z.of_nat (S k) - 1)) in Hn
    by lia.
  rewrite Z.pow_succ_r in Hn by lia. lia.
Qed.

(** [%d] prints at most eleven bytes for an [int], and at most ten for one
    above [-10^9]. *)
Lemma sprintf_d_at_most n :
  INT_MIN ≤ n ≤ INT_MAX → (strlen (sprintf_d n) ≤ 11)%nat.
Proof.
  unfold INT_MIN, INT_MAX, sprintf_d. intros Hn.
  destruct (n <? 0) eqn:Hneg.
  - apply Z.ltb_lt in Hneg. rewrite strlen_append.
    change (strlen "-") with 1%nat.
    pose proof (decimal_digits_at_most 10 10 (- n)). lia.
  - apply Z.ltb_ge in Hneg.
    pose proof (decimal_digits_at_most 10 10 n). lia.
Qed.

Lemma sprintf_d_at_most_ten n :
  (-1000000000) < n ≤ INT_MAX → (strlen (sprintf_d n) ≤ 10)%nat.
Proof.
  unfold INT_MAX, sprintf_d. intros Hn.
  destruct (n <? 0) eqn:Hneg.
  - apply Z.ltb_lt in Hneg. rewrite strlen_append.
    change (strlen "-") with 1%nat.
    pose proof (decimal_digits_at_most 10 9 (- n)). lia.
  - apply Z.ltb_ge in Hneg.
    pose proof (decimal_digits_at_most 10 10 n). lia.
Qed.

Lemma sprintf_d_eleven n :
  n ≤ -1000000000 → (11 ≤ strlen (sprintf_d n))%nat.
Proof.
  unfold sprintf_d. intros Hn.
  assert ((n <? 0) = true) as -> by (apply Z.ltb_lt; lia).
  rewrite strlen_append. change (strlen "-") with 1%nat.
  pose proof (decimal_digits_at_least 10 10 (- n)). lia.
Qed.

Lemma strcpy_too_long room src :
  (room < strlen src + 1)%nat → strcpy room src = None.
Proof. intros Hlong. unfold strcpy. by apply Nat.leb_gt in Hlong as ->. Qed.

End Numbers.

(** X10. [get_thread_name] never writes more than [maxlen] bytes into
    [tname] when [maxlen] is the size of [tname] and at least the 14 bytes of
    ["DefaultThread"]: it leaves the name of the thread when that is shorter
    than [maxlen], and ["DefaultThread"] otherwise. *)
Theorem X10_get_thread_name_fits
  (info_name : option string) (maxlen : Z) :
  14 ≤ maxlen →
  (∀ name, info_name = Some name → Z.of_nat (CString.strlen name) ≤ INT_MAX) →
  ∃ tname,
    get_thread_name info_name (Z.to_nat maxlen) maxlen = Some tname
    ∧ Z.of_nat (CString.strlen tname) < maxlen
    ∧ tname
      = match info_name with
        | Some name =>
            if Z.of_nat (CString.strlen name) <? maxlen
            then name else DEFAULT_THREAD_NAME
        | None => DEFAULT_THREAD_NAME
        end.
Proof.
  intros Hmax Hname. unfold get_thread_name.
  rewrite (strcpy_fits _ DEFAULT_THREAD_NAME)
    by (change (CString.strlen DEFAULT_THREAD_NAME) with 13%nat; lia).
  cbn [mbind option_bind].
  change (Z.of_nat (CString.strlen DEFAULT_THREAD_NAME)) with 13.
  destruct info_name as [name|].
  - rewrite to_int_small by (specialize (Hname name eq_refl); lia).
    destruct (Z.of_nat (CString.strlen name) <? maxlen) eqn:Hlen.
    + apply Z.ltb_lt in Hlen. rewrite strcpy_fits by lia. eauto.
    + exists DEFAULT_THREAD_NAME. split_and!; [done|simpl; lia|done].
  - exists DEFAULT_THREAD_NAME. split_and!; [done|simpl; lia|done].
Qed.

(** A thread name of 45 bytes with the buffer of the callbacks. *)
Lemma X10_get_thread_name_fits_witness :
  get_thread_name (Some "pool-1-thread-1-of-the-request-dispatcher-x01")
    (Z.to_nat MAX_THREAD_NAME_LENGTH) MAX_THREAD_NAME_LENGTH
  = Some DEFAULT_THREAD_NAME.
Proof.
  destruct (X10_get_thread_name_fits
              (Some "pool-1-thread-1-of-the-request-dispatcher-x01")
              MAX_THREAD_NAME_LENGTH ltac:(unfold MAX_THREAD_NAME_LENGTH; lia))
    as (tname & Hcall & _ & ->).
  { intros name [= <-]. vm_compute. discriminate. }
  exact Hcall.
Defined.

(** X11. The 20 bytes of [pidstr] hold every process id that
    [get_pid_as_string] prints. The 11 bytes of [s] in [register_abrt_event]
    hold every user id below [2^31] that [get_uid_as_string] prints; a user
    id from [2^31] to [3294967296] becomes an [int] of ten digits with a
    sign, and its NUL is written behind [s]. *)
Theorem X11_pid_and_uid_buffers :
  (∀ getpid,
     INT_MIN ≤ getpid ≤ INT_MAX →
     get_pid_as_string pidstr_size getpid = Some (sprintf_d getpid))
  ∧ (∀ getuid,
       0 ≤ getuid ≤ INT_MAX →
       get_uid_as_string uid_s_size getuid = Some (sprintf_d getuid))
  ∧ (∀ getuid,
       INT_MAX < getuid ≤ 3294967296 →
       get_uid_as_string uid_s_size getuid = None).
Proof.
  unfold get_pid_as_string, get_uid_as_string, pidstr_size, uid_s_size.
  split_and!.
  - intros getpid Hpid. apply strcpy_fits.
    pose proof (sprintf_d_at_most getpid Hpid). lia.
  - intros getuid Huid. rewrite to_int_small by done. apply strcpy_fits.
    pose proof (sprintf_d_at_most_ten getuid). lia.
  - intros getuid Huid. rewrite to_int_large by lia.
    apply strcpy_too_long.
    pose proof (sprintf_d_eleven (getuid - 4294967296)). lia.
Qed.

(** The user ids 1000 and 3000000000. *)
Lemma X11_pid_and_uid_buffers_witness :
  get_uid_as_string uid_s_size 1000 = Some "1000"
  ∧ get_uid_as_string uid_s_size 3000000000 = None.
Proof.
  destruct X11_pid_and_uid_buffers as (_ & Hfits & Hwide). split.
  - exact (Hfits 1000 ltac:(unfold INT_MAX; lia)).
  - exact (Hwide 3000000000 ltac:(unfold INT_MAX; lia)).
Defined.

Section LogFile.

Import CString.

Lemma take_long n s : (strlen s ≤ n)%nat → take n s = s.
Proof.
  unfold strlen. revert n. induction s as [|a s IH]; intros [|n]; simpl;
    [done|done|lia|].
  intros Hlen. rewrite IH; [done|lia].
Qed.

(** The default name is never cut by the buffer of 32 bytes. *)
Lemma get_default_log_file_name_first getpid :
  INT_MIN ≤ getpid ≤ INT_MAX →
  get_default_log_file_name getpid None
  = (Some ("abrt_checker_" +:+ sprintf_d getpid +:+ ".log"),
     Some ("abrt_checker_" +:+ sprintf_d getpid +:+ ".log")).
Proof.
  intros Hpid. unfold get_default_log_file_name, snprintf.
  pose proof (sprintf_d_at_most getpid Hpid) as Hlen.
  assert (strlen ("abrt_checker_" +:+ sprintf_d getpid +:+ ".log") ≤ 28)%nat
    as Hname.
  { rewrite !strlen_append.
    change (strlen "abrt_checker_") with 13%nat.
    change (strlen ".log") with 4%nat. lia. }
  rewrite take_long
    by (unfold _AUX_LOG_FILE_NAME_MAX_LENGTH; lia).
  destruct (_ >? INT_MAX) eqn:Hbig.
  { apply Z.gtb_lt in Hbig. unfold INT_MAX in Hbig. lia. }
  destruct (_ <? 0) eqn:Hneg; [|done].
  apply Z.ltb_lt in Hneg. lia.
Qed.

End LogFile.



(** X13. A failed [fopen] when no output name is configured: the default
    name was tried, [get_log_file] returns NULL and marks the output as
    disabled, and from then on no call opens a file, whatever [stat],
    [malloc] and [fopen] would answer. A failed [fopen] on a configured
    name, be it the name itself or the default name in the configured
    directory, is undefined: the name is freed and then printed. *)
Theorem X13_logging_stays_disabled_after_a_failed_open
  (getpid : Z) (stat : T_stat) (malloc_ok : bool) (st : T_logState) :
  INT_MIN ≤ getpid ≤ INT_MAX →
  fout st = None →
  (outputFileName st = output_file_name None →
   ∃ st',
     get_log_file getpid stat malloc_ok false st = Some (st', None)
     ∧ fout st' = None
     ∧ outputFileName st' = DISABLED_LOG_OUTPUT
     ∧ ∀ getpid' stat' malloc_ok' fopen_ok,
         get_log_file getpid' stat' malloc_ok' fopen_ok st'
         = Some (st', None))
  ∧ (∀ fn,
       outputFileName st = output_file_name (Some fn) →
       stat ≠ stat_failed →
       malloc_ok = true →
       get_log_file getpid stat malloc_ok false st = None).
Proof.
  intros Hpid Hfout.
  assert (∃ name buffer,
            get_default_log_file_name getpid (default_log_file_name st)
            = (Some name, buffer)) as (name & buffer & Hdefault).
  { destruct (default_log_file_name st) as [name|] eqn:Hstatic.
    - by exists name, (Some name).
    - rewrite get_default_log_file_name_first by done. eauto. }
  split.
  - intros Hout. eexists. unfold get_log_file at 1.
    rewrite Hfout, Hout, Hdefault. simpl.
    split_and!; [done..|].
    intros getpid' stat' malloc_ok' fopen_ok. done.
  - intros fn Hout Hstat ->. unfold get_log_file. rewrite Hfout, Hout.
    destruct stat; [by unfold open_log_file; rewrite Hout|done|
                    |by unfold open_log_file; rewrite Hout].
    rewrite Hdefault.
    destruct (append_file_to_path true fn (Some name))
      as [[[result|] path]|] eqn:Happend;
      simpl; [done| |done].
    unfold append_file_to_path in Happend.
    destruct (last_byte fn); [|done].
    repeat case_match; simplify_eq.
Qed.

(** The process 4242 in a directory where no file can be created, without
    a configured name and with the name [/nowhere/abrt.log]. *)
Lemma X13_logging_stays_disabled_after_a_failed_open_witness :
  (∃ st',
     get_log_file 4242 stat_ENOENT true false
       {| fout := None;
          outputFileName := output_file_name None;
          default_log_file_name := None |}
     = Some (st', None)
     ∧ get_log_file 4242 stat_ENOENT true true st' = Some (st', None))
  ∧ get_log_file 4242 stat_ENOENT true false
      {| fout := None;
         outputFileName := output_file_name (Some "/nowhere/abrt.log");
         default_log_file_name := None |}
    = None.
Proof.
  split.
  - destruct (proj1 (X13_logging_stays_disabled_after_a_failed_open
                       4242 stat_ENOENT true
                       {| fout := None;
                          outputFileName := output_file_name None;
                          default_log_file_name := None |}
                       ltac:(unfold INT_MIN, INT_MAX; lia) eq_refl) eq_refl)
      as (st' & Hcall & _ & _ & Hlater).
    exists st'. split; [exact Hcall|apply Hlater].
  - apply (proj2 (X13_logging_stays_disabled_after_a_failed_open
                    4242 stat_ENOENT true
                    {| fout := None;
                       outputFileName :=
                         output_file_name (Some "/nowhere/abrt.log");
                       default_log_file_name := None |}
                    ltac:(unfold INT_MIN, INT_MAX; lia) eq_refl)
             "/nowhere/abrt.log" eq_refl ltac:(discriminate) eq_refl).
Defined.

(** ** Line numbers *)

Section LineNumbers.

Lemma line_at_cons_after location entry location_table :
  location < start_location entry →
  line_at location (entry :: location_table) = line_at location location_table.
Proof.
  intros Hafter. unfold line_at. rewrite filter_cons.
  case_decide; [lia|done].
Qed.

Lemma line_at_cons_before location entry1 entry2 location_table :
  start_location entry2 ≤ location →
  line_at location (entry1 :: entry2 :: location_table)
  = line_at location (entry2 :: location_table).
Proof.
  intros Hbefore. unfold line_at. rewrite (filter_cons _ entry1).
  case_decide; [|done].
  rewrite (filter_cons _ entry2). case_decide; [|lia].
  by rewrite last_cons_cons.
Qed.

Lemma line_at_all_after location location_table :
  Forall (λ entry, location < start_location entry) location_table →
  line_at location location_table = 0.
Proof.
  induction 1 as [|entry location_table Hentry _ IH]; [done|].
  by rewrite line_at_cons_after.
Qed.

Lemma line_number_loop_cons location entry1 entry2 rest :
  line_number_loop location (entry1 :: entry2 :: rest)
  = if (start_location entry1 <=? location)
       && (location <? start_location entry2)
    then Some (line_number entry1)
    else line_number_loop location (entry2 :: rest).
Proof. done. Qed.

(** In a sorted table the loop and the test of the last entry find the
    last entry that starts at or before the location. *)
Lemma get_line_number_sorted location location_table :
  table_sorted location_table →
  location_table ≠ [] →
  (entry ← last location_table;
   Some (if start_location entry <=? location
         then line_number entry
         else default 0 (line_number_loop location location_table)))
  = Some (line_at location location_table).
Proof.
  intros Hsorted Hne.
  induction location_table as [|entry1 [|entry2 rest] IH]; [done| |].
  - simpl. unfold line_at. rewrite filter_cons.
    destruct (start_location entry1 <=? location) eqn:Hle.
    + apply Z.leb_le in Hle. by case_decide.
    + apply Z.leb_gt in Hle. case_decide; [lia|done].
  - apply StronglySorted_inv in Hsorted as [Hrest Hfirst].
    specialize (IH Hrest ltac:(done)).
    rewrite last_cons_cons, line_number_loop_cons.
    destruct ((start_location entry1 <=? location)
              && (location <? start_location entry2)) eqn:Hhere.
    + apply andb_true_iff in Hhere as [Hle Hlt].
      apply Z.leb_le in Hle. apply Z.ltb_lt in Hlt.
      assert (Forall (λ entry, location < start_location entry)
                (entry2 :: rest)) as Hafter.
      { apply StronglySorted_inv in Hrest as [_ Hsecond].
        constructor; [done|].
        eapply Forall_impl; [exact Hsecond|]. simpl. intros entry. lia. }
      destruct (last (entry2 :: rest)) as [entry|] eqn:Hlast; [|done].
      cbn [mbind option_bind default].
      assert (location < start_location entry) as Hentry.
      { apply last_Some_elem_of in Hlast.
        by apply (proj1 (Forall_forall _ _) Hafter). }
      apply Z.leb_gt in Hentry as ->.
      unfold line_at. rewrite filter_cons. case_decide; [|lia].
      fold (filter (λ entry, start_location entry ≤ location)
              (entry2 :: rest)).
      pose proof (line_at_all_after _ _ Hafter) as Hnone.
      unfold line_at in Hnone.
      destruct (filter (λ entry, start_location entry ≤ location)
                  (entry2 :: rest)) as [|entry' tail] eqn:Hfilter; [done|].
      exfalso.
      assert (entry' ∈ filter (λ entry, start_location entry ≤ location)
                         (entry2 :: rest)) as Hin
        by (rewrite Hfilter; left).
      apply list_elem_of_filter in Hin as [Hle' Hin].
      apply (proj1 (Forall_forall _ _) Hafter) in Hin. lia.
    + rewrite IH. f_equal. symmetry.
      apply andb_false_iff in Hhere as [Hgt|Hge].
      * apply Z.leb_gt in Hgt. by apply line_at_cons_after.
      * apply Z.ltb_ge in Hge. by apply line_at_cons_before.
Qed.

End LineNumbers.

(** X16. For a method with a line number table that is sorted by location
    and not empty, [get_line_number] returns the line of the last entry that
    starts at or before the location, and 0 when the location is before the
    first entry. For a NULL method or the location 0 it returns -1 without
    asking for the table. *)
Theorem X16_get_line_number_of_a_sorted_table
  (method : jmethodID) (location : Z)
  (location_table : list jvmtiLineNumberEntry) :
  table_sorted location_table →
  location_table ≠ [] →
  location ≠ 0 →
  get_line_number (Some method) location (Some location_table)
  = Some (line_at location location_table)
  ∧ (∀ GetLineNumberTable,
       get_line_number None location GetLineNumberTable = Some (-1))
  ∧ (∀ GetLineNumberTable,
       get_line_number (Some method) 0 GetLineNumberTable = Some (-1)).
Proof.
  intros Hsorted Hne Hlocation. unfold get_line_number.
  apply Z.eqb_neq in Hlocation as ->.
  split_and!; [|done..]. by apply get_line_number_sorted.
Qed.

(** A method of three lines; the location 7 is in the second. *)
Lemma X16_get_line_number_of_a_sorted_table_witness :
  get_line_number (Some 1%N) 7
    (Some [ {| start_location := 0; line_number := 10 |};
            {| start_location := 4; line_number := 11 |};
            {| start_location := 9; line_number := 13 |} ])
  = Some 11.
Proof.
  refine (proj1 (X16_get_line_number_of_a_sorted_table 1%N 7
                   [ {| start_location := 0; line_number := 10 |};
                     {| start_location := 4; line_number := 11 |};
                     {| start_location := 9; line_number := 13 |} ]
                   _ ltac:(discriminate) ltac:(discriminate))).
  unfold table_sorted. repeat constructor; simpl; lia.
Defined.

(** ** Additional information *)

Section InfoPairs.

Import CString.

Lemma list_ascii_of_string_append s t :
  String.list_ascii_of_string (s +:+ t)
  = String.list_ascii_of_string s ++ String.list_ascii_of_string t.
Proof.
  induction s as [|a s IH]; [done|]. rewrite append_cons. simpl.
  by rewrite IH.
Qed.

Lemma length_list_ascii_of_string s :
  length (String.list_ascii_of_string s) = strlen s.
Proof. unfold strlen. induction s as [|a s IH]; simpl; [done|]. by rewrite IH. Qed.

(** A C string stored with its NUL is read back. *)
Lemma block_string_stored s rest :
  nul_free s →
  block_string (String.list_ascii_of_string s ++ Ascii.zero :: rest) = Some s.
Proof.
  induction s as [|a s IH]; [done|].
  intros [Ha Hs]%nul_free_cons. simpl.
  apply Ascii.eqb_neq in Ha as ->. by rewrite IH.
Qed.

Lemma block_write_length offset bytes block block' :
  block_write offset bytes block = Some block' →
  length block' = length block.
Proof.
  unfold block_write. destruct (_ <=? _)%nat eqn:Hfits; [|done].
  apply Nat.leb_le in Hfits. intros [= <-].
  rewrite !length_app, length_take, length_drop. lia.
Qed.

Lemma block_write_outside offset bytes block :
  (length block < offset + length bytes)%nat →
  block_write offset bytes block = None.
Proof.
  intros Hout. unfold block_write. by apply Nat.leb_gt in Hout as ->.
Qed.

Lemma strlen_pair_text iter :
  strlen (pair_text iter)
  = (strlen (label iter) + strlen (data iter) + 4)%nat.
Proof.
  unfold pair_text. rewrite !strlen_append.
  change (strlen " = ") with 3%nat.
  change (strlen (String "010"%char EmptyString)) with 1%nat. lia.
Qed.

Lemma required_bytes_from n pairs :
  foldl (λ required_bytes iter,
           required_bytes + (strlen (label iter) + strlen (data iter) + 4))%nat
    n pairs
  = (n + required_bytes pairs)%nat.
Proof.
  unfold required_bytes. revert n.
  induction pairs as [|iter pairs IH]; intros n; cbn [foldl]; [lia|].
  rewrite (IH (n + _)%nat), (IH (0 + _)%nat). lia.
Qed.

(** The bytes all lines need, without the final NUL. *)
Lemma required_bytes_cons iter pairs :
  required_bytes (iter :: pairs)
  = (strlen (pair_text iter) + required_bytes pairs)%nat.
Proof.
  unfold required_bytes at 1. cbn [foldl].
  by rewrite required_bytes_from, strlen_pair_text.
Qed.

Lemma required_bytes_app pairs1 pairs2 :
  required_bytes (pairs1 ++ pairs2)
  = (required_bytes pairs1 + required_bytes pairs2)%nat.
Proof.
  induction pairs1 as [|iter pairs1 IH]; [done|].
  rewrite <-app_comm_cons, !required_bytes_cons, IH. lia.
Qed.

(** Beside another pair, a line is shorter than the block. *)
Lemma required_bytes_other iter pairs :
  (2 ≤ length pairs)%nat → iter ∈ pairs →
  (strlen (pair_text iter) < required_bytes pairs)%nat.
Proof.
  intros Htwo (before & after & ->)%list_elem_of_split.
  rewrite required_bytes_app, required_bytes_cons.
  rewrite length_app in Htwo. cbn [length] in Htwo.
  destruct before as [|other before].
  - destruct after as [|other after]; [simpl in Htwo; lia|].
    rewrite required_bytes_cons, (strlen_pair_text other). lia.
  - rewrite required_bytes_cons, (strlen_pair_text other). lia.
Qed.

(** A text shorter than the bound is stored whole. *)
Lemma snprintf_whole size text :
  Z.of_nat (strlen text) < size →
  Z.of_nat (strlen text) ≤ INT_MAX →
  snprintf size text = (text, Z.of_nat (strlen text)).
Proof.
  intros Hsize Hint. unfold snprintf.
  rewrite take_long by lia.
  destruct (_ >? INT_MAX) eqn:Hbig; [|done].
  apply Z.gtb_lt in Hbig. lia.
Qed.

(** When every line is shorter than the bound, the last one puts its NUL
    behind the block. *)
Lemma write_pairs_outside to_write pairs pointer contents :
  pairs ≠ [] →
  Forall (λ iter, Z.of_nat (strlen (pair_text iter)) < to_write
                  ∧ Z.of_nat (strlen (pair_text iter)) ≤ INT_MAX) pairs →
  (pointer + required_bytes pairs = length contents)%nat →
  write_pairs to_write pairs pointer contents = None.
Proof.
  intros Hne Hpairs. revert pointer contents Hne.
  induction Hpairs as [|iter pairs [Hsize Hint] Hpairs IH];
    intros pointer contents Hne Hlen; [done|].
  rewrite required_bytes_cons in Hlen.
  cbn [write_pairs]. rewrite snprintf_whole by done.
  destruct pairs as [|iter' pairs].
  - rewrite block_write_outside; [done|].
    rewrite length_app, length_list_ascii_of_string. simpl.
    change (required_bytes []) with 0%nat in Hlen. lia.
  - destruct (block_write pointer
                (String.list_ascii_of_string (pair_text iter)
                 ++ [Ascii.zero]) contents) as [contents'|] eqn:Hwrite;
      [|done].
    cbn [mbind option_bind].
    destruct (_ <? 0) eqn:Hneg; [apply Z.ltb_lt in Hneg; lia|].
    rewrite Nat2Z.id. apply IH; [done|].
    apply block_write_length in Hwrite. lia.
Qed.

End InfoPairs.

(** X14. [info_pair_vector_to_string] allocates the bytes of the lines
    without a byte for the final NUL, and limits every line by the size of
    the whole block. For a single pair the result is therefore
    [<label> = <data>] without the newline. For two pairs or more the NUL
    after the last line is written one byte behind the block. *)
Theorem X14_info_pairs_need_one_more_byte
  (malloc : nat → option (list ascii)) :
  malloc_sized malloc →
  (∀ iter,
     nul_free (label iter) → nul_free (data iter) →
     Z.of_nat (CString.strlen (pair_text iter)) ≤ INT_MAX →
     is_Some (malloc (required_bytes [iter])) →
     info_pair_vector_to_string malloc (Some [iter])
     = Some (Some (label iter +:+ " = " +:+ data iter)))
  ∧ (∀ iter1 iter2 pairs,
       Forall (λ iter, Z.of_nat (CString.strlen (pair_text iter)) ≤ INT_MAX)
         (iter1 :: iter2 :: pairs) →
       is_Some (malloc (required_bytes (iter1 :: iter2 :: pairs))) →
       info_pair_vector_to_string malloc (Some (iter1 :: iter2 :: pairs))
       = None).
Proof.
  intros Hmalloc. split.
  - intros iter Hlabel Hdata Hint [contents Hblock].
    unfold info_pair_vector_to_string. rewrite Hblock.
    pose proof (Hmalloc _ _ Hblock) as Hlen.
    rewrite required_bytes_cons in *.
    change (required_bytes []) with 0%nat in *.
    rewrite Nat.add_0_r in *.
    destruct (_ =? 0)%nat eqn:Hzero.
    { apply Nat.eqb_eq in Hzero. rewrite strlen_pair_text in Hzero. lia. }
    cbn [write_pairs]. unfold snprintf.
    destruct (_ >? INT_MAX) eqn:Hbig; [apply Z.gtb_lt in Hbig; lia|].
    destruct (_ <? 0) eqn:Hneg; [apply Z.ltb_lt in Hneg; lia|].
    assert (CString.take
              (Z.to_nat (Z.of_nat (CString.strlen (pair_text iter)) - 1))
              (pair_text iter)
            = label iter +:+ " = " +:+ data iter) as ->.
    { replace (Z.to_nat (Z.of_nat (CString.strlen (pair_text iter)) - 1))
        with (CString.strlen (label iter +:+ " = " +:+ data iter) + 0)%nat.
      - unfold pair_text.
        rewrite <-!append_assoc, take_append, !append_assoc.
        change (CString.take 0 (String "010"%char EmptyString))
          with EmptyString.
        by rewrite <-!append_assoc, append_nil_r, !append_assoc.
      - rewrite strlen_pair_text, !strlen_append.
        change (CString.strlen " = ") with 3%nat. lia. }
    unfold block_write.
    destruct (_ <=? _)%nat eqn:Hfits.
    + cbn [mbind option_bind]. rewrite <-app_assoc.
      change (take 0 contents) with (@nil ascii).
      cbn [app]. rewrite block_string_stored; [done|].
      repeat apply nul_free_app; done.
    + apply Nat.leb_gt in Hfits.
      rewrite length_app, length_list_ascii_of_string in Hfits.
      rewrite strlen_pair_text in Hlen.
      rewrite !strlen_append in Hfits.
      change (CString.strlen " = ") with 3%nat in Hfits.
      cbn [length] in Hfits. lia.
  - intros iter1 iter2 pairs Hint [contents Hblock].
    unfold info_pair_vector_to_string. rewrite Hblock.
    pose proof (Hmalloc _ _ Hblock) as Hlen.
    destruct (_ =? 0)%nat eqn:Hzero.
    { apply Nat.eqb_eq in Hzero.
      rewrite required_bytes_cons, strlen_pair_text in Hzero. lia. }
    rewrite write_pairs_outside; [done|done| |lia].
    apply Forall_forall. intros iter Hiter. split.
    + apply inj_lt, required_bytes_other; [simpl; lia|done].
    + by apply (proj1 (Forall_forall _ _) Hint).
Qed.

(** One pair and two pairs, in blocks that [malloc] filled with ['x']. *)
Lemma X14_info_pairs_need_one_more_byte_witness :
  info_pair_vector_to_string (λ size, Some (replicate size "x"%char))
    (Some [ {| label := "com.example.Debug.os"; data := "linux" |} ])
  = Some (Some "com.example.Debug.os = linux")
  ∧ info_pair_vector_to_string (λ size, Some (replicate size "x"%char))
      (Some [ {| label := "com.example.Debug.os"; data := "linux" |};
              {| label := "com.example.Debug.user"; data := "tester" |} ])
    = None.
Proof.
  destruct (X14_info_pairs_need_one_more_byte
              (λ size, Some (replicate size "x"%char)))
    as [Hone Hmore].
  { intros size block [= <-]. apply length_replicate. }
  split.
  - apply (Hone {| label := "com.example.Debug.os"; data := "linux" |});
      [reflexivity|reflexivity|vm_compute; discriminate|eexists; reflexivity].
  - apply Hmore; [|eexists; reflexivity].
    repeat constructor; vm_compute; discriminate.
Defined.

(** ** The command line *)

Section CommandLine.

Import CString.

Local Abbreviation blank :=
  (λ c : ascii, if Ascii.eqb c Ascii.zero then " "%char else c).

Lemma blank_nul_free s :
  nul_free s →
  blank <$> String.list_ascii_of_string s = String.list_ascii_of_string s.
Proof.
  induction s as [|a s IH]; [done|].
  intros [Ha Hs]%nul_free_cons.
  cbn [String.list_ascii_of_string]. rewrite fmap_cons.
  apply Ascii.eqb_neq in Ha as ->. by rewrite IH.
Qed.

Lemma nul_free_joined args : Forall nul_free args → nul_free (joined args).
Proof.
  induction 1 as [|arg args Harg Hargs IH]; [done|].
  destruct args as [|arg' args]; [done|].
  change (joined (arg :: arg' :: args))
    with (arg +:+ " " +:+ joined (arg' :: args)).
  by repeat apply nul_free_app.
Qed.

(** The bytes of the file are those of the joined arguments, with a NUL for
    every separating blank, and a final NUL. *)
Lemma cmdline_of_joined args :
  args ≠ [] → Forall nul_free args →
  ∃ body,
    cmdline_of args = body ++ [Ascii.zero]
    ∧ blank <$> body = String.list_ascii_of_string (joined args).
Proof.
  intros Hne Hargs.
  induction Hargs as [|arg args Harg Hargs IH]; [done|].
  destruct args as [|arg' args].
  - exists (String.list_ascii_of_string arg). split.
    + unfold cmdline_of. simpl. by rewrite app_nil_r.
    + by apply blank_nul_free.
  - destruct (IH ltac:(done)) as (body & Hbody & Hblank).
    exists (String.list_ascii_of_string arg ++ Ascii.zero :: body). split.
    + unfold cmdline_of in *. rewrite fmap_cons.
      cbn [concat]. rewrite Hbody, <-!app_assoc. done.
    + rewrite fmap_app, fmap_cons, Hblank, blank_nul_free by done.
      change (joined (arg :: arg' :: args))
        with (arg +:+ " " +:+ joined (arg' :: args)).
      by rewrite !list_ascii_of_string_append.
Qed.

End CommandLine.

(** X15. When [/proc/<pid>/cmdline] holds at most 2048 bytes, [get_command]
    returns the arguments of the process separated by single blanks. *)
Theorem X15_get_command_joins_the_arguments (args : list string) :
  args ≠ [] →
  Forall nul_free args →
  (length (cmdline_of args) ≤ 2048)%nat →
  get_command true (cmdline_of args) true = Some (Some (joined args)).
Proof.
  intros Hne Hargs Hsize.
  destruct (cmdline_of_joined args Hne Hargs) as (body & Hbody & Hblank).
  unfold get_command. rewrite take_ge by done. rewrite Hbody.
  rewrite length_app. cbn [length].
  replace (length body + 1)%nat with (S (length body)) by lia.
  rewrite take_app_length, drop_app_length, Hblank.
  rewrite block_string_stored by by apply nul_free_joined.
  done.
Qed.

(** The command line of a Java program. *)
Lemma X15_get_command_joins_the_arguments_witness :
  get_command true (cmdline_of ["java"; "-jar"; "app.jar"]) true
  = Some (Some "java -jar app.jar").
Proof.
  apply (X15_get_command_joins_the_arguments ["java"; "-jar"; "app.jar"]);
    [discriminate|repeat constructor|vm_compute; lia].
Defined.

(** ** Stack traces *)

Section StackTrace.

Import CString.

Local Abbreviation bytes := String.list_ascii_of_string.
Local Abbreviation block_size := (Z.to_nat (MAX_STACK_TRACE_STRING_LENGTH + 1)).

Lemma block_holds_length text block :
  block_holds text block → length block = block_size.
Proof.
  intros [Hlen ->]. rewrite length_app, length_replicate.
  rewrite length_list_ascii_of_string. lia.
Qed.

(** Storing a text with its NUL behind the text the block holds. *)
Lemma block_write_holds text more block :
  block_holds text block →
  (strlen text + strlen more < block_size)%nat →
  ∃ block',
    block_write (strlen text) (bytes more ++ [Ascii.zero]) block = Some block'
    ∧ block_holds (text +:+ more) block'.
Proof.
  intros [Hlen ->] Hmore. unfold block_write.
  rewrite !length_app, length_replicate, !length_list_ascii_of_string.
  cbn [length].
  destruct (_ <=? _)%nat eqn:Hfits; [|apply Nat.leb_gt in Hfits; lia].
  eexists. split; [reflexivity|]. split.
  { rewrite strlen_append. lia. }
  rewrite take_app_length' by by rewrite length_list_ascii_of_string.
  rewrite drop_app_ge by (rewrite length_list_ascii_of_string; lia).
  rewrite length_list_ascii_of_string, drop_replicate.
  rewrite list_ascii_of_string_append, strlen_append, <-!app_assoc.
  do 2 f_equal. cbn [app].
  replace (block_size - (strlen text + strlen more))%nat
    with (S (block_size - strlen text
             - (strlen text + (strlen more + 1) - strlen text)))%nat by lia.
  done.
Qed.


Lemma block_size_Z : Z.of_nat block_size = MAX_STACK_TRACE_STRING_LENGTH + 1.
Proof. unfold MAX_STACK_TRACE_STRING_LENGTH. lia. Qed.

(** [snprintf] behind the text the block holds, when the new text leaves
    room for the NUL before the last byte of the block. *)
Lemma snprintf_at_holds text more block :
  block_holds text block →
  Z.of_nat (strlen text + strlen more) < MAX_STACK_TRACE_STRING_LENGTH →
  ∃ block',
    snprintf_at block (strlen text)
      (MAX_STACK_TRACE_STRING_LENGTH - Z.of_nat (strlen text)) more
    = Some (block', Z.of_nat (strlen more))
    ∧ block_holds (text +:+ more) block'.
Proof.
  intros Hblock Hfits. pose proof block_size_Z as Hsize.
  destruct (block_write_holds text more block Hblock) as (block' & Hw & Hb);
    [lia|].
  exists block'. split; [|done]. unfold snprintf_at.
  rewrite snprintf_whole by (unfold INT_MAX, MAX_STACK_TRACE_STRING_LENGTH in *; lia).
  destruct (_ =? 0) eqn:Hzero; [apply Z.eqb_eq in Hzero; lia|].
  by rewrite Hw.
Qed.

(** The last byte of a line is its newline. *)
Lemma block_holds_newline text body block :
  block_holds (text +:+ body +:+ String newline EmptyString) block →
  block !! (strlen text + strlen body)%nat = Some newline.
Proof.
  intros [_ ->]. rewrite !list_ascii_of_string_append, <-!app_assoc.
  rewrite lookup_app_r by (rewrite length_list_ascii_of_string; lia).
  rewrite length_list_ascii_of_string.
  rewrite lookup_app_r by (rewrite length_list_ascii_of_string; lia).
  rewrite length_list_ascii_of_string.
  by replace (strlen text + strlen body - strlen text - strlen body)%nat
    with 0%nat by lia.
Qed.

Lemma printed_wholly text body block :
  block_holds (text +:+ body +:+ String newline EmptyString) block →
  printed_partially block (strlen text)
    (Z.of_nat (strlen (body +:+ String newline EmptyString)))
  = Some false.
Proof.
  intros Hblock. unfold printed_partially.
  rewrite strlen_append.
  change (strlen (String newline EmptyString)) with 1%nat.
  destruct (0 <? _) eqn:Hpos; [|done].
  replace (Z.to_nat (Z.of_nat (strlen body + 1) - 1)) with (strlen body)
    by lia.
  by rewrite (block_holds_newline _ _ _ Hblock).
Qed.

(** The location printed for a frame does not depend on [class_fs_path]. *)
Lemma class_location_of_frame_fst stack_frame name class_fs_path :
  fst (class_location_of_frame stack_frame name class_fs_path)
  = fst (class_location_of_frame stack_frame name None).
Proof.
  unfold class_location_of_frame.
  destruct (FindClass stack_frame _) as [cls|].
  - destruct (create_updated_class_name _ _); done.
  - destruct (find_class_in_loaded_class _ _) as [cls|]; [|done].
    destruct (create_updated_class_name _ _); done.
Qed.

(** A frame line is a body with a newline. *)
Lemma frame_text_line str class_location :
  ∃ body,
    frame_text str class_location = body +:+ String newline EmptyString.
Proof.
  unfold frame_text.
  exists (String "009"%char
            ("at " +:+ str +:+ " [" +:+ default "unknown" class_location
             +:+ "]")).
  rewrite (append_cons "009"%char). f_equal.
  rewrite !append_assoc. reflexivity.
Qed.

Lemma to_size_t_small n :
  0 ≤ n ≤ MAX_STACK_TRACE_STRING_LENGTH → to_size_t n = n.
Proof.
  unfold to_size_t, MAX_STACK_TRACE_STRING_LENGTH. intros Hn.
  rewrite Z.mod_small; lia.
Qed.

Lemma to_unsigned_small n :
  0 ≤ n ≤ MAX_STACK_TRACE_STRING_LENGTH → to_unsigned n = n.
Proof.
  unfold to_unsigned, MAX_STACK_TRACE_STRING_LENGTH. intros Hn.
  rewrite Z.mod_small; lia.
Qed.

(** A frame whose line fits is printed whole. *)
Lemma print_stack_trace_element_fits stack_frame text block class_fs_path :
  block_holds text block →
  frame_printable stack_frame →
  Z.of_nat (strlen text + strlen (frame_line stack_frame))
  < MAX_STACK_TRACE_STRING_LENGTH →
  ∃ block' class_fs_path',
    print_stack_trace_element stack_frame block (strlen text)
      (MAX_STACK_TRACE_STRING_LENGTH - Z.of_nat (strlen text)) class_fs_path
    = Some (block', Z.of_nat (strlen (frame_line stack_frame)),
            class_fs_path')
    ∧ block_holds (text +:+ frame_line stack_frame) block'.
Proof.
  intros Hblock [[name Hname] [str Hstr]] Hfits.
  assert (frame_line stack_frame
          = frame_text str
              (fst (class_location_of_frame stack_frame name class_fs_path)))
    as Hline.
  { unfold frame_line. rewrite Hname, Hstr.
    by rewrite (class_location_of_frame_fst _ _ class_fs_path). }
  rewrite Hline in *. unfold print_stack_trace_element.
  rewrite Hname, Hstr.
  destruct (class_location_of_frame stack_frame name class_fs_path)
    as [class_location class_fs_path'].
  cbn [fst] in *.
  destruct (snprintf_at_holds _ _ _ Hblock Hfits) as (block' & -> & Hblock').
  cbn [mbind option_bind].
  destruct (frame_text_line str class_location) as [body Hbody].
  rewrite Hbody in *. rewrite printed_wholly by done.
  cbn [mbind option_bind]. eauto.
Qed.


Lemma strlen_frame_line_pos stack_frame :
  (0 < strlen (frame_line stack_frame))%nat.
Proof.
  unfold frame_line.
  destruct (frame_text_line
              (default EmptyString (frame_toString stack_frame))
              (fst (class_location_of_frame stack_frame
                      (default EmptyString (getClassName stack_frame)) None)))
    as [body ->].
  rewrite strlen_append.
  change (strlen (String newline EmptyString)) with 1%nat. lia.
Qed.

(** Frames whose lines all fit are all printed, and the loop goes on with
    the frames after them. *)
Lemma print_frames_prefix frames rest pre cur block executable :
  block_holds (pre +:+ cur) block →
  Forall frame_printable frames →
  Z.of_nat (strlen pre + strlen cur
            + strlen (concat_strings (frame_line <$> frames)))
  < MAX_STACK_TRACE_STRING_LENGTH →
  ∃ block' executable',
    print_frames (frames ++ rest) block (strlen pre)
      (MAX_STACK_TRACE_STRING_LENGTH - Z.of_nat (strlen pre))
      (Z.of_nat (strlen cur)) executable
    = print_frames rest block' (strlen pre)
        (MAX_STACK_TRACE_STRING_LENGTH - Z.of_nat (strlen pre))
        (Z.of_nat (strlen cur
                   + strlen (concat_strings (frame_line <$> frames))))
        executable'
    ∧ block_holds
        (pre +:+ cur +:+ concat_strings (frame_line <$> frames)) block'.
Proof.
  intros Hblock Hframes. revert cur block executable Hblock.
  induction Hframes as [|stack_frame frames Hframe Hframes IH];
    intros cur block executable Hblock Hfits.
  { exists block, executable. cbn [fmap list_fmap concat_strings app].
    change (strlen EmptyString) with 0%nat.
    rewrite Nat.add_0_r, append_nil_r. done. }
  rewrite fmap_cons in *. cbn [concat_strings] in *.
  rewrite strlen_append in Hfits.
  pose proof (strlen_frame_line_pos stack_frame) as Hpos.
  rewrite <-app_comm_cons. cbn [print_frames].
  replace (strlen pre + Z.to_nat (Z.of_nat (strlen cur)))%nat
    with (strlen (pre +:+ cur)) by (rewrite strlen_append; lia).
  replace (to_unsigned
             (to_size_t
                (MAX_STACK_TRACE_STRING_LENGTH - Z.of_nat (strlen pre)
                 - Z.of_nat (strlen cur))))
    with (MAX_STACK_TRACE_STRING_LENGTH - Z.of_nat (strlen (pre +:+ cur))).
  2:{ rewrite to_size_t_small, to_unsigned_small, strlen_append; lia. }
  destruct (print_stack_trace_element_fits stack_frame (pre +:+ cur) block
              (if match frames ++ rest with [] => true | _ :: _ => false end
               then executable else None) Hblock Hframe)
    as (block1 & class_fs_path1 & -> & Hblock1);
    [rewrite strlen_append; lia|].
  cbn [mbind option_bind].
  destruct (_ <=? 0) eqn:Hnone; [apply Z.leb_le in Hnone; lia|].
  rewrite append_assoc in Hblock1.
  replace (Z.of_nat (strlen cur) + Z.of_nat (strlen (frame_line stack_frame)))
    with (Z.of_nat (strlen (cur +:+ frame_line stack_frame)))
    by (rewrite strlen_append; lia).
  edestruct (IH (cur +:+ frame_line stack_frame) block1) as
    (block2 & executable2 & -> & Hblock2); [done|..].
  { rewrite strlen_append. lia. }
  exists block2, executable2. split.
  - do 2 f_equal. rewrite !strlen_append. lia.
  - by rewrite append_assoc in Hblock2.
Qed.

Lemma print_frames_fits frames pre cur block executable :
  block_holds (pre +:+ cur) block →
  Forall frame_printable frames →
  Z.of_nat (strlen pre + strlen cur
            + strlen (concat_strings (frame_line <$> frames)))
  < MAX_STACK_TRACE_STRING_LENGTH →
  ∃ block' executable',
    print_frames frames block (strlen pre)
      (MAX_STACK_TRACE_STRING_LENGTH - Z.of_nat (strlen pre))
      (Z.of_nat (strlen cur)) executable
    = Some (block',
            Z.of_nat (strlen cur
                      + strlen (concat_strings (frame_line <$> frames))),
            executable')
    ∧ block_holds
        (pre +:+ cur +:+ concat_strings (frame_line <$> frames)) block'.
Proof.
  intros Hblock Hframes Hfits.
  destruct (print_frames_prefix frames [] pre cur block executable
              Hblock Hframes Hfits) as (block' & executable' & Hrun & Hblock').
  rewrite app_nil_r in Hrun. rewrite Hrun. eauto.
Qed.

Lemma concat_strings_nil_r : concat_strings [] = EmptyString.
Proof. done. Qed.

(** A throwable whose lines all fit is printed whole. *)
Lemma print_exception_stack_trace_fits exception pre block executable :
  block_holds pre block →
  throwable_printable exception →
  Z.of_nat (strlen pre + strlen (throwable_lines exception))
  < MAX_STACK_TRACE_STRING_LENGTH →
  ∃ block' executable',
    print_exception_stack_trace exception block (strlen pre)
      (MAX_STACK_TRACE_STRING_LENGTH - Z.of_nat (strlen pre)) executable
    = Some (block', Z.of_nat (strlen (throwable_lines exception)),
            executable')
    ∧ block_holds (pre +:+ throwable_lines exception) block'.
Proof.
  intros Hblock [[str Hstr] (frames & Hframes & Hprintable)] Hfits.
  unfold throwable_lines, print_exception_stack_trace in *.
  rewrite Hstr, Hframes in *.
  change (default EmptyString (Some str)) with str in *.
  change (default [] (Some frames)) with frames in *.
  rewrite <-append_assoc in Hfits. rewrite (strlen_append (_ +:+ _)) in Hfits.
  destruct (snprintf_at_holds pre (str +:+ String newline EmptyString) block
              Hblock) as (block' & -> & Hblock'); [lia|].
  cbn [mbind option_bind].
  destruct (_ <? 0) eqn:Hneg; [apply Z.ltb_lt in Hneg; lia|].
  rewrite printed_wholly by done. cbn [mbind option_bind].
  destruct (print_frames_fits frames pre (str +:+ String newline EmptyString)
              block' executable Hblock' Hprintable)
    as (block'' & executable'' & -> & Hblock''); [lia|].
  exists block'', executable''. split.
  - do 3 f_equal. rewrite <-append_assoc, !strlen_append. lia.
  - by rewrite append_assoc in Hblock''.
Qed.


(** [strcat] behind the text the block holds. *)
Lemma strcat_at_holds text src block :
  block_holds text block →
  (strlen text + strlen src < block_size)%nat →
  ∃ block',
    strcat_at block (strlen text) src = Some block'
    ∧ block_holds (text +:+ src) block'.
Proof.
  intros Hblock Hfits. unfold strcat_at.
  assert (block_strlen (drop (strlen text) block) = Some 0%nat) as ->.
  { destruct Hblock as [Hlen ->].
    rewrite drop_app_length' by by rewrite length_list_ascii_of_string.
    destruct (block_size - strlen text)%nat as [|k] eqn:Hk; [lia|]. done. }
  cbn [mbind option_bind]. rewrite Nat.add_0_r.
  by apply block_write_holds.
Qed.

Lemma strlen_throwable_lines_pos exception :
  (0 < strlen (throwable_lines exception))%nat.
Proof.
  unfold throwable_lines. rewrite !strlen_append.
  change (strlen (String newline EmptyString)) with 1%nat. lia.
Qed.

Local Abbreviation cause_lines :=
  (λ cause : T_throwable, CAUSED_STACK_TRACE_HEADER +:+ throwable_lines cause).

(** Causes whose lines all fit are all printed. *)
Lemma print_causes_fits causes text block :
  block_holds text block →
  Forall throwable_printable causes →
  Z.of_nat (strlen text + strlen (concat_strings (cause_lines <$> causes)))
  < MAX_STACK_TRACE_STRING_LENGTH →
  ∃ block',
    print_causes causes block (Z.of_nat (strlen text)) = Some block'
    ∧ block_holds (text +:+ concat_strings (cause_lines <$> causes)) block'.
Proof.
  intros Hblock Hcauses. revert text block Hblock.
  induction Hcauses as [|cause causes Hcause Hcauses IH];
    intros text block Hblock Hfits.
  { exists block. by rewrite append_nil_r. }
  rewrite fmap_cons in *. cbn [concat_strings] in *.
  rewrite !strlen_append in Hfits.
  pose proof (strlen_throwable_lines_pos cause) as Hpos.
  pose proof block_size_Z as Hsize.
  cbn [print_causes].
  rewrite to_size_t_small by lia.
  destruct (_ <? _) eqn:Hroom; [apply Z.ltb_lt in Hroom; lia|].
  rewrite Nat2Z.id.
  destruct (strcat_at_holds text CAUSED_STACK_TRACE_HEADER block Hblock)
    as (block1 & -> & Hblock1); [lia|].
  cbn [mbind option_bind].
  replace (Z.of_nat (strlen text)
           + Z.of_nat (strlen CAUSED_STACK_TRACE_HEADER))
    with (Z.of_nat (strlen (text +:+ CAUSED_STACK_TRACE_HEADER)))
    by (rewrite strlen_append; lia).
  rewrite Nat2Z.id, to_size_t_small by (rewrite strlen_append; lia).
  destruct (print_exception_stack_trace_fits cause
              (text +:+ CAUSED_STACK_TRACE_HEADER) block1 None Hblock1 Hcause)
    as (block2 & executable2 & -> & Hblock2);
    [rewrite strlen_append; lia|].
  cbn [mbind option_bind].
  destruct (_ <=? 0) eqn:Hnone; [apply Z.leb_le in Hnone; lia|].
  rewrite append_assoc in Hblock2.
  replace (Z.of_nat (strlen (text +:+ CAUSED_STACK_TRACE_HEADER))
           + Z.of_nat (strlen (throwable_lines cause)))
    with (Z.of_nat (strlen (text +:+ CAUSED_STACK_TRACE_HEADER
                            +:+ throwable_lines cause)))
    by (rewrite !strlen_append; lia).
  destruct (IH _ _ Hblock2) as (block3 & -> & Hblock3).
  { rewrite !strlen_append. lia. }
  exists block3. split; [done|].
  by rewrite !append_assoc in Hblock3.
Qed.

(** The string the block holds is read back. *)
Lemma block_string_holds text block :
  nul_free text → block_holds text block → block_string block = Some text.
Proof.
  intros Hnul [Hlen ->].
  destruct (block_size - strlen text)%nat as [|k] eqn:Hk; [lia|].
  by apply block_string_stored.
Qed.

(** The block [calloc] returns holds the empty string. *)
Lemma block_holds_calloc :
  block_holds EmptyString (replicate block_size Ascii.zero).
Proof.
  unfold block_holds. change (strlen EmptyString) with 0%nat. split.
  - unfold MAX_STACK_TRACE_STRING_LENGTH. lia.
  - by rewrite Nat.sub_0_r.
Qed.

Lemma strlen_take_exact n s : (n ≤ strlen s)%nat → strlen (take n s) = n.
Proof.
  unfold strlen. revert s.
  induction n as [|n IH]; intros [|a s]; simpl; try lia.
  intros Hlen. rewrite IH; lia.
Qed.

(** A text that does not fit is cut by [snprintf] before the last byte of
    the block. *)
Lemma snprintf_at_truncated text more block :
  block_holds text block →
  Z.of_nat (strlen text) < MAX_STACK_TRACE_STRING_LENGTH →
  MAX_STACK_TRACE_STRING_LENGTH ≤ Z.of_nat (strlen text + strlen more) →
  Z.of_nat (strlen more) ≤ INT_MAX →
  ∃ stored,
    snprintf_at block (strlen text)
      (MAX_STACK_TRACE_STRING_LENGTH - Z.of_nat (strlen text)) more
    = Some (bytes text ++ bytes stored ++ [Ascii.zero; Ascii.zero],
            Z.of_nat (strlen more))
    ∧ Z.of_nat (strlen text + strlen stored + 1)
      = MAX_STACK_TRACE_STRING_LENGTH.
Proof.
  intros [Hlen ->] Hroom Hlong Hint. pose proof block_size_Z as Hsize.
  exists (take (Z.to_nat (MAX_STACK_TRACE_STRING_LENGTH
                          - Z.of_nat (strlen text) - 1)) more).
  assert (strlen (take (Z.to_nat (MAX_STACK_TRACE_STRING_LENGTH
                                  - Z.of_nat (strlen text) - 1)) more)
          = Z.to_nat (MAX_STACK_TRACE_STRING_LENGTH
                      - Z.of_nat (strlen text) - 1)) as Hstored
    by (apply strlen_take_exact; lia).
  split; [|lia].
  unfold snprintf_at, snprintf.
  destruct (_ >? INT_MAX) eqn:Hbig; [apply Z.gtb_lt in Hbig; lia|].
  destruct (_ =? 0) eqn:Hzero; [apply Z.eqb_eq in Hzero; lia|].
  unfold block_write.
  rewrite !length_app, length_replicate, !length_list_ascii_of_string.
  cbn [length]. rewrite Hstored.
  destruct (_ <=? _)%nat eqn:Hfits; [|apply Nat.leb_gt in Hfits; lia].
  cbn [mbind option_bind]. do 2 f_equal.
  rewrite take_app_length' by by rewrite length_list_ascii_of_string.
  rewrite drop_app_ge by (rewrite length_list_ascii_of_string; lia).
  rewrite length_list_ascii_of_string, drop_replicate.
  rewrite <-!app_assoc. do 2 f_equal. cbn [app]. f_equal.
  replace (block_size - strlen text
           - (strlen text
              + (Z.to_nat (MAX_STACK_TRACE_STRING_LENGTH
                           - Z.of_nat (strlen text) - 1) + 1)
              - strlen text))%nat with 1%nat by lia.
  done.
Qed.

(** The byte tested after a cut line is the NUL of [snprintf] or the last
    byte of the block, or it lies behind the block. *)
Lemma printed_partially_truncated text stored wrote :
  Z.of_nat (strlen text + strlen stored + 1) = MAX_STACK_TRACE_STRING_LENGTH →
  MAX_STACK_TRACE_STRING_LENGTH ≤ Z.of_nat (strlen text) + wrote →
  printed_partially (bytes text ++ bytes stored ++ [Ascii.zero; Ascii.zero])
    (strlen text) wrote
  = if Z.of_nat (strlen text) + wrote <=? MAX_STACK_TRACE_STRING_LENGTH + 1
    then Some true else None.
Proof.
  intros Hstored Hlong. unfold printed_partially.
  destruct (0 <? wrote) eqn:Hpos; [|apply Z.ltb_ge in Hpos; lia].
  apply Z.ltb_lt in Hpos.
  rewrite lookup_app_r by (rewrite length_list_ascii_of_string; lia).
  rewrite length_list_ascii_of_string.
  rewrite lookup_app_r by (rewrite length_list_ascii_of_string; lia).
  rewrite length_list_ascii_of_string.
  destruct (_ <=? _) eqn:Hnear.
  - apply Z.leb_le in Hnear.
    assert (Z.of_nat (strlen text) + wrote = MAX_STACK_TRACE_STRING_LENGTH
            ∨ Z.of_nat (strlen text) + wrote
              = MAX_STACK_TRACE_STRING_LENGTH + 1) as [Hexact|Hone] by lia.
    + replace (strlen text + Z.to_nat (wrote - 1) - strlen text
               - strlen stored)%nat with 0%nat by lia.
      done.
    + replace (strlen text + Z.to_nat (wrote - 1) - strlen text
               - strlen stored)%nat with 1%nat by lia.
      done.
  - apply Z.leb_gt in Hnear.
    rewrite lookup_ge_None_2; [done|]. cbn [length]. lia.
Qed.

(** Clearing the cut line leaves the text that was there before. *)
Lemma block_write_clear text tail :
  ∃ tail',
    block_write (strlen text) [Ascii.zero] (bytes text ++ tail ++ [Ascii.zero])
    = Some (bytes text ++ Ascii.zero :: tail').
Proof.
  unfold block_write.
  rewrite !length_app, length_list_ascii_of_string. cbn [length].
  destruct (_ <=? _)%nat eqn:Hfits; [|apply Nat.leb_gt in Hfits; lia].
  rewrite take_app_length' by by rewrite length_list_ascii_of_string.
  eauto.
Qed.

(** A frame whose line does not fit: the line is removed when it ends at
    the last byte of the block or the byte before, and otherwise a byte
    behind the block is read. *)
Lemma print_stack_trace_element_cut stack_frame text block class_fs_path :
  block_holds text block →
  frame_printable stack_frame →
  Z.of_nat (strlen text) < MAX_STACK_TRACE_STRING_LENGTH →
  MAX_STACK_TRACE_STRING_LENGTH
  ≤ Z.of_nat (strlen text + strlen (frame_line stack_frame)) →
  Z.of_nat (strlen (frame_line stack_frame)) ≤ INT_MAX →
  print_stack_trace_element stack_frame block (strlen text)
    (MAX_STACK_TRACE_STRING_LENGTH - Z.of_nat (strlen text)) class_fs_path
  = None
    ∧ MAX_STACK_TRACE_STRING_LENGTH + 1
      < Z.of_nat (strlen text + strlen (frame_line stack_frame))
  ∨ ∃ tail class_fs_path',
      print_stack_trace_element stack_frame block (strlen text)
        (MAX_STACK_TRACE_STRING_LENGTH - Z.of_nat (strlen text))
        class_fs_path
      = Some (bytes text ++ Ascii.zero :: tail, 0, class_fs_path')
      ∧ Z.of_nat (strlen text + strlen (frame_line stack_frame))
        ≤ MAX_STACK_TRACE_STRING_LENGTH + 1.
Proof.
  intros Hblock [[name Hname] [str Hstr]] Hroom Hlong Hint.
  assert (frame_line stack_frame
          = frame_text str
              (fst (class_location_of_frame stack_frame name class_fs_path)))
    as Hline.
  { unfold frame_line. rewrite Hname, Hstr.
    by rewrite (class_location_of_frame_fst _ _ class_fs_path). }
  rewrite Hline in *. unfold print_stack_trace_element.
  rewrite Hname, Hstr.
  destruct (class_location_of_frame stack_frame name class_fs_path)
    as [class_location class_fs_path'].
  cbn [fst] in *.
  destruct (snprintf_at_truncated _ _ _ Hblock Hroom Hlong Hint)
    as (stored & -> & Hstored).
  cbn [mbind option_bind].
  rewrite printed_partially_truncated by lia.
  destruct (_ <=? _) eqn:Hnear.
  - apply Z.leb_le in Hnear. right. cbn [mbind option_bind].
    destruct (block_write_clear text (bytes stored ++ [Ascii.zero]))
      as [tail Hclear].
    rewrite <-app_assoc in Hclear. cbn [app] in Hclear. rewrite Hclear.
    cbn [mbind option_bind]. exists tail, class_fs_path'. split; [done|lia].
  - apply Z.leb_gt in Hnear. left. split; [done|lia].
Qed.

(** A throwable with a frame that does not fit: the trace ends before
    that frame, or a byte behind the block is read. *)
Lemma print_exception_stack_trace_cut
  exception str fit big rest pre block executable :
  block_holds pre block →
  throwable_toString exception = Some str →
  getStackTrace exception = Some (fit ++ big :: rest) →
  Forall frame_printable fit →
  frame_printable big →
  Z.of_nat (strlen (frame_line big)) ≤ INT_MAX →
  Z.of_nat (strlen pre + strlen (str +:+ String newline EmptyString)
            + strlen (concat_strings (frame_line <$> fit)))
  < MAX_STACK_TRACE_STRING_LENGTH →
  MAX_STACK_TRACE_STRING_LENGTH
  ≤ Z.of_nat (strlen pre + strlen (str +:+ String newline EmptyString)
              + strlen (concat_strings (frame_line <$> fit))
              + strlen (frame_line big)) →
  print_exception_stack_trace exception block (strlen pre)
    (MAX_STACK_TRACE_STRING_LENGTH - Z.of_nat (strlen pre)) executable
  = None
    ∧ MAX_STACK_TRACE_STRING_LENGTH + 1
      < Z.of_nat (strlen pre + strlen (str +:+ String newline EmptyString)
                  + strlen (concat_strings (frame_line <$> fit))
                  + strlen (frame_line big))
  ∨ ∃ tail executable',
      print_exception_stack_trace exception block (strlen pre)
        (MAX_STACK_TRACE_STRING_LENGTH - Z.of_nat (strlen pre)) executable
      = Some (bytes (pre +:+ (str +:+ String newline EmptyString)
                     +:+ concat_strings (frame_line <$> fit))
              ++ Ascii.zero :: tail,
              Z.of_nat (strlen (str +:+ String newline EmptyString)
                        + strlen (concat_strings (frame_line <$> fit))),
              executable')
      ∧ Z.of_nat (strlen pre + strlen (str +:+ String newline EmptyString)
                  + strlen (concat_strings (frame_line <$> fit))
                  + strlen (frame_line big))
        ≤ MAX_STACK_TRACE_STRING_LENGTH + 1.
Proof.
  intros Hblock Hstr Hframes Hfit Hbig Hint Hroom Hlong.
  unfold print_exception_stack_trace. rewrite Hstr, Hframes.
  destruct (snprintf_at_holds pre (str +:+ String newline EmptyString) block
              Hblock) as (block1 & -> & Hblock1); [lia|].
  cbn [mbind option_bind].
  destruct (_ <? 0) eqn:Hneg; [apply Z.ltb_lt in Hneg; lia|].
  rewrite printed_wholly by done. cbn [mbind option_bind].
  destruct (print_frames_prefix fit (big :: rest) pre
              (str +:+ String newline EmptyString) block1 executable
              Hblock1 Hfit) as (block2 & executable2 & -> & Hblock2); [lia|].
  cbn [print_frames].
  rewrite <-append_assoc in Hblock2.
  replace (strlen pre
           + Z.to_nat
               (Z.of_nat (strlen (str +:+ String newline EmptyString)
                          + strlen (concat_strings (frame_line <$> fit)))))%nat
    with (strlen ((pre +:+ str +:+ String newline EmptyString)
                  +:+ concat_strings (frame_line <$> fit)))
    by (rewrite !strlen_append; lia).
  replace (to_unsigned
             (to_size_t
                (MAX_STACK_TRACE_STRING_LENGTH - Z.of_nat (strlen pre)
                 - Z.of_nat
                     (strlen (str +:+ String newline EmptyString)
                      + strlen (concat_strings (frame_line <$> fit))))))
    with (MAX_STACK_TRACE_STRING_LENGTH
          - Z.of_nat (strlen ((pre +:+ str +:+ String newline EmptyString)
                              +:+ concat_strings (frame_line <$> fit)))).
  2:{ rewrite ?strlen_append in *.
      rewrite to_size_t_small, to_unsigned_small; lia. }
  destruct (print_stack_trace_element_cut big _ block2
              (if match rest with [] => true | _ :: _ => false end
               then executable2 else None) Hblock2 Hbig)
    as [[-> Hfar]|(tail & class_fs_path' & -> & Hnear)];
    [rewrite ?strlen_append in *; lia..| |].
  - left. split; [done|].
    rewrite ?strlen_append in *. lia.
  - right. cbn [mbind option_bind].
    change (0 <=? 0) with true. cbn match.
    eexists tail, _. split.
    + rewrite append_assoc. reflexivity.
    + rewrite ?strlen_append in *. lia.
Qed.

End StackTrace.

(** X17. When the JVM can describe the exception, its causes and all their
    frames, and the whole trace is shorter than 10000 bytes,
    [generate_thread_stack_trace] returns the trace in the form of
    [Throwable.printStackTrace]: the thread, the exception and its frames,
    and for every cause the header ["Caused by: "], the cause and its
    frames; no access leaves the block. *)
Theorem X17_stack_trace_that_fits_is_printed_whole
  (thread_name : string) (exception : T_throwable) (getCause_ok : bool)
  (causes : list T_throwable) (executable : option (option string)) :
  throwable_printable exception →
  Forall throwable_printable causes →
  nul_free
    (trace_text thread_name exception (if getCause_ok then causes else [])) →
  Z.of_nat
    (CString.strlen
       (trace_text thread_name exception
          (if getCause_ok then causes else [])))
  < MAX_STACK_TRACE_STRING_LENGTH →
  ∃ executable',
    generate_thread_stack_trace true thread_name exception getCause_ok causes
      executable
    = Some (Some (trace_text thread_name exception
                    (if getCause_ok then causes else [])),
            executable').
Proof.
  intros Hexception Hcauses Hnul Hfits.
  unfold generate_thread_stack_trace, trace_text in *.
  rewrite !strlen_append in Hfits.
  pose proof block_size_Z as Hsize.
  destruct (snprintf_at_holds EmptyString (thread_text thread_name) _
              block_holds_calloc) as (block & Hheader & Hblock).
  { change (CString.strlen EmptyString) with 0%nat. lia. }
  change (CString.strlen EmptyString) with 0%nat in Hheader.
  rewrite Z.sub_0_r in Hheader. rewrite Hheader.
  rewrite append_nil_l in Hblock.
  cbn [mbind option_bind].
  rewrite (block_holds_length _ _ Hblock).
  destruct (_ || _) eqn:Hpointer.
  { apply orb_true_iff in Hpointer as [Hneg|Hbig].
    - apply Z.ltb_lt in Hneg. lia.
    - apply Z.ltb_lt in Hbig. lia. }
  rewrite Nat2Z.id, to_size_t_small by lia.
  destruct (print_exception_stack_trace_fits exception
              (thread_text thread_name) block executable Hblock Hexception)
    as (block1 & executable1 & -> & Hblock1); [lia|].
  cbn [mbind option_bind].
  pose proof (strlen_throwable_lines_pos exception) as Hpos.
  destruct (_ <=? 0) eqn:Hnone; [apply Z.leb_le in Hnone; lia|].
  exists executable1.
  replace (Z.of_nat (CString.strlen (thread_text thread_name))
           + Z.of_nat (CString.strlen (throwable_lines exception)))
    with (Z.of_nat (CString.strlen (thread_text thread_name
                                    +:+ throwable_lines exception)))
    by (rewrite strlen_append; lia).
  destruct getCause_ok.
  - destruct (print_causes_fits causes _ _ Hblock1 Hcauses)
      as (block2 & -> & Hblock2).
    { rewrite strlen_append. lia. }
    cbn [mbind option_bind]. rewrite <-append_assoc in Hnul.
    by rewrite (block_string_holds _ _ Hnul Hblock2), append_assoc.
  - cbn [mbind option_bind fmap list_fmap concat_strings] in *.
    rewrite <-append_assoc, append_nil_r in Hnul.
    rewrite (block_string_holds _ _ Hnul Hblock1).
    cbn [mbind option_bind]. by rewrite <-append_assoc, append_nil_r.
Qed.

(** A trace of two frames and a cause. *)
Lemma X17_stack_trace_that_fits_is_printed_whole_witness :
  ∃ executable',
    generate_thread_stack_trace true "main"
      (sample_throwable "java.lang.IllegalStateException: no state"
         [sample_frame "com.example.Main.run(Main.java:12)";
          sample_frame "com.example.Main.main(Main.java:5)"])
      true
      [sample_throwable "java.io.IOException: closed"
         [sample_frame "com.example.Main.read(Main.java:30)"]]
      (Some None)
    = Some (Some (trace_text "main"
                    (sample_throwable
                       "java.lang.IllegalStateException: no state"
                       [sample_frame "com.example.Main.run(Main.java:12)";
                        sample_frame "com.example.Main.main(Main.java:5)"])
                    [sample_throwable "java.io.IOException: closed"
                       [sample_frame "com.example.Main.read(Main.java:30)"]]),
            executable').
Proof.
  apply (X17_stack_trace_that_fits_is_printed_whole "main"
           (sample_throwable "java.lang.IllegalStateException: no state"
              [sample_frame "com.example.Main.run(Main.java:12)";
               sample_frame "com.example.Main.main(Main.java:5)"])
           true
           [sample_throwable "java.io.IOException: closed"
              [sample_frame "com.example.Main.read(Main.java:30)"]]
           (Some None)).
  - split; [by eexists|]. eexists. split; [reflexivity|].
    repeat constructor; by eexists.
  - repeat constructor; try by eexists.
    eexists. split; [reflexivity|]. repeat constructor; by eexists.
  - reflexivity.
  - vm_compute. reflexivity.
Defined.

(** X18. When the lines up to some frame fit and the line of the next frame
    does not, [generate_thread_stack_trace] returns the trace up to the
    frame before, without a part of the line that was cut, only if that line
    would end at the last byte of the block or the byte before. For every
    longer line the test for the final newline reads a byte behind the
    block. *)
Theorem X18_frame_that_does_not_fit
  (thread_name : string) (exception : T_throwable) (getCause_ok : bool)
  (causes : list T_throwable) (executable : option (option string))
  (str : string) (fit : list T_stackFrame) (big : T_stackFrame)
  (rest : list T_stackFrame) :
  throwable_toString exception = Some str →
  getStackTrace exception = Some (fit ++ big :: rest) →
  Forall frame_printable fit →
  frame_printable big →
  Z.of_nat (CString.strlen (frame_line big)) ≤ INT_MAX →
  Z.of_nat (CString.strlen (trace_prefix thread_name str fit))
  < MAX_STACK_TRACE_STRING_LENGTH →
  MAX_STACK_TRACE_STRING_LENGTH
  ≤ Z.of_nat (CString.strlen (trace_prefix thread_name str fit)
              + CString.strlen (frame_line big)) →
  (MAX_STACK_TRACE_STRING_LENGTH + 1
   < Z.of_nat (CString.strlen (trace_prefix thread_name str fit)
               + CString.strlen (frame_line big)) →
   generate_thread_stack_trace true thread_name exception getCause_ok causes
     executable
   = None)
  ∧ (Z.of_nat (CString.strlen (trace_prefix thread_name str fit)
               + CString.strlen (frame_line big))
     ≤ MAX_STACK_TRACE_STRING_LENGTH + 1 →
     (if getCause_ok then causes else []) = [] →
     nul_free (trace_prefix thread_name str fit) →
     ∃ executable',
       generate_thread_stack_trace true thread_name exception getCause_ok
         causes executable
       = Some (Some (trace_prefix thread_name str fit), executable')).
Proof.
  intros Hstr Hframes Hfit Hbig Hint Hroom Hlong.
  unfold trace_prefix in *.
  pose proof block_size_Z as Hsize.
  unfold generate_thread_stack_trace.
  destruct (snprintf_at_holds EmptyString (thread_text thread_name) _
              block_holds_calloc) as (block & Hheader & Hblock).
  { change (CString.strlen EmptyString) with 0%nat.
    rewrite ?strlen_append in *. lia. }
  change (CString.strlen EmptyString) with 0%nat in Hheader.
  rewrite Z.sub_0_r in Hheader. rewrite Hheader.
  rewrite append_nil_l in Hblock.
  cbn [mbind option_bind].
  rewrite (block_holds_length _ _ Hblock).
  destruct (_ || _) eqn:Hpointer.
  { apply orb_true_iff in Hpointer as [Hneg|Hbig'].
    - apply Z.ltb_lt in Hneg. lia.
    - apply Z.ltb_lt in Hbig'. rewrite ?strlen_append in *. lia. }
  rewrite Nat2Z.id, to_size_t_small by (rewrite ?strlen_append in *; lia).
  destruct (print_exception_stack_trace_cut exception str fit big rest
              (thread_text thread_name) block executable
              Hblock Hstr Hframes Hfit Hbig Hint)
    as [[-> Hfar]|(tail & executable' & -> & Hnear)];
    [rewrite ?strlen_append in *; lia..| |].
  - split; [done|]. intros Hle. rewrite ?strlen_append in *. lia.
  - split; [intros Hgt; rewrite ?strlen_append in *; lia|].
    intros _ Hcauses Hnul. cbn [mbind option_bind].
    destruct (_ <=? 0) eqn:Hnone.
    { apply Z.leb_le in Hnone. rewrite strlen_append in Hnone.
      change (CString.strlen (String newline EmptyString)) with 1%nat
        in Hnone. lia. }
    exists executable'.
    assert (∀ block0 wrote,
              (if getCause_ok then print_causes causes block0 wrote
               else Some block0) = Some block0) as ->.
    { intros block0 wrote. destruct getCause_ok; [|done].
      by rewrite Hcauses. }
    cbn [mbind option_bind]. rewrite !append_assoc.
    by rewrite block_string_stored.
Qed.

(** A frame of 10000 bytes after a frame that fits. *)
Lemma X18_frame_that_does_not_fit_witness :
  generate_thread_stack_trace true "main"
    (sample_throwable "java.lang.StackOverflowError"
       [sample_frame "com.example.Main.run(Main.java:12)";
        sample_frame (string_of_length (Z.to_nat 10000))])
    true [] None
  = None.
Proof.
  apply (X18_frame_that_does_not_fit "main"
           (sample_throwable "java.lang.StackOverflowError"
              [sample_frame "com.example.Main.run(Main.java:12)";
               sample_frame (string_of_length (Z.to_nat 10000))])
           true [] None "java.lang.StackOverflowError"
           [sample_frame "com.example.Main.run(Main.java:12)"]
           (sample_frame (string_of_length (Z.to_nat 10000))) []).
  - reflexivity.
  - reflexivity.
  - repeat constructor; by eexists.
  - split; by eexists.
  - vm_compute. discriminate.
  - vm_compute. reflexivity.
  - vm_compute. discriminate.
  - vm_compute. reflexivity.
Defined.

(** The second frame would end at the last byte of the block, and one byte
    behind it: the trace ends with the first frame. The class of the last
    frame that was tried gives the executable. *)
Example stack_trace_without_the_last_frame :
  generate_thread_stack_trace true "main"
    (sample_throwable "java.lang.StackOverflowError"
       [sample_frame "com.example.Main.run(Main.java:12)";
        sample_frame (string_of_length (Z.to_nat 9805))])
    true [] (Some None)
  = Some (Some (trace_prefix "main" "java.lang.StackOverflowError"
                  [sample_frame "com.example.Main.run(Main.java:12)"]),
          Some (Some "/opt/app.jar"))
  ∧ generate_thread_stack_trace true "main"
      (sample_throwable "java.lang.StackOverflowError"
         [sample_frame "com.example.Main.run(Main.java:12)";
          sample_frame (string_of_length (Z.to_nat 9806))])
      true [] (Some None)
    = None.
Proof. split; vm_compute; reflexivity. Qed.

(** ** The main class and the debug methods *)

Section MainClass.

Import CString.

Lemma before_char_absent c s : absent c s → before_char c s = s.
Proof.
  induction s as [|a s IH]; [done|].
  intros [Ha Hs]%absent_cons. simpl.
  apply Ascii.eqb_neq in Ha as ->. by rewrite IH.
Qed.

(** Only the bytes before the first blank are kept. *)
Lemma before_char_append c s t :
  absent c s → before_char c (s +:+ String c t) = s.
Proof.
  induction s as [|a s IH].
  - intros _. rewrite append_nil_l. simpl. by rewrite Ascii.eqb_refl.
  - intros [Ha Hs]%absent_cons. rewrite append_cons. simpl.
    apply Ascii.eqb_neq in Ha as ->. by rewrite IH.
Qed.

Lemma string_drop_append s t : string_drop (strlen s) (s +:+ t) = t.
Proof.
  unfold strlen. induction s as [|a s IH]; [by destruct t|].
  by rewrite append_cons.
Qed.

Lemma names_a_jar_suffix stem :
  stem ≠ EmptyString → names_a_jar (stem +:+ ".jar") = true.
Proof.
  intros Hstem. unfold names_a_jar. rewrite strlen_append.
  change (strlen ".jar") with 4%nat.
  replace (strlen stem + 4 - 4)%nat with (strlen stem) by lia.
  rewrite string_drop_append.
  apply andb_true_iff. split; [|done].
  apply Nat.ltb_lt. destruct stem; [done|]. unfold strlen. simpl. lia.
Qed.

End MainClass.

(** X19. [get_main_class] looks at the first word of [sun.java.command]
    only. When that word names a jar it returns the real path of the jar.
    When it names a class that was loaded from a jar, it looks the class up
    with ['/'] for every ['.'] and returns the path of that jar in the file
    system. *)
Theorem X19_main_class_of_the_first_word
  (word args : string) (jvm : T_mainClassLookup) :
  absent " "%char word →
  get_main_class (Some (word +:+ " " +:+ args)) jvm
  = get_main_class (Some word) jvm
  ∧ (∀ stem jarpath,
       word = stem +:+ ".jar" → stem ≠ EmptyString →
       realpath jvm = Some jarpath → main_strdup_ok jvm = true →
       get_main_class (Some (word +:+ " " +:+ args)) jvm
       = Some (Some jarpath))
  ∧ (∀ cls path entry,
       names_a_jar word = false →
       nul_free word →
       main_FindClass jvm (CString.replace_all "."%char "/"%char word)
       = Some cls →
       main_malloc_ok jvm = true →
       main_get_path_to_class jvm cls
         (CString.replace_all "."%char "/"%char word +:+ ".")
         GET_PATH_METHOD_NAME
       = Some ("file:" +:+ path +:+ ".jar!" +:+ entry) →
       strstr path ".jar!" = None →
       get_main_class (Some (word +:+ " " +:+ args)) jvm
       = Some (Some (path +:+ ".jar"))).
Proof.
  intros Hword.
  assert (get_main_class (Some (word +:+ " " +:+ args)) jvm
          = get_main_class (Some word) jvm) as Hfirst.
  { unfold get_main_class. cbv zeta.
    change (word +:+ " " +:+ args) with (word +:+ String " "%char args).
    by rewrite before_char_append, before_char_absent. }
  rewrite Hfirst. split_and!; [done| |].
  - intros stem jarpath -> Hstem Hreal Hdup. unfold get_main_class.
    cbv zeta. rewrite before_char_absent by done.
    by rewrite names_a_jar_suffix, Hreal, Hdup.
  - intros cls path entry Hjar Hnul Hclass Hmalloc Hpath Hnone.
    unfold get_main_class. cbv zeta.
    rewrite before_char_absent by done. rewrite Hjar.
    unfold string_replace.
    rewrite !(nul_free_replace_all "."%char "/"%char) by done.
    rewrite Hclass, Hmalloc. cbn [create_updated_class_name].
    rewrite Hpath. do 2 f_equal.
    by apply extract_fs_path_jar_url.
Qed.

(** A class started with arguments. *)
Lemma X19_main_class_of_the_first_word_witness :
  get_main_class (Some "com.example.Main --port 80") sample_main_class_lookup
  = Some (Some "/opt/app.jar").
Proof.
  exact (proj2 (proj2 (X19_main_class_of_the_first_word
                         "com.example.Main" "--port 80"
                         sample_main_class_lookup eq_refl))
           7%N "/opt/app" "/com/example/Main.class"
           eq_refl eq_refl eq_refl eq_refl eq_refl eq_refl).
Defined.

Section DebugMethods.

Import CString.

(** What [find_class_in_loaded_class] returns is a loaded class with the
    searched name. *)
Lemma find_loaded_class_Some loaded_classes searched_class_name cls :
  find_loaded_class loaded_classes searched_class_name = Some cls →
  (cls, Some searched_class_name) ∈ loaded_classes.
Proof.
  induction loaded_classes as [|[cls' [name|]] loaded_classes IH]; [done|..].
  - cbn [find_loaded_class].
    destruct (String.eqb searched_class_name name) eqn:Hname.
    + apply String.eqb_eq in Hname as <-. intros [= <-]. left.
    + intros Hrest. right. by apply IH.
  - cbn [find_loaded_class]. intros Hrest. right. by apply IH.
Qed.

(** Every pair comes from a configured method, in the order of the
    configuration. *)
Lemma collect_debug_information_sublist fqdnDebugMethods info :
  collect_debug_information fqdnDebugMethods = Some info →
  sublist ((λ iter, (label iter, Some (Some (data iter)))) <$> info)
    ((λ method, (method.1, debug_string method.2)) <$> fqdnDebugMethods).
Proof.
  revert info.
  induction fqdnDebugMethods as [|[iter jvm] fqdnDebugMethods IH];
    intros info.
  { intros [= <-]. constructor. }
  cbn [collect_debug_information]. rewrite fmap_cons. cbn [fst snd].
  destruct (debug_strdup_ok jvm); [|intros [= <-]; apply sublist_nil_l].
  destruct (strrchr iter "."%char) as [debug_method_name|];
    [|intros Hrest; apply sublist_cons; by apply IH].
  destruct (find_class_in_loaded_class _ _) as [debug_class|];
    [|intros Hrest; apply sublist_cons; by apply IH].
  destruct (debug_GetStaticMethodID jvm _ _) as [debug_method|];
    [|intros Hrest; apply sublist_cons; by apply IH].
  destruct (debug_string jvm) as [[tmp|]|];
    [|done|intros Hrest; apply sublist_cons; by apply IH].
  destruct (debug_data_strdup_ok jvm); [|intros [= <-]; apply sublist_nil_l].
  destruct (collect_debug_information fqdnDebugMethods) as [rest|]; [|done].
  intros [= <-]. rewrite fmap_cons. cbn [label data].
  apply sublist_skip. by apply IH.
Qed.

(** Every pair is labelled by a method of a loaded class. *)
Lemma collect_debug_information_loaded fqdnDebugMethods info :
  collect_debug_information fqdnDebugMethods = Some info →
  Forall (λ iter,
            ∃ jvm loaded_classes debug_method_name debug_class,
              (label iter, jvm) ∈ fqdnDebugMethods
              ∧ strrchr (label iter) "."%char = Some debug_method_name
              ∧ debug_loaded_classes jvm = Some loaded_classes
              ∧ (debug_class,
                 Some (take (strlen (label iter) - strlen debug_method_name)
                         (label iter))) ∈ loaded_classes
              ∧ is_Some (debug_GetStaticMethodID jvm debug_class
                           (next debug_method_name))) info.
Proof.
  revert info.
  induction fqdnDebugMethods as [|[iter jvm] fqdnDebugMethods IH];
    intros info.
  { intros [= <-]. constructor. }
  assert (∀ info,
            collect_debug_information fqdnDebugMethods = Some info →
            Forall (λ iter0,
                      ∃ jvm0 loaded_classes debug_method_name debug_class,
                        (label iter0, jvm0) ∈ (iter, jvm) :: fqdnDebugMethods
                        ∧ strrchr (label iter0) "."%char
                          = Some debug_method_name
                        ∧ debug_loaded_classes jvm0 = Some loaded_classes
                        ∧ (debug_class,
                           Some (take (strlen (label iter0)
                                       - strlen debug_method_name)
                                   (label iter0))) ∈ loaded_classes
                        ∧ is_Some (debug_GetStaticMethodID jvm0 debug_class
                                     (next debug_method_name))) info)
    as Hrest.
  { intros info' Hinfo'. eapply Forall_impl; [by apply IH|].
    intros iter0 (jvm0 & loaded & name & cls & Hin & Hrest).
    exists jvm0, loaded, name, cls. split; [by right|done]. }
  cbn [collect_debug_information].
  destruct (debug_strdup_ok jvm); [|intros [= <-]; constructor].
  destruct (strrchr iter "."%char) as [debug_method_name|] eqn:Hname;
    [|by apply Hrest].
  destruct (find_class_in_loaded_class _ _) as [debug_class|] eqn:Hclass;
    [|by apply Hrest].
  destruct (debug_GetStaticMethodID jvm _ _) as [debug_method|] eqn:Hmethod;
    [|by apply Hrest].
  destruct (debug_string jvm) as [[tmp|]|]; [|done|by apply Hrest].
  destruct (debug_data_strdup_ok jvm); [|intros [= <-]; constructor].
  destruct (collect_debug_information fqdnDebugMethods) as [rest|]; [|done].
  intros [= <-]. constructor; [|by apply Hrest].
  unfold find_class_in_loaded_class in Hclass.
  destruct (debug_loaded_classes jvm) as [loaded_classes|] eqn:Hloaded;
    [|done].
  cbn [mbind option_bind] in Hclass.
  apply find_loaded_class_Some in Hclass.
  exists jvm, loaded_classes, debug_method_name, debug_class.
  cbn [label]. split_and!; [left|done|done|done|by rewrite Hmethod].
Qed.

End DebugMethods.

(** X20. [collect_additional_debug_information] stores at most one pair for
    every configured method, in the order of the configuration, so that the
    vector it allocated for all methods and the final empty entry is never
    left. The label of a pair is the configured name, its data is the string
    the method returned, and the method belongs to a class that is loaded:
    the name before the last ['.'] is the name of a loaded class. *)
Theorem X20_debug_information_of_configured_methods
  (fqdnDebugMethods : list (string * T_debugMethodCall))
  (info : list T_infoPair) :
  collect_additional_debug_information (Some fqdnDebugMethods) true
  = Some (Some info) →
  sublist ((λ iter, (label iter, Some (Some (data iter)))) <$> info)
    ((λ method, (method.1, debug_string method.2)) <$> fqdnDebugMethods)
  ∧ (length info ≤ length fqdnDebugMethods)%nat
  ∧ Forall (λ iter,
              ∃ jvm loaded_classes debug_method_name debug_class,
                (label iter, jvm) ∈ fqdnDebugMethods
                ∧ CString.strrchr (label iter) "."%char
                  = Some debug_method_name
                ∧ debug_loaded_classes jvm = Some loaded_classes
                ∧ (debug_class,
                   Some (CString.take
                           (CString.strlen (label iter)
                            - CString.strlen debug_method_name)
                           (label iter))) ∈ loaded_classes
                ∧ is_Some (debug_GetStaticMethodID jvm debug_class
                             (CString.next debug_method_name))) info.
Proof.
  unfold collect_additional_debug_information. intros Hcollect.
  destruct (collect_debug_information fqdnDebugMethods) as [info'|] eqn:Hinfo;
    [|done].
  injection Hcollect as <-.
  pose proof (collect_debug_information_sublist _ _ Hinfo) as Hsub.
  split_and!; [done| |by apply collect_debug_information_loaded].
  apply sublist_length in Hsub. by rewrite !length_fmap in Hsub.
Qed.

(** Three configured methods: one of a class that is not loaded, one that
    is not in the form of class and method, and one that can be called. *)
Lemma X20_debug_information_of_configured_methods_witness :
  sublist [("com.example.Debug.state", Some (Some "idle"))]
    [("org.other.Tool.dump", Some (Some "unused"));
     ("state", Some (Some "unused"));
     ("com.example.Debug.state", Some (Some "idle"))]
  ∧ collect_additional_debug_information
      (Some [("org.other.Tool.dump",
              sample_debug_method "com.example.Debug" (Some "unused"));
             ("state",
              sample_debug_method "com.example.Debug" (Some "unused"));
             ("com.example.Debug.state",
              sample_debug_method "com.example.Debug" (Some "idle"))])
      true
    = Some (Some [ {| label := "com.example.Debug.state";
                      data := "idle" |} ]).
Proof.
  split; [|reflexivity].
  exact (proj1 (X20_debug_information_of_configured_methods
                  [("org.other.Tool.dump",
                    sample_debug_method "com.example.Debug" (Some "unused"));
                   ("state",
                    sample_debug_method "com.example.Debug" (Some "unused"));
                   ("com.example.Debug.state",
                    sample_debug_method "com.example.Debug" (Some "idle"))]
                  [ {| label := "com.example.Debug.state";
                       data := "idle" |} ]
                  eq_refl)).
Defined.

